(** * Research-Assistant backend: a shallow embedding and its properties

    The development follows the Python sources of the backend:
    - [Py]        the fragment of Python the backend relies on: exceptions,
                  [try]/[except], string slicing and stripping, logging;
    - [Schemas]   [models/schemas.py];
    - [QA]        [agents/qa_agent.py];
    - [Api]       the [/answer] endpoint of [main.py];
    - [Cypher]    the property graph behind the Neo4j driver and the clauses
                  the queries of the backend are made of;
    - [DBAgent]   [agents/db_agent.py];
    - [Neo4jHandler] [database/neo4j_handler.py];
    - [FutureWorks]  [agents/future_works_agent.py];
    - [ApiReview]    the [/review] endpoint of [main.py].

    External engines (the question-answering pipeline, the tokenizer, the
    language model, the ranker, the database connection) are parameters: every
    statement holds for every behaviour of theirs, raising included. *)

From Stdlib Require Import ZArith Floats Ascii.
From stdpp Require Import base strings list gmap sorting pretty.
Set Warnings "-inexact-float,-clear-no-such-hyp".

(* ===================================================================== *)
(** * Python: exceptions, effects, strings *)
(* ===================================================================== *)

Module Py.

(** Instances of [Exception]. [LibraryError] stands for whatever a third
    party library raises (a driver, a tokenizer, a model); [cls] is its class
    name and [msg] its [str()]. *)
Inductive exn :=
| ValueError (msg : string)
| HTTPException (status_code : Z) (detail : string)
| LibraryError (cls msg : string).

(** [str(e)], as used by the f-strings of the log messages and by
    [detail=str(e)]. *)
Definition str (e : exn) : string :=
  match e with
  | ValueError msg => msg
  | HTTPException code detail => pretty code +:+ ": " +:+ detail
  | LibraryError _ msg => msg
  end.

(** A call either returns or raises. *)
Inductive outcome (A : Type) :=
| Ret (a : A)
| Raise (e : exn).
Global Arguments Ret {A} a.
Global Arguments Raise {A} e.

(** Computations over a state [S] (a trace of calls and log lines, a
    database, ...) that may raise. The state survives a raise: what was
    logged before the exception stays logged. *)
Global Instance outcome_ret : MRet outcome := λ A a, Ret a.
Global Instance outcome_bind : MBind outcome := λ A B f m,
  match m with
  | Ret a => f a
  | Raise e => Raise e
  end.
Global Instance outcome_fmap : FMap outcome := λ A B f m,
  match m with
  | Ret a => Ret (f a)
  | Raise e => Raise e
  end.

Definition M (S A : Type) : Type := S → outcome A * S.

Global Instance M_ret {S} : MRet (M S) := λ A a s, (Ret a, s).
Global Instance M_bind {S} : MBind (M S) := λ A B f m s,
  match m s with
  | (Ret a, s') => f a s'
  | (Raise e, s') => (Raise e, s')
  end.

Definition raise {S A} (e : exn) : M S A := λ s, (Raise e, s).

(** [try: body / except Exception as e: handler e]. *)
Definition try_except {S A} (body : M S A) (handler : exn → M S A) : M S A :=
  λ s, match body s with
       | (Ret a, s') => (Ret a, s')
       | (Raise e, s') => handler e s'
       end.

(** [try: body / finally: cleanup]: the cleanup runs on both exits; when it
    raises, its exception replaces the pending one. *)
Definition try_finally {S A} (body : M S A) (cleanup : M S unit) : M S A :=
  λ s, match body s with
       | (r, s') =>
           match cleanup s' with
           | (Ret _, s'') => (r, s'')
           | (Raise e, s'') => (Raise e, s'')
           end
       end.

(** An external call whose behaviour is the parameter [r]. *)
Definition call {S A} (r : outcome A) : M S A := λ s, (r, s).

Definition get_state {S} : M S S := λ s, (Ret s, s).
Definition modify {S} (f : S → S) : M S unit := λ s, (Ret tt, f s).

Definition result_of {S A} (r : outcome A * S) : outcome A := r.1.
Definition state_of {S A} (r : outcome A * S) : S := r.2.

(** ** Strings *)

(** ["\n"] *)
Definition nl : string := String "010"%char "".

(** [s[:n]] *)
Definition slice_to (n : nat) (s : string) : string := String.substring 0 n s.

(** [s[n:]] *)
Definition slice_from (n : nat) (s : string) : string :=
  String.substring n (String.length s - n) s.

(** [c.isspace()] on the code points below 256. *)
Definition isspace (c : ascii) : bool :=
  let n := nat_of_ascii c in
  ((9 <=? n) && (n <=? 13)) || ((28 <=? n) && (n <=? 32))
  || (n =? 133) || (n =? 160).

Fixpoint lstrip (s : string) : string :=
  match s with
  | EmptyString => EmptyString
  | String c s' => if isspace c then lstrip s' else s
  end.

Definition rstrip (s : string) : string := String.rev (lstrip (String.rev s)).

(** [s.strip()] *)
Definition strip (s : string) : string := rstrip (lstrip s).

(** [needle in hay] *)
Fixpoint str_in (needle hay : string) : bool :=
  String.prefix needle hay
  || match hay with
     | EmptyString => false
     | String _ hay' => str_in needle hay'
     end.

(** [sep.join(parts)] *)
Fixpoint join (sep : string) (parts : list string) : string :=
  match parts with
  | [] => ""
  | [p] => p
  | p :: ps => p +:+ sep +:+ join sep ps
  end.

(** [bool(s)] for a string, [bool(l)] for a list. *)
Definition truthy_str (s : string) : bool :=
  match s with EmptyString => false | _ => true end.
Definition truthy_list {A} (l : list A) : bool :=
  match l with [] => false | _ => true end.

(** [c.lower()] on the code points below 256: the letters A to Z and the
    capital letters of Latin-1 (U+00C0 to U+00DE, the sign U+00D7 apart) move
    up by 32. *)
Definition lower_char (c : ascii) : ascii :=
  let n := nat_of_ascii c in
  if ((65 <=? n) && (n <=? 90))
     || ((192 <=? n) && (n <=? 222) && negb (n =? 215))
  then ascii_of_nat (n + 32)
  else c.

(** [s.lower()] *)
Fixpoint lower (s : string) : string :=
  match s with
  | EmptyString => EmptyString
  | String c s' => String (lower_char c) (lower s')
  end.

(** [s.split(sep)] for a separator that is not empty: the text is read from
    the left; where the separator starts, the piece read so far ends and the
    separator is skipped. [skip] counts the characters of a separator still
    to skip, [piece] holds the current piece, last character first. *)
Fixpoint split_go (sep : string) (skip : nat) (piece : string) (s : string)
  : list string :=
  match s with
  | EmptyString => [String.rev piece]
  | String c s' =>
      match skip with
      | S k => split_go sep k piece s'
      | O =>
          if String.prefix sep s
          then String.rev piece :: split_go sep (String.length sep - 1) "" s'
          else split_go sep 0 (String c piece) s'
      end
  end.

Definition split (sep s : string) : list string := split_go sep 0 "" s.

End Py.

Import Py.

(* ===================================================================== *)
(** * models/schemas.py *)
(* ===================================================================== *)

Module Schemas.

(** The values found in the untyped [Dict]s of the code (image records). *)
Inductive pyval :=
| PStr (s : string)
| PInt (z : Z).

Global Instance pyval_eq_dec : EqDecision pyval.
Proof. solve_decision. Defined.

Record Paper := {
  id : string;
  title : string;
  authors : list string;
  abstract : string;
  year : Z;
  url : string;
  has_full_text : bool;
  has_images : bool;
  full_text : option string;
  images : option (list (gmap string pyval))
}.

Record QuestionRequest := {
  paper : list Paper;
  question : string
}.

(** [ReviewRequest]: its one field is [paper], as in [QuestionRequest]. *)
Record ReviewRequest := {
  review_paper : list Paper
}.

End Schemas.

(* ===================================================================== *)
(** * agents/qa_agent.py *)
(* ===================================================================== *)

Module QA.
Import Schemas.

(** The dict a paper is turned into by [_process_paper]. The key
    ["context"] is only set by the first definition of [_process_paper]. *)
Record context := {
  paper_id : string;
  ctx_title : string;
  ctx_text : string;
  ctx_year : Z;
  ctx_context : option (list string)
}.

(** What [self.qa_pipeline(question=..., context=...)] returns: a dict of
    which only ["score"] is read, through [.get("score", 0.0)]. *)
Record qa_result := { score : option float }.

(** The engines [QAAgent.__init__] loads. *)
Record engines := {
  qa_pipeline : string → string → outcome qa_result;
  tokenizer_encode : string → outcome (list Z);
  llm_generate : list Z → outcome (list (list Z));
  tokenizer_decode : list Z → outcome string;
  rank_contexts_engine : list context → string → outcome (list context)
}.

(** The calls made to the engines and the lines logged, in order. *)
Inductive event :=
| QaPipelineCall (question context : string)
| TokenizerEncode (prompt : string)
| LlmGenerate (input_ids : list Z) (max_new_tokens : Z)
| TokenizerDecode (output_ids : list Z)
| RankContexts (n_contexts : nat) (query : string)
| LogError (msg : string).

Definition trace := list event.
Definition emit (e : event) : M trace unit := modify (λ t, t ++ [e]).

(** The dict [{"text": ..., "confidence": ...}]. *)
Record answer := { text : string; confidence : float }.

Record source := {
  src_paper_id : string;
  src_title : string;
  src_year : Z;
  excerpt : string;
  src_context : option (list string)
}.

Record response := {
  resp_text : string;
  resp_confidence : float;
  sources : list source;
  context_used : string
}.

Section Agent.
Variable eng : engines.

(** [f"Question: {question}\nAnswer:"] *)
Definition prompt_of (question : string) : string :=
  "Question: " +:+ question +:+ nl +:+ "Answer:".

(** The [try] block of [_generate_answer]. *)
Definition _generate_answer_try (question ctx : string) : M trace answer :=
  (* Get initial answer from QA pipeline (optional) *)
  emit (QaPipelineCall question (slice_to 500 ctx));;
  qa_result ← call (qa_pipeline eng question (slice_to 500 ctx));
  (* Simplify the prompt *)
  let prompt := prompt_of question in
  emit (TokenizerEncode prompt);;
  inputs ← call (tokenizer_encode eng prompt);
  let max_new_tokens := 150%Z in
  emit (LlmGenerate inputs max_new_tokens);;
  outputs ← call (llm_generate eng inputs);
  output0 ← match outputs with
            | o :: _ => mret o
            | [] => raise (LibraryError "IndexError" "index 0 is out of bounds")
            end;
  emit (TokenizerDecode output0);;
  generated_text ← call (tokenizer_decode eng output0);
  (* Remove the prompt from the generated text *)
  let answer := strip (slice_from (String.length prompt) generated_text) in
  mret {| text := answer;
          confidence := default 0.0%float (score qa_result) |}.

Definition _generate_answer (question ctx : string) : M trace answer :=
  try_except
    (_generate_answer_try question ctx)
    (λ e,
       emit (LogError ("Error generating answer: " +:+ str e));;
       mret {| text := "Failed to generate answer";
               confidence := 0.0%float |}).

(** The class body defines [_process_paper] twice. This is the second
    definition, the one the name is bound to once the class is built. *)
Definition _process_paper (p : Paper) (question : string) : option context :=
  let content := abstract p in
  if negb (truthy_str content) then None
  else Some {| paper_id := id p;
               ctx_title := title p;
               ctx_text := content;
               ctx_year := year p;
               ctx_context := None |}.

(** The content the first, shadowed definition of [_process_paper]
    starts from: [paper.full_text if paper.full_text else paper.abstract]. *)
Definition _process_paper_shadowed_content (p : Paper) : string :=
  match full_text p with
  | Some t => if truthy_str t then t else abstract p
  | None => abstract p
  end.

Fixpoint _gather_contexts (papers : list Paper) (question : string)
  : list context :=
  match papers with
  | [] => []
  | p :: rest =>
      match _process_paper p question with
      | Some c => c :: _gather_contexts rest question
      | None => _gather_contexts rest question
      end
  end.

(** [f"From {ctx['title']} ({ctx['year']}):\n{ctx['text']}"] joined by
    blank lines. *)
Definition _combine_contexts (contexts : list context) : string :=
  join (nl +:+ nl)
    ((λ c, "From " +:+ ctx_title c +:+ " (" +:+ pretty (ctx_year c)
           +:+ "):" +:+ nl +:+ ctx_text c) <$> contexts).

(** First definition of [_format_response] in the class body: shadowed by
    the second. *)
Definition _format_response_shadowed
    (a : answer) (contexts : list context) (combined_context : string)
  : response :=
  {| resp_text := text a;
     resp_confidence := confidence a;
     sources := (λ c, {| src_paper_id := paper_id c;
                         src_title := ctx_title c;
                         src_year := ctx_year c;
                         excerpt := ctx_text c;
                         src_context := Some (default [] (ctx_context c)) |})
                <$> contexts;
     context_used := combined_context |}.

(** Second definition of [_format_response]: the one in force. *)
Definition _format_response
    (a : answer) (contexts : list context) (combined_context : string)
  : response :=
  {| resp_text := text a;
     resp_confidence := confidence a;
     sources := (λ c, {| src_paper_id := paper_id c;
                         src_title := ctx_title c;
                         src_year := ctx_year c;
                         excerpt := slice_to 200 (ctx_text c) +:+ "...";
                         src_context := None |})
                <$> contexts;
     context_used := slice_to 1000 combined_context |}.

Definition rank_contexts (contexts : list context) (query : string)
  : M trace (list context) :=
  emit (RankContexts (length contexts) query);;
  call (rank_contexts_engine eng contexts query).

Definition answer_question (papers : list Paper) (question : string)
  : M trace response :=
  if negb (truthy_list papers) || negb (truthy_str question)
  then raise (ValueError "Papers list and question cannot be empty")
  else
    try_except
      (match papers with
       | [p] =>
           match _process_paper p question with
           | None => raise (ValueError "No relevant content found in paper")
           | Some c =>
               a ← _generate_answer question (ctx_text c);
               mret (_format_response a [c] (ctx_text c))
           end
       | _ =>
           let all_contexts := _gather_contexts papers question in
           sorted_contexts ← rank_contexts all_contexts question;
           let combined_context := _combine_contexts (take 3 sorted_contexts) in
           a ← _generate_answer question combined_context;
           mret (_format_response a (take 3 sorted_contexts) combined_context)
       end)
      (λ e,
         emit (LogError ("Error in answer_question: " +:+ str e));;
         raise e).

End Agent.

(** The dicts [_find_exact_context] returns. *)
Record location := {
  section : string;
  loc_text : string;
  loc_excerpt : string
}.

(** [enumerate(paragraphs)] filtered by [relevant_text in para]; [i] is the
    index of the first paragraph of the list. *)
Fixpoint locate_from (i : nat) (paragraphs : list string) (relevant_text : string)
  : list location :=
  match paragraphs with
  | [] => []
  | para :: rest =>
      if str_in relevant_text para
      then {| section := "Paragraph " +:+ pretty (i + 1);
              loc_text := para;
              loc_excerpt := relevant_text |}
           :: locate_from (S i) rest relevant_text
      else locate_from (S i) rest relevant_text
  end.

Definition _find_exact_context (full_text relevant_text : string)
  : list location :=
  let paragraphs := split (nl +:+ nl) full_text in
  locate_from 0 paragraphs relevant_text.

(** The set [image_keywords]; [any] does not depend on the order. *)
Definition image_keywords : list string :=
  ["image"; "figure"; "chart"; "graph"; "diagram"; "plot"].

Definition _is_image_question (question : string) : bool :=
  existsb (λ word, str_in word (lower question)) image_keywords.

End QA.

(* ===================================================================== *)
(** * main.py: the [/answer] endpoint *)
(* ===================================================================== *)

Module Api.
Import Schemas QA.

(** The JSON body of a successful [/answer]. *)
Record answer_body := {
  body_answer : string;
  body_confidence : float;
  body_sources : list source;
  body_context_used : string
}.

Definition answer_question (eng : engines) (request : QuestionRequest)
  : M trace answer_body :=
  try_except
    ((if negb (truthy_list (paper request)) || negb (truthy_str (question request))
      then raise (HTTPException 422 "Both paper_ids and question are required")
      else mret tt);;
     let papers := paper request in
     (if negb (truthy_list papers)
      then raise (HTTPException 404 "No papers provided for answering the question")
      else mret tt);;
     a ← QA.answer_question eng papers (question request);
     mret {| body_answer := resp_text a;
             body_confidence := resp_confidence a;
             body_sources := sources a;
             body_context_used := context_used a |})
    (λ e,
       match e with
       | HTTPException code detail =>
           emit (LogError ("Answer error: " +:+ detail));;
           raise (HTTPException code detail)
       | _ =>
           emit (LogError ("Answer error: " +:+ str e));;
           raise (HTTPException 500 (str e))
       end).

End Api.

(* ===================================================================== *)
(** * The property graph and the Cypher clauses the queries are made of *)
(* ===================================================================== *)

Module Cypher.

Module Label.
Inductive label := Paper | Author | Keyword | Image.
End Label.
Abbreviation label := Label.label.
Inductive rel_type := AUTHORED | HAS_KEYWORD | HAS_IMAGE.

(** Property values. A missing property reads as [null]: [None]. *)
Inductive value :=
| VStr (s : string)
| VInt (z : Z)
| VDateTime (t : Z).

Global Instance label_eq_dec : EqDecision label.
Proof. solve_decision. Defined.
Global Instance rel_type_eq_dec : EqDecision rel_type.
Proof. solve_decision. Defined.
Global Instance value_eq_dec : EqDecision value.
Proof. solve_decision. Defined.

Definition rel_type_code (t : rel_type) : nat :=
  match t with AUTHORED => 0 | HAS_KEYWORD => 1 | HAS_IMAGE => 2 end.
Definition rel_type_of_code (n : nat) : rel_type :=
  match n with 0 => AUTHORED | 1 => HAS_KEYWORD | _ => HAS_IMAGE end.

Global Program Instance rel_type_countable : Countable rel_type :=
  inj_countable' rel_type_code rel_type_of_code _.
Next Obligation. by intros []. Qed.

Record node := {
  n_label : label;
  n_props : gmap string value
}.

(** Nodes are never deleted by the backend: a node is identified by its
    position in [g_nodes], a new node goes to the end. Relationships are
    only ever created by [MERGE], which never adds a second relationship of
    a type between two nodes: they are kept as a set of
    (start, type, end). *)
Record graph := {
  g_nodes : list node;
  g_rels : gset (nat * rel_type * nat)
}.

Definition empty : graph := {| g_nodes := []; g_rels := ∅ |}.

Definition node_ids (g : graph) : list nat := seq 0 (length (g_nodes g)).

Definition node_label (g : graph) (i : nat) : option label :=
  n_label <$> g_nodes g !! i.

(** [n.key] *)
Definition prop (g : graph) (i : nat) (key : string) : option value :=
  g_nodes g !! i ≫= λ n, n_props n !! key.

(** ** Three-valued predicates of [WHERE] *)

(** [a >= b] for an integer parameter [b]: [null] unless [a] is a number. *)
Definition cy_ge (a : option value) (b : Z) : option bool :=
  match a with
  | Some (VInt x) => Some (bool_decide (b ≤ x)%Z)
  | _ => None
  end.

(** [a CONTAINS s] for a string parameter [s]: [null] unless [a] is a
    string. *)
Definition cy_contains (a : option value) (s : string) : option bool :=
  match a with
  | Some (VStr t) => Some (str_in s t)
  | _ => None
  end.

(** [a <> b] for a parameter [b]: [null] when [a] is. *)
Definition cy_neq (a : option value) (b : value) : option bool :=
  match a with
  | Some v => Some (bool_decide (v ≠ b))
  | None => None
  end.

Definition cy_and (a b : option bool) : option bool :=
  match a, b with
  | Some false, _ | _, Some false => Some false
  | Some true, Some true => Some true
  | _, _ => None
  end.

Definition cy_or (a b : option bool) : option bool :=
  match a, b with
  | Some true, _ | _, Some true => Some true
  | Some false, Some false => Some false
  | _, _ => None
  end.

(** [WHERE] keeps the rows on which the predicate is [true]. *)
Definition holds (b : option bool) : Prop := b = Some true.

Global Instance holds_dec b : Decision (holds b).
Proof. unfold holds. apply _. Defined.

(** ** Order of [ORDER BY] (ascending): temporal values, then strings, then
    numbers, [null] last. *)
Definition order_rank (a : option value) : nat :=
  match a with
  | Some (VDateTime _) => 0
  | Some (VStr _) => 1
  | Some (VInt _) => 2
  | None => 3
  end.

Definition order_le (a b : option value) : Prop :=
  match a, b with
  | Some (VDateTime x), Some (VDateTime y) => (x ≤ y)%Z
  | Some (VStr x), Some (VStr y) => String.le x y
  | Some (VInt x), Some (VInt y) => (x ≤ y)%Z
  | _, _ => order_rank a ≤ order_rank b
  end.

Global Instance order_le_dec : RelDecision order_le.
Proof.
  intros [[x|x|x]|] [[y|y|y]|]; unfold order_le, order_rank;
    apply _.
Defined.

(** ** Clauses *)

(** The nodes [(n:l {k1: v1, ...})] matches. *)
Definition node_matches (l : label) (pat : list (string * value)) (n : node)
  : Prop :=
  n_label n = l ∧ Forall (λ kv, n_props n !! kv.1 = Some kv.2) pat.

Global Instance node_matches_dec l pat n : Decision (node_matches l pat n).
Proof. unfold node_matches. apply _. Defined.

Definition matches_at (g : graph) (l : label) (pat : list (string * value))
    (i : nat) : Prop :=
  ∃ n, g_nodes g !! i = Some n ∧ node_matches l pat n.

Global Instance matches_at_dec g l pat i : Decision (matches_at g l pat i).
Proof.
  unfold matches_at. destruct (g_nodes g !! i) as [n|] eqn:E.
  - destruct (decide (node_matches l pat n)) as [H|H].
    + left. eauto.
    + right. intros (n' & [= <-] & ?). done.
  - right. intros (n' & [=] & _).
Defined.

(** [MATCH (n:l {pat})] *)
Definition match_nodes (l : label) (pat : list (string * value)) (g : graph)
  : list nat :=
  filter (matches_at g l pat) (node_ids g).

Definition add_node (n : node) (g : graph) : graph :=
  {| g_nodes := g_nodes g ++ [n]; g_rels := g_rels g |}.

(** [MERGE (n:l {pat})]: the matching nodes, or a new one when there is
    none. *)
Definition merge_node (l : label) (pat : list (string * value)) (g : graph)
  : graph * list nat :=
  match match_nodes l pat g with
  | [] => (add_node {| n_label := l; n_props := list_to_map pat |} g,
           [length (g_nodes g)])
  | ms => (g, ms)
  end.

(** [MERGE (a)-[:t]->(b)] on bound nodes. *)
Definition merge_rel (a : nat) (t : rel_type) (b : nat) (g : graph) : graph :=
  {| g_nodes := g_nodes g; g_rels := {[ (a, t, b) ]} ∪ g_rels g |}.

(** [SET n.key = v]; setting to [null] removes the property. *)
Definition set_prop (i : nat) (key : string) (v : option value) (g : graph)
  : graph :=
  {| g_nodes := alter (λ n, {| n_label := n_label n;
                               n_props := match v with
                                          | Some v => <[key := v]> (n_props n)
                                          | None => delete key (n_props n)
                                          end |}) i (g_nodes g);
     g_rels := g_rels g |}.

Definition set_props (i : nat) (kvs : list (string * option value)) (g : graph)
  : graph :=
  foldl (λ g kv, set_prop i kv.1 kv.2 g) g kvs.

(** A writing clause runs once per row, in order, each run seeing the
    writes of the previous ones, and yields the rows of every run. *)
Fixpoint for_rows {R R'} (step : R → graph → graph * list R')
    (rows : list R) (g : graph) : graph * list R' :=
  match rows with
  | [] => (g, [])
  | r :: rest =>
      let '(g1, out1) := step r g in
      let '(g2, out2) := for_rows step rest g1 in
      (g2, out1 ++ out2)
  end.

(** The same for a clause that can fail: the first failure ends the
    query. *)
Fixpoint try_rows {R R'} (step : R → graph → outcome (graph * list R'))
    (rows : list R) (g : graph) : outcome (graph * list R') :=
  match rows with
  | [] => Ret (g, [])
  | r :: rest =>
      match step r g with
      | Raise e => Raise e
      | Ret (g1, out1) =>
          match try_rows step rest g1 with
          | Raise e => Raise e
          | Ret (g2, out2) => Ret (g2, out1 ++ out2)
          end
      end
  end.

(** [MATCH (a:l)-[:t]->(b)] for a bound [b]. *)
Definition sources_of (g : graph) (l : label) (t : rel_type) (b : nat)
  : list nat :=
  filter (λ a, (a, t, b) ∈ g_rels g ∧ node_label g a = Some l) (node_ids g).

(** [MATCH (a)-[:t]->(b)] for a bound [a] and any label of [b]. *)
Definition targets_of (g : graph) (a : nat) (t : rel_type) : list nat :=
  filter (λ b, (a, t, b) ∈ g_rels g) (node_ids g).

(** [MATCH (a)-[:t]->(b:l)] for a bound [a]. *)
Definition targets_with_label (g : graph) (a : nat) (t : rel_type) (l : label)
  : list nat :=
  filter (λ b, (a, t, b) ∈ g_rels g ∧ node_label g b = Some l) (node_ids g).

(** The distinct elements, in the order of their first occurrence: the
    groups of an aggregation, [collect(DISTINCT ...)]. *)
Fixpoint distinct `{EqDecision A} (l : list A) : list A :=
  match l with
  | [] => []
  | x :: l' => x :: filter (λ y, y ≠ x) (distinct l')
  end.

(** [MERGE (n:l {name: name})] for a row binding [p] and [name]: the row is
    extended with each node found or with the one created. *)
Definition merge_by_name (l : label) (row : nat * string) (g : graph)
  : graph * list (nat * nat) :=
  let '(g', ns) := merge_node l [("name", VStr row.2)] g in
  (g', (λ n, (row.1, n)) <$> ns).

(** [UNWIND $xs AS x] after [WITH p]: one row per pair; none when the list
    is empty. *)
Definition unwind {A} (ps : list nat) (xs : list A) : list (nat * A) :=
  p ← ps; x ← xs; [(p, x)].

(** ** Aggregation of the rows (paper, author, keyword) of the two read
    queries:
    [RETURN p.id, p.title, p.summary, p.year, p.url,
            collect(DISTINCT a.name), collect(DISTINCT k.name)].
    The rows are grouped by the five properties returned. [aggregate] lists
    the groups in the order of their first row; the order in which the
    server hands them out is settled by what follows the aggregation: an
    [ORDER BY], or the server itself ([emitted]). *)
Record record := {
  rec_id : option value;
  rec_title : option value;
  rec_summary : option value;
  rec_year : option value;
  rec_url : option value;
  rec_authors : list value;
  rec_keywords : list value
}.

Definition group_key : Type :=
  option value * option value * option value * option value * option value.

Definition paper_key (g : graph) (p : nat) : group_key :=
  (prop g p "id", prop g p "title", prop g p "summary", prop g p "year",
   prop g p "url").

Definition row_p (r : nat * nat * nat) : nat := r.1.1.
Definition row_a (r : nat * nat * nat) : nat := r.1.2.
Definition row_k (r : nat * nat * nat) : nat := r.2.

Definition group_rows (g : graph) (rows : list (nat * nat * nat))
    (key : group_key) : list (nat * nat * nat) :=
  filter (λ r, paper_key g (row_p r) = key) rows.

Definition record_of_group (g : graph) (rows : list (nat * nat * nat))
    (key : group_key) : record :=
  let '(i, t, s, y, u) := key in
  {| rec_id := i; rec_title := t; rec_summary := s; rec_year := y;
     rec_url := u;
     rec_authors :=
       distinct (omap (λ r, prop g (row_a r) "name") (group_rows g rows key));
     rec_keywords :=
       distinct (omap (λ r, prop g (row_k r) "name") (group_rows g rows key))
  |}.

Definition aggregate (g : graph) (rows : list (nat * nat * nat))
  : list record :=
  record_of_group g rows <$> distinct (paper_key g ∘ row_p <$> rows).

(** A [RETURN] that aggregates and that no [ORDER BY] follows: the server
    emits the groups in an order of its own, whatever the order of the rows
    that went in. The order is given by the rank the server gives each
    group: groups come out by ascending rank. *)
Definition by_rank (rank : record → nat) (r1 r2 : record) : Prop :=
  rank r1 ≤ rank r2.

Global Instance by_rank_dec rank : RelDecision (by_rank rank).
Proof. intros r1 r2. unfold by_rank. apply _. Defined.

Definition emitted (rank : record → nat) (groups : list record) : list record :=
  merge_sort (by_rank rank) groups.

(** [LIMIT $n]: a negative parameter is refused by the server. *)
Definition limit_rows {A} (n : Z) (rows : list A) : outcome (list A) :=
  if decide (n < 0)%Z
  then Raise (LibraryError "ClientError"
                "Invalid input. Must be a non-negative integer.")
  else Ret (take (Z.to_nat n) rows).

End Cypher.

(* ===================================================================== *)
(** * The Neo4j driver: sessions, managed transactions, failures *)
(* ===================================================================== *)

Module Driver.
Import Cypher.

(** The points at which the connection to the server can fail. *)
Inductive driver_call :=
| OpenSession
| BeginTransaction
| RunQuery
| Commit
| CloseSession.

(** The server as seen through one operation: which calls fail and with
    what, the time [datetime()] reads, and the rank that orders the groups
    of an aggregation no [ORDER BY] follows. *)
Record server := {
  fault : driver_call → option exn;
  clock : Z;
  group_rank : record → nat
}.

Inductive log_line :=
| ERROR (msg : string).

(** The database and the log of the process. *)
Record db := {
  graph_of : graph;
  log_of : list log_line
}.

Definition log (l : log_line) : M db unit :=
  modify (λ s, {| graph_of := graph_of s; log_of := log_of s ++ [l] |}).

Section Session.
Variable srv : server.

Definition reach (c : driver_call) : M db unit :=
  λ s, match fault srv c with
       | Some e => (Raise e, s)
       | None => (Ret tt, s)
       end.

(** [with self.driver.session() as session: body] *)
Definition with_session {A} (body : M db A) : M db A :=
  reach OpenSession;;
  try_finally body (reach CloseSession).

(** [session.execute_write(work, ...)] and [session.execute_read]: a
    managed transaction, committed when [work] returns and rolled back
    when it raises. *)
Definition execute {A} (work : M db A) : M db A :=
  λ s, match fault srv BeginTransaction with
       | Some e => (Raise e, s)
       | None =>
           match work s with
           | (Ret a, s') =>
               match fault srv Commit with
               | Some e => (Raise e, {| graph_of := graph_of s;
                                        log_of := log_of s' |})
               | None => (Ret a, s')
               end
           | (Raise e, s') => (Raise e, {| graph_of := graph_of s;
                                           log_of := log_of s' |})
           end
       end.

(** [tx.run(query, ...)] for a query whose meaning is [q]: a query that
    fails leaves the graph as it was. *)
Definition run {A} (q : graph → outcome (graph * A)) : M db A :=
  λ s, match fault srv RunQuery with
       | Some e => (Raise e, s)
       | None =>
           match q (graph_of s) with
           | Ret (g', a) => (Ret a, {| graph_of := g'; log_of := log_of s |})
           | Raise e => (Raise e, s)
           end
       end.

End Session.

(** A server on which nothing fails, and that emits the groups of an
    aggregation in the order of their first rows. *)
Definition healthy (now : Z) : server :=
  {| fault := λ _, None; clock := now; group_rank := λ _, 0 |}.

End Driver.

(* ===================================================================== *)
(** * agents/db_agent.py *)
(* ===================================================================== *)

Module DBAgent.
Import Cypher Driver.

(** The dataclass [Paper], as its callers build it. *)
Record Paper := {
  id : string;
  title : string;
  authors : list string;
  summary : string;
  year : Z;
  url : string;
  keywords : option (list string)
}.

(** [ORDER BY p.year DESC] on the records returned. *)
Definition by_year_desc (r1 r2 : record) : Prop :=
  order_le (rec_year r2) (rec_year r1).

Global Instance by_year_desc_dec : RelDecision by_year_desc.
Proof. intros r1 r2. unfold by_year_desc. apply _. Defined.

(** [ORDER BY common_keywords DESC] on the rows (related, common_keywords). *)
Definition by_count_desc (r1 r2 : nat * nat) : Prop := r2.2 ≤ r1.2.

Global Instance by_count_desc_dec : RelDecision by_count_desc.
Proof. intros r1 r2. unfold by_count_desc. apply _. Defined.

(** The query of [_create_paper_tx], clause by clause. It yields the rows
    of [RETURN p]. *)
Definition create_paper_query
    (id title summary : string) (year : Z) (url : string)
    (authors keywords : list string) (now : Z) (g : graph)
  : graph * list nat :=
  (* MERGE (p:Paper {id: $id}) *)
  let '(g, ps) := merge_node Label.Paper [("id", VStr id)] g in
  (* SET p.title = $title, p.summary = $summary, p.year = $year,
         p.url = $url, p.updated_at = datetime() *)
  let '(g, ps) :=
    for_rows (λ p g, (set_props p [("title", Some (VStr title));
                                   ("summary", Some (VStr summary));
                                   ("year", Some (VInt year));
                                   ("url", Some (VStr url));
                                   ("updated_at", Some (VDateTime now))] g,
                      [p])) ps g in
  (* WITH p UNWIND $authors as author *)
  let rows := unwind ps authors in
  (* MERGE (a:Author {name: author}) *)
  let '(g, rows) := for_rows (merge_by_name Label.Author) rows g in
  (* MERGE (a)-[:AUTHORED]->(p) *)
  let '(g, rows) :=
    for_rows (λ '(p, a) g, (merge_rel a AUTHORED p g, [(p, a)])) rows g in
  (* WITH p UNWIND $keywords as keyword *)
  let rows := unwind rows.*1 keywords in
  (* MERGE (k:Keyword {name: keyword}) *)
  let '(g, rows) := for_rows (merge_by_name Label.Keyword) rows g in
  (* MERGE (p)-[:HAS_KEYWORD]->(k) *)
  let '(g, rows) :=
    for_rows (λ '(p, k) g, (merge_rel p HAS_KEYWORD k g, [(p, k)])) rows g in
  (* RETURN p *)
  (g, rows.*1).

(** The query of [_query_papers_tx]. *)
Definition query_papers_query (topic : string) (start_year limit : Z)
    (g : graph) : outcome (list record) :=
  (* MATCH (p:Paper)
     WHERE p.year >= $start_year
     AND (p.title CONTAINS $topic OR p.summary CONTAINS $topic) *)
  let ps :=
    filter (λ p, holds (cy_and (cy_ge (prop g p "year") start_year)
                          (cy_or (cy_contains (prop g p "title") topic)
                                 (cy_contains (prop g p "summary") topic))))
      (match_nodes Label.Paper [] g) in
  (* MATCH (a:Author)-[:AUTHORED]->(p) *)
  let rows := p ← ps; a ← sources_of g Label.Author AUTHORED p; [(p, a)] in
  (* MATCH (p)-[:HAS_KEYWORD]->(k) *)
  let rows := r ← rows; k ← targets_of g r.1 HAS_KEYWORD; [(r.1, r.2, k)] in
  (* RETURN p.id as id, ..., collect(DISTINCT a.name) as authors,
            collect(DISTINCT k.name) as keywords *)
  let records := aggregate g rows in
  (* ORDER BY p.year DESC *)
  let records :=
    merge_sort by_year_desc records in
  (* LIMIT $limit *)
  limit_rows limit records.

(** The rows of
    [MATCH (p:Paper {id: $paper_id})
     MATCH (p)-[:HAS_KEYWORD]->(k:Keyword)<-[:HAS_KEYWORD]-(related:Paper)
     WHERE related.id <> $paper_id]:
    the two relationships of one pattern are distinct, so [related] is not
    [p]. Each row is (p, k, related). *)
Definition related_rows (paper_id : string) (g : graph)
  : list (nat * nat * nat) :=
  p ← match_nodes Label.Paper [("id", VStr paper_id)] g;
  k ← targets_with_label g p HAS_KEYWORD Label.Keyword;
  related ← filter (λ r, r ≠ p ∧ holds (cy_neq (prop g r "id") (VStr paper_id)))
              (sources_of g Label.Paper HAS_KEYWORD k);
  [(p, k, related)].

(** [WITH related, count(k) as common_keywords]: one row per [related], in
    the order of first occurrence, with the number of its rows. *)
Definition count_common (rows : list (nat * nat * nat)) : list (nat * nat) :=
  (λ related, (related, length (filter (λ r, r.2 = related) rows)))
  <$> distinct (rows.*2).

(** The query of [_get_related_papers_tx]. Its [ORDER BY] sorts the rows of
    the [WITH]; two [MATCH]es and an aggregating [RETURN] follow, and no
    [ORDER BY] after them: the records come in the order of the server. *)
Definition related_papers_query (rank : record → nat)
    (paper_id : string) (limit : Z) (g : graph)
  : outcome (list record) :=
  let rows := related_rows paper_id g in
  (* WITH related, count(k) as common_keywords *)
  let counted := count_common rows in
  (* ORDER BY common_keywords DESC *)
  let counted := merge_sort by_count_desc counted in
  (* LIMIT $limit *)
  counted ← limit_rows limit counted;
  (* MATCH (a:Author)-[:AUTHORED]->(related) *)
  let rows := r ← counted; a ← sources_of g Label.Author AUTHORED r.1; [(r.1, a)] in
  (* MATCH (related)-[:HAS_KEYWORD]->(k) *)
  let rows := r ← rows; k ← targets_of g r.1 HAS_KEYWORD; [(r.1, r.2, k)] in
  (* RETURN related.id as id, ..., collect(DISTINCT a.name) as authors,
            collect(DISTINCT k.name) as keywords *)
  Ret (emitted rank (aggregate g rows)).

Section Agent.
Variable srv : server.

Definition _create_paper_tx (paper : Paper) : M db bool :=
  rows ← run srv (λ g,
    Ret (create_paper_query (id paper) (title paper) (summary paper)
           (year paper) (url paper) (authors paper)
           (default [] (keywords paper)) (clock srv) g));
  (* result.single() is not None *)
  mret (bool_decide (rows ≠ [])).

Definition store_paper (paper : Paper) : M db bool :=
  try_except
    (with_session srv (execute srv (_create_paper_tx paper)))
    (λ e,
       log (ERROR ("Error storing paper " +:+ id paper +:+ ": " +:+ str e));;
       mret false).

(** The [Paper] objects are built from the records field by field; the
    dataclass does not check them, so a record stands for its [Paper]. *)
Definition _query_papers_tx (topic : string) (start_year limit : Z)
  : M db (list record) :=
  run srv (λ g, pair g <$> query_papers_query topic start_year limit g).

Definition query_papers (topic : string) (start_year limit : Z)
  : M db (list record) :=
  try_except
    (with_session srv (execute srv (_query_papers_tx topic start_year limit)))
    (λ e,
       log (ERROR ("Error querying papers: " +:+ str e));;
       mret []).

Definition _get_related_papers_tx (paper_id : string) (limit : Z)
  : M db (list record) :=
  run srv (λ g, pair g <$> related_papers_query (group_rank srv) paper_id
                             limit g).

Definition get_related_papers (paper_id : string) (limit : Z)
  : M db (list record) :=
  try_except
    (with_session srv (execute srv (_get_related_papers_tx paper_id limit)))
    (λ e,
       log (ERROR ("Error finding related papers: " +:+ str e));;
       mret []).

End Agent.

End DBAgent.

(* ===================================================================== *)
(** * database/neo4j_handler.py *)
(* ===================================================================== *)

Module Neo4jHandler.
Import Schemas Cypher Driver.

Definition to_value (v : pyval) : value :=
  match v with
  | PStr s => VStr s
  | PInt z => VInt z
  end.

(** [{page: image.page, index: image.index, type: image.type}]: a key the
    image lacks reads as [null], which [MERGE] refuses. *)
Definition image_pattern (image : gmap string pyval)
  : outcome (list (string * value)) :=
  match image !! "page", image !! "index", image !! "type" with
  | Some pg, Some ix, Some ty =>
      Ret [("page", to_value pg); ("index", to_value ix); ("type", to_value ty)]
  | _, _, _ =>
      Raise (LibraryError "ClientError"
               "Cannot merge node because of null property value")
  end.

(** The query of [_create_paper_tx], clause by clause. *)
Definition create_paper_query
    (id title abstract : string) (year : Z) (url : string)
    (full_text : option string) (authors keywords : list string)
    (images : option (list (gmap string pyval))) (now : Z) (g : graph)
  : outcome (graph * list nat) :=
  (* MERGE (p:Paper {id: $id}) *)
  let '(g, ps) := merge_node Label.Paper [("id", VStr id)] g in
  (* SET p.title = $title, p.abstract = $abstract, p.year = $year,
         p.url = $url, p.full_text = $full_text, p.updated_at = datetime() *)
  let '(g, ps) :=
    for_rows (λ p g, (set_props p [("title", Some (VStr title));
                                   ("abstract", Some (VStr abstract));
                                   ("year", Some (VInt year));
                                   ("url", Some (VStr url));
                                   ("full_text", VStr <$> full_text);
                                   ("updated_at", Some (VDateTime now))] g,
                      [p])) ps g in
  (* WITH p UNWIND $authors as author *)
  let rows := unwind ps authors in
  (* MERGE (a:Author {name: author}) *)
  let '(g, rows) := for_rows (merge_by_name Label.Author) rows g in
  (* MERGE (a)-[:AUTHORED]->(p) *)
  let '(g, rows) :=
    for_rows (λ '(p, a) g, (merge_rel a AUTHORED p g, [(p, a)])) rows g in
  (* WITH p UNWIND $keywords as keyword *)
  let rows := unwind rows.*1 keywords in
  (* MERGE (k:Keyword {name: keyword}) *)
  let '(g, rows) := for_rows (merge_by_name Label.Keyword) rows g in
  (* MERGE (p)-[:HAS_KEYWORD]->(k) *)
  let '(g, rows) :=
    for_rows (λ '(p, k) g, (merge_rel p HAS_KEYWORD k g, [(p, k)])) rows g in
  (* WITH p UNWIND $images as image: no row for [null] *)
  let rows := unwind rows.*1 (default [] images) in
  (* MERGE (i:Image {page: image.page, index: image.index, type: image.type}) *)
  match try_rows (λ '(p, image) g,
                    match image_pattern image with
                    | Raise e => Raise e
                    | Ret pat =>
                        let '(g', found) := merge_node Label.Image pat g in
                        Ret (g', (λ i, (p, i)) <$> found)
                    end) rows g with
  | Raise e => Raise e
  | Ret (g, rows) =>
      (* MERGE (p)-[:HAS_IMAGE]->(i) *)
      let '(g, rows) :=
        for_rows (λ '(p, i) g, (merge_rel p HAS_IMAGE i g, [(p, i)])) rows g in
      (* RETURN p *)
      Ret (g, rows.*1)
  end.

(** The dict [get_paper_by_id] returns. *)
Record paper_dict := {
  pd_id : option value;
  pd_title : option value;
  pd_images : list nat
}.

(** The dict [_sync_get_paper_by_id] returns. *)
Record paper_record := {
  pr_id : value;
  pr_title : value;
  pr_abstract : value;
  pr_year : value;
  pr_url : value;
  pr_full_text : option value;
  pr_authors : list value;
  pr_keywords : list value;
  pr_images : list (gmap string value)
}.

(** [MATCH (p:Paper {id: $id})
     OPTIONAL MATCH (p)<-[:AUTHORED]-(a:Author)
     OPTIONAL MATCH (p)-[:HAS_KEYWORD]->(k:Keyword)
     OPTIONAL MATCH (p)-[:HAS_IMAGE]->(i:Image)
     RETURN p, collect(DISTINCT a.name) as authors,
            collect(DISTINCT k.name) as keywords,
            collect(DISTINCT i) as images]:
    one record per node [p]; an [OPTIONAL MATCH] that finds nothing binds
    [null], which [collect] leaves out. *)
Definition get_full_paper_query (id : string) (g : graph)
  : list (nat * list value * list value * list nat) :=
  (λ p, (p,
         distinct (omap (λ a, prop g a "name")
                     (sources_of g Label.Author AUTHORED p)),
         distinct (omap (λ k, prop g k "name")
                     (targets_with_label g p HAS_KEYWORD Label.Keyword)),
         distinct (targets_with_label g p HAS_IMAGE Label.Image)))
  <$> match_nodes Label.Paper [("id", VStr id)] g.

(** [paper[key]] on a node: a missing property is a [KeyError], whose
    [str()] is the key between quotes. *)
Definition getitem {S} (g : graph) (p : nat) (key : string) : M S value :=
  match prop g p key with
  | Some v => mret v
  | None => raise (LibraryError "KeyError" ("'" +:+ key +:+ "'"))
  end.

Section Handler.
Variable srv : server.

Definition _create_paper_tx (paper : Paper) : M db bool :=
  try_except
    (rows ← run srv
       (create_paper_query (id paper) (title paper) (abstract paper)
          (year paper) (url paper) (full_text paper) (authors paper)
          (* getattr(paper, 'keywords', []): [Paper] has no such field *)
          []
          (images paper) (clock srv));
     mret (bool_decide (rows ≠ [])))
    (λ e,
       log (ERROR ("Transaction error for paper " +:+ id paper +:+ ": "
                   +:+ str e));;
       mret false).

Definition _sync_store_paper (paper : Paper) : M db bool :=
  with_session srv (execute srv (_create_paper_tx paper)).

Definition store_paper (paper : Paper) : M db bool :=
  try_except
    (_sync_store_paper paper)
    (λ e,
       log (ERROR ("Error storing paper " +:+ id paper +:+ ": " +:+ str e));;
       mret false).

(** [async with self.driver.session() as session: body] on the driver of
    [_connect], which is the synchronous one: the session is opened, and
    its class has no [__aenter__], so the statement raises [TypeError]
    before [body] is entered. *)
Definition async_with_session {A} (body : M db A) : M db A :=
  reach srv OpenSession;;
  raise (LibraryError "TypeError"
           "'Session' object does not support the asynchronous context manager protocol").

(** The [try] is inside the [async with]: what the [async with] raises is
    outside of it. *)
Definition get_paper_by_id (paper_id : string) : M db (option paper_dict) :=
  async_with_session
    (try_except
       ((* result = await session.execute_run(query, id=paper_id): a session
           has no attribute of that name *)
        raise (LibraryError "AttributeError"
                 "'Session' object has no attribute 'execute_run'"))
       (λ e,
          log (ERROR ("Error fetching paper by id " +:+ paper_id +:+ ": "
                      +:+ str e));;
          mret None)).

(** No [try] here: whatever the driver or a missing property raises
    reaches the caller. *)
Definition _sync_get_paper_by_id (paper_id : string)
  : M db (option paper_record) :=
  with_session srv
    (rows ← run srv (λ g, Ret (g, get_full_paper_query paper_id g));
     s ← get_state;
     let g := graph_of s in
     match rows with
     | (p, authors, keywords, images) :: _ =>
         id ← getitem g p "id";
         title ← getitem g p "title";
         abstract ← getitem g p "abstract";
         year ← getitem g p "year";
         url ← getitem g p "url";
         mret (Some {| pr_id := id;
                       pr_title := title;
                       pr_abstract := abstract;
                       pr_year := year;
                       pr_url := url;
                       pr_full_text := prop g p "full_text";
                       pr_authors := authors;
                       pr_keywords := keywords;
                       pr_images := omap (λ i, n_props <$> g_nodes g !! i)
                                      images |})
     | [] => mret None
     end).

End Handler.

End Neo4jHandler.

(* ===================================================================== *)
(** * agents/future_works_agent.py *)
(* ===================================================================== *)

Module FutureWorks.
Import Schemas.

Record engines := {
  tokenizer_encode : string → outcome (list Z);
  model_generate : list Z → outcome (list (list Z));
  tokenizer_decode : list Z → outcome string;
  (** [loop.run_in_executor]: handing the work to the pool can fail *)
  run_in_executor : outcome unit
}.

(** What is logged, in order. *)
Definition log := list string.
Definition error (msg : string) : M log unit := modify (λ l, l ++ [msg]).

Record plan := {
  improvement_plan : string;
  findings : list string;
  metrics : gmap string float
}.

Definition marker : string := "Summary of the work presented:".

Section Agent.
Variable eng : engines.

Definition create_prompt (papers : list Paper) : string :=
  let papers_text :=
    join (nl +:+ nl)
      ((λ p, "Title: " +:+ title p +:+ nl +:+ "Year: " +:+ pretty (year p)
             +:+ nl +:+ "Abstract: " +:+ abstract p) <$> papers) in
  "Using the key findings from the following papers:" +:+ nl +:+ nl
  +:+ papers_text +:+ nl +:+ nl
  +:+ "Generate an improvement plan that includes novel contributions and suggestions for new research directions. "
  +:+ "Structure it as a cohesive plan." +:+ nl +:+ nl
  +:+ "Summary of the work presented:" +:+ nl.

Definition llm_generate (prompt : string) : M log string :=
  try_except
    (input_ids ← call (tokenizer_encode eng prompt);
     output_ids ← call (model_generate eng input_ids);
     output0 ← match output_ids with
               | o :: _ => mret o
               | [] => raise (LibraryError "IndexError" "index 0 is out of bounds")
               end;
     improvement_plan ← call (tokenizer_decode eng output0);
     (* summary_start = improvement_plan.find(marker) *)
     match String.index 0 marker improvement_plan with
     | Some summary_start =>
         mret (strip (slice_from (summary_start + String.length marker)
                        improvement_plan))
     | None => mret improvement_plan
     end)
    (λ e,
       error ("Synchronous LLM generation error: " +:+ str e);;
       mret "Failed to generate improvement plan.").

Definition llm_generate_async (prompt : string) : M log string :=
  try_except
    (call (run_in_executor eng);;
     llm_generate prompt)
    (λ e,
       error ("LLM generation error: " +:+ str e);;
       mret "Failed to generate improvement plan.").

(** A placeholder in the source: the plan is not read. *)
Definition analyze_improvement_plan (plan : string)
  : list string * gmap string float :=
  let findings :=
    ["Finding 1: Enhanced methodology improves accuracy by 15%.";
     "Finding 2: Incorporating X technique reduces computational overhead."] in
  let metrics : gmap string float :=
    <["accuracy_improvement" := 0.15%float]>
      (<["computational_efficiency_gain" := 0.20%float]> ∅) in
  (findings, metrics).

Definition create_improvement_plan (papers : list Paper) : M log plan :=
  try_except
    (let prompt := create_prompt papers in
     improvement_plan ← llm_generate_async prompt;
     let '(findings, metrics) := analyze_improvement_plan improvement_plan in
     mret {| improvement_plan := improvement_plan;
             findings := findings;
             metrics := metrics |})
    (λ e,
       error ("Review generation error: " +:+ str e);;
       raise e).

End Agent.

End FutureWorks.

(* ===================================================================== *)
(** * main.py: the [/review] endpoint *)
(* ===================================================================== *)

Module ApiReview.
Import Schemas FutureWorks.

(** The JSON body of a successful [/review]. *)
Record review_body := {
  review : string;
  body_findings : list string;
  body_metrics : gmap string float
}.

Definition review_papers (eng : engines) (request : ReviewRequest)
  : M log review_body :=
  try_except
    ((if negb (truthy_list (review_paper request))
      then raise (HTTPException 422 "paper_ids are required for review")
      else mret tt);;
     let papers := review_paper request in
     (if negb (truthy_list papers)
      then raise (HTTPException 422
                    "No valid papers found for the provided paper_ids")
      else mret tt);;
     review_data ← create_improvement_plan eng papers;
     mret {| review := improvement_plan review_data;
             body_findings := findings review_data;
             body_metrics := metrics review_data |})
    (λ e,
       match e with
       | HTTPException code detail =>
           error ("Review endpoint error: " +:+ detail);;
           raise (HTTPException code detail)
       | _ =>
           error ("Review endpoint error: " +:+ str e);;
           raise (HTTPException 500 (str e))
       end).

End ApiReview.

(* ===================================================================== *)
(** * Fixtures: engines, papers and servers used in the examples *)
(* ===================================================================== *)

Module Fixtures.
Import Schemas.

(** Engines that answer every call. *)
Definition answering : QA.engines :=
  {| QA.qa_pipeline := λ _ _, Ret {| QA.score := Some 0.5%float |};
     QA.tokenizer_encode := λ _, Ret [1; 2; 3]%Z;
     QA.llm_generate := λ ids, Ret [ids ++ [4]%Z];
     QA.tokenizer_decode := λ _,
       Ret ("Question: What is new?" +:+ nl +:+ "Answer: a bound.");
     QA.rank_contexts_engine := λ cs _, Ret cs |}.

(** Engines whose language model is out of memory. *)
Definition out_of_memory : QA.engines :=
  {| QA.qa_pipeline := λ _ _, Ret {| QA.score := Some 0.5%float |};
     QA.tokenizer_encode := λ _, Ret [1; 2; 3]%Z;
     QA.llm_generate := λ _, Raise (LibraryError "RuntimeError" "CUDA out of memory");
     QA.tokenizer_decode := λ _, Ret "";
     QA.rank_contexts_engine := λ cs _, Ret cs |}.

(** A paper with both an abstract and an extracted full text. *)
Definition extracted : Paper :=
  {| id := "2401.00001"; title := "Bounds"; authors := ["A. Author"];
     abstract := "We prove a bound."; year := 2024; url := "http://x/1.pdf";
     has_full_text := true; has_images := false;
     full_text := Some "Section 1. Introduction. Section 2. The bound.";
     images := None |}.

(** A paper whose PDF could not be read. *)
Definition abstract_only : Paper :=
  {| id := "2401.00002"; title := "Graphs"; authors := ["B. Author"];
     abstract := "We study graphs."; year := 2023; url := "http://x/2.pdf";
     has_full_text := false; has_images := false;
     full_text := None; images := None |}.

(** A driver that was closed: it hands out no session. *)
Definition closed : Driver.server :=
  {| Driver.fault := λ c,
       match c with
       | Driver.OpenSession => Some (LibraryError "DriverError" "Driver closed")
       | _ => None
       end;
     Driver.clock := 0;
     Driver.group_rank := λ _, 0 |}.

(** A server on which nothing fails, and that emits the record of the paper
    "2401.00002" before the other groups of an aggregation. *)
Definition regrouping : Driver.server :=
  {| Driver.fault := λ _, None;
     Driver.clock := 0;
     Driver.group_rank := λ r,
       if decide (Cypher.rec_id r = Some (Cypher.VStr "2401.00002"))
       then 0 else 1 |}.

Definition fresh : Driver.db :=
  {| Driver.graph_of := Cypher.empty; Driver.log_of := [] |}.

(** Three papers as [DBAgent] stores them. *)
Definition quantum_a : DBAgent.Paper :=
  {| DBAgent.id := "2401.00001"; DBAgent.title := "Quantum walks";
     DBAgent.authors := ["Ann"; "Bob"]; DBAgent.summary := "On walks.";
     DBAgent.year := 2021; DBAgent.url := "http://x/1.pdf";
     DBAgent.keywords := Some ["quantum"; "graphs"] |}.

(** The first paper again, under a new title. *)
Definition quantum_a_revised : DBAgent.Paper :=
  {| DBAgent.id := "2401.00001"; DBAgent.title := "Quantum walks, revised";
     DBAgent.authors := ["Ann"; "Bob"]; DBAgent.summary := "On walks.";
     DBAgent.year := 2021; DBAgent.url := "http://x/1.pdf";
     DBAgent.keywords := Some ["quantum"; "graphs"] |}.

Definition quantum_b : DBAgent.Paper :=
  {| DBAgent.id := "2401.00002"; DBAgent.title := "Annealing";
     DBAgent.authors := ["Ann"]; DBAgent.summary := "Quantum annealing.";
     DBAgent.year := 2023; DBAgent.url := "http://x/2.pdf";
     DBAgent.keywords := Some ["quantum"] |}.

Definition classical : DBAgent.Paper :=
  {| DBAgent.id := "2401.00003"; DBAgent.title := "Random graphs";
     DBAgent.authors := ["Cy"]; DBAgent.summary := "Thresholds.";
     DBAgent.year := 2019; DBAgent.url := "http://x/3.pdf";
     DBAgent.keywords := Some ["quantum"; "graphs"; "random"] |}.

(** The database after the three papers were stored. *)
Definition library : Driver.db :=
  state_of (DBAgent.store_paper (Driver.healthy 0) classical
    (state_of (DBAgent.store_paper (Driver.healthy 0) quantum_b
      (state_of (DBAgent.store_paper (Driver.healthy 0) quantum_a fresh))))).

(** What the search for "Quantum" since 2020 finds in it. *)
Definition quantum_since_2020 : list Cypher.record :=
  match result_of (DBAgent._query_papers_tx (Driver.healthy 0) "Quantum" 2020 10
                     library) with
  | Ret records => records
  | Raise _ => []
  end.

(** The papers related to the first one. *)
Definition related_to_quantum_a : list Cypher.record :=
  match result_of (DBAgent._get_related_papers_tx (Driver.healthy 0)
                     "2401.00001" 5 library) with
  | Ret records => records
  | Raise _ => []
  end.

(** Engines whose ranker fails. *)
Definition failing_ranker : QA.engines :=
  {| QA.qa_pipeline := λ _ _, Ret {| QA.score := Some 0.5%float |};
     QA.tokenizer_encode := λ _, Ret [1; 2; 3]%Z;
     QA.llm_generate := λ ids, Ret [ids ++ [4]%Z];
     QA.tokenizer_decode := λ _, Ret "Question: What is new?";
     QA.rank_contexts_engine := λ _ _,
       Raise (LibraryError "RuntimeError" "encoder not loaded") |}.

(** A paper whose text was extracted but whose abstract is empty. *)
Definition no_abstract : Paper :=
  {| id := "2401.00003"; title := "Untitled"; authors := [];
     abstract := ""; year := 2024; url := "http://x/3.pdf";
     has_full_text := true; has_images := false;
     full_text := Some "Section 1. Everything is here.";
     images := None |}.

(** A language model that repeats its prompt before it goes on. *)
Definition echoing : FutureWorks.engines :=
  {| FutureWorks.tokenizer_encode := λ _, Ret [1; 2]%Z;
     FutureWorks.model_generate := λ ids, Ret [ids ++ [3]%Z];
     FutureWorks.tokenizer_decode := λ _,
       Ret ("Summary of the work presented:" +:+ nl
            +:+ "  Combine both bounds.  ");
     FutureWorks.run_in_executor := Ret tt |}.

(** A tokenizer that was not loaded. *)
Definition no_tokenizer : FutureWorks.engines :=
  {| FutureWorks.tokenizer_encode := λ _,
       Raise (LibraryError "OSError" "tokenizer not found");
     FutureWorks.model_generate := λ ids, Ret [ids];
     FutureWorks.tokenizer_decode := λ _, Ret "";
     FutureWorks.run_in_executor := Ret tt |}.

(** A paper as [DBAgent] stores it, without keywords. *)
Definition untagged : DBAgent.Paper :=
  {| DBAgent.id := "2401.00004"; DBAgent.title := "Notes";
     DBAgent.authors := ["Dee"]; DBAgent.summary := "Remarks.";
     DBAgent.year := 2022; DBAgent.url := "http://x/4.pdf";
     DBAgent.keywords := None |}.

(** A server whose transactions cannot be committed. *)
Definition no_commit : Driver.server :=
  {| Driver.fault := λ c,
       match c with
       | Driver.Commit => Some (LibraryError "ServiceUnavailable" "connection lost")
       | _ => None
       end;
     Driver.clock := 0;
     Driver.group_rank := λ _, 0 |}.

End Fixtures.

(* ===================================================================== *)
(** * The vocabulary of the statements *)
(* ===================================================================== *)

Module Statements.
Import Cypher QA.

(** ** The QA agent *)

(** The statement of claim C1 for one call: every prompt handed to the
    tokenizer, and from there to the language model, includes the context. *)
Definition prompt_includes_context (eng : engines) (q ctx : string) : Prop :=
  ∀ p, TokenizerEncode p ∈ state_of (_generate_answer eng q ctx [])
       → str_in ctx p = true.

(** The source built from a context by the [_format_response] in force. *)
Definition source_of (c : context) : source :=
  {| src_paper_id := paper_id c; src_title := ctx_title c;
     src_year := ctx_year c;
     excerpt := slice_to 200 (ctx_text c) +:+ "...";
     src_context := None |}.

(** ** The store *)

(** The Paper nodes whose [id] is [pid]. *)
Definition papers_with_id (g : graph) (pid : string) : list nat :=
  match_nodes Label.Paper [("id", VStr pid)] g.

(** The graph [g'] is [g] with more nodes, none of them a paper. *)
Definition keeps_papers (g g' : graph) : Prop :=
  ∃ extra, g_nodes g' = g_nodes g ++ extra
           ∧ Forall (λ n, n_label n ≠ Label.Paper) extra.

(** The value a list of assignments leaves in [key], starting from [d]. *)
Fixpoint assigned (key : string) (kvs : list (string * option value))
    (d : option value) : option value :=
  match kvs with
  | [] => d
  | kv :: kvs => assigned key kvs (if decide (kv.1 = key) then kv.2 else d)
  end.

(** No two Paper nodes carry the same id. *)
Definition unique_paper_ids (g : graph) : Prop :=
  NoDup (omap (λ p, if decide (node_label g p = Some Label.Paper)
                    then prop g p "id" else None) (node_ids g)).

Global Instance unique_paper_ids_dec g : Decision (unique_paper_ids g).
Proof. unfold unique_paper_ids. apply _. Defined.

(** ** The search *)

(** [needle] occurs in [hay]. *)
Definition occurs_in (needle hay : string) : Prop :=
  ∃ pre post, hay = pre +:+ needle +:+ post.

(** The five properties a record was grouped by. *)
Definition key_of (r : record) : group_key :=
  (rec_id r, rec_title r, rec_summary r, rec_year r, rec_url r).

(** A row of the join of a paper with an author and a keyword of its. *)
Definition joined (g : graph) (key : group_key) (p a k : nat) : Prop :=
  node_label g p = Some Label.Paper
  ∧ paper_key g p = key
  ∧ (a, AUTHORED, p) ∈ g_rels g
  ∧ node_label g a = Some Label.Author
  ∧ (p, HAS_KEYWORD, k) ∈ g_rels g
  ∧ k < length (g_nodes g).

(** A record carries the names of the authors and of the keywords of the
    papers it stands for, each name once. *)
Definition joined_with_names (g : graph) (r : record) : Prop :=
  NoDup (rec_authors r) ∧ NoDup (rec_keywords r)
  ∧ (∀ v, v ∈ rec_authors r
          ↔ ∃ p a k, joined g (key_of r) p a k ∧ prop g a "name" = Some v)
  ∧ (∀ v, v ∈ rec_keywords r
          ↔ ∃ p a k, joined g (key_of r) p a k ∧ prop g k "name" = Some v).

(** What the search promises of a record: a year that is a number not below
    the threshold, and the topic inside the title or inside the summary. *)
Definition matches_search (topic : string) (start_year : Z) (r : record) : Prop :=
  ∃ y, rec_year r = Some (VInt y) ∧ (start_year ≤ y)%Z
       ∧ ((∃ t, rec_title r = Some (VStr t) ∧ occurs_in topic t)
          ∨ (∃ t, rec_summary r = Some (VStr t) ∧ occurs_in topic t)).

Definition newest_first (r1 r2 : record) : Prop :=
  ∃ y1 y2, rec_year r1 = Some (VInt y1) ∧ rec_year r2 = Some (VInt y2)
           ∧ (y2 ≤ y1)%Z.

(** ** Related papers *)

(** The papers whose [id] property reads [idv]. *)
Definition papers_with (g : graph) (idv : option value) : list nat :=
  filter (λ p, node_label g p = Some Label.Paper ∧ prop g p "id" = idv)
    (node_ids g).

(** A paper with that id has the keyword node [k]. *)
Definition has_keyword (g : graph) (idv : option value) (k : nat) : Prop :=
  Exists (λ p, (p, HAS_KEYWORD, k) ∈ g_rels g) (papers_with g idv).

(** The ranking as the specification words it: the number of Keyword nodes
    the papers with the two ids share. It is written without the rows of the
    query, to be compared with the [count(k)] the query computes. *)
Definition shared_keywords (g : graph) (id1 id2 : option value) : nat :=
  length (filter (λ k, node_label g k = Some Label.Keyword
                       ∧ has_keyword g id1 k ∧ has_keyword g id2 k)
            (node_ids g)).

Definition most_shared_first (g : graph) (paper_id : string) (r1 r2 : record)
  : Prop :=
  shared_keywords g (Some (VStr paper_id)) (rec_id r2)
  ≤ shared_keywords g (Some (VStr paper_id)) (rec_id r1).

(** The papers [related] ranges over in the rows of [related_rows] for the
    bound [p] and [k]. *)
Definition related_of (g : graph) (paper_id : string) (p k : nat) : list nat :=
  filter (λ r, r ≠ p ∧ holds (cy_neq (prop g r "id") (VStr paper_id)))
    (sources_of g Label.Paper HAS_KEYWORD k).

(** ** The graph as the stores leave it *)

(** The graph [g'] is [g] with more nodes and more relationships. *)
Definition grows (g g' : graph) : Prop :=
  (∃ extra, g_nodes g' = g_nodes g ++ extra) ∧ g_rels g ⊆ g_rels g'.

(** No two nodes of the label [l] carry the same name. *)
Definition unique_names (l : label) (g : graph) : Prop :=
  NoDup (omap (λ i, if decide (node_label g i = Some l)
                    then prop g i "name" else None) (node_ids g)).

(** The databases the two stores build from an empty one, whatever the
    servers do in between. *)
Inductive reachable : Driver.db → Prop :=
| reachable_empty lg :
    reachable {| Driver.graph_of := Cypher.empty; Driver.log_of := lg |}
| reachable_dbagent srv paper s :
    reachable s → reachable (state_of (DBAgent.store_paper srv paper s))
| reachable_handler srv paper s :
    reachable s → reachable (state_of (Neo4jHandler.store_paper srv paper s)).

(** A paper the search is after: it has an author and a keyword, its year
    is a number not below the threshold and the topic is inside its title or
    its summary. *)
Definition search_hit (g : graph) (topic : string) (start_year : Z)
    (key : group_key) : Prop :=
  ∃ p a k y,
    joined g key p a k
    ∧ prop g p "year" = Some (VInt y) ∧ (start_year ≤ y)%Z
    ∧ ((∃ t, prop g p "title" = Some (VStr t) ∧ occurs_in topic t)
       ∨ (∃ t, prop g p "summary" = Some (VStr t) ∧ occurs_in topic t)).

End Statements.

(* ===================================================================== *)
(** * Lists, sorted lists, and the graph under the clauses *)
(* ===================================================================== *)

(** ** Distinct elements and sorted lists *)

Section Lists.
Import Cypher Driver Statements.
Context {A : Type} `{EqDecision A}.

Lemma elem_of_distinct (x : A) l : x ∈ distinct l ↔ x ∈ l.
Proof.
  induction l as [|a l IH]; simpl; [done|].
  rewrite !elem_of_cons, list_elem_of_filter, IH.
  destruct (decide (x = a)); naive_solver.
Qed.

Lemma NoDup_distinct (l : list A) : NoDup (distinct l).
Proof.
  induction l as [|a l IH]; simpl; [constructor|].
  apply NoDup_cons. split.
  - rewrite list_elem_of_filter. naive_solver.
  - by apply NoDup_filter.
Qed.

Lemma distinct_sublist (l : list A) : distinct l `sublist_of` l.
Proof.
  induction l as [|a l IH]; simpl; [done|].
  apply sublist_skip. etrans; [apply sublist_filter|done].
Qed.

Lemma distinct_nil_inv (l : list A) : distinct l = [] → l = [].
Proof. by destruct l. Qed.
End Lists.

Lemma StronglySorted_sublist {A} (R : relation A) l1 l2 :
  l1 `sublist_of` l2 → StronglySorted R l2 → StronglySorted R l1.
Proof.
  induction 1 as [|x l1 l2 Hsub IH|x l1 l2 Hsub IH]; intros Hs.
  - done.
  - apply StronglySorted_inv in Hs as [Hs Hall]. constructor; [auto|].
    eapply Forall_forall. intros y Hy. eapply Forall_forall in Hall; [done|].
    by eapply elem_of_sublist.
  - apply StronglySorted_inv in Hs as [Hs _]. auto.
Qed.

Lemma filter_ext_in {A} (P Q : A → Prop) `{∀ x, Decision (P x)}
    `{∀ x, Decision (Q x)} (l : list A) :
  (∀ x, x ∈ l → P x ↔ Q x) → filter P l = filter Q l.
Proof.
  induction l as [|a l IH]; intros Hext; [done|].
  rewrite !filter_cons.
  rewrite IH by (intros; apply Hext; by right).
  destruct (decide (P a)) as [HP|HP], (decide (Q a)) as [HQ|HQ]; try done;
    exfalso; apply (Hext a) in HP || apply (Hext a) in HQ; (done || by left).
Qed.

Lemma filter_none {A} (P : A → Prop) `{∀ x, Decision (P x)} (l : list A) :
  (∀ x, x ∈ l → ¬ P x) → filter P l = [].
Proof.
  intros Hno. apply elem_of_nil_inv. intros x [HP Hx]%list_elem_of_filter.
  by apply (Hno x).
Qed.

(** ** Matching nodes; graphs that only grow *)

Section Graph_lemmas.
Import Cypher Driver Statements.
Implicit Types (g : graph) (i p : nat) (l : label).

Lemma elem_of_node_ids g i : i ∈ node_ids g ↔ i < length (g_nodes g).
Proof. unfold node_ids. rewrite elem_of_seq. lia. Qed.

Lemma NoDup_node_ids g : NoDup (node_ids g).
Proof. apply NoDup_seq. Qed.

Lemma matches_at_valid g l pat i : matches_at g l pat i → i < length (g_nodes g).
Proof. intros (n & Hn & _). by apply lookup_lt_Some in Hn. Qed.

Lemma elem_of_match_nodes l pat g i :
  i ∈ match_nodes l pat g ↔ matches_at g l pat i.
Proof.
  unfold match_nodes. rewrite list_elem_of_filter, elem_of_node_ids.
  split; [tauto|]. intros H. split; [done|]. by eapply matches_at_valid.
Qed.

Lemma matches_at_alt g l pat i :
  matches_at g l pat i
  ↔ node_label g i = Some l ∧ Forall (λ kv, prop g i kv.1 = Some kv.2) pat.
Proof.
  unfold matches_at, node_matches, node_label, prop. split.
  - intros (n & -> & <- & Hall). done.
  - destruct (g_nodes g !! i) as [n|]; simpl; [|by intros [[=] _]].
    intros [[= <-] Hall]. eauto.
Qed.

Lemma NoDup_match_nodes l pat g : NoDup (match_nodes l pat g).
Proof. apply NoDup_filter, NoDup_node_ids. Qed.

Global Instance keeps_papers_refl : Reflexive keeps_papers.
Proof. intros g. exists []. by rewrite app_nil_r. Qed.

Global Instance keeps_papers_trans : Transitive keeps_papers.
Proof.
  intros g1 g2 g3 (e1 & H1 & F1) (e2 & H2 & F2). exists (e1 ++ e2).
  rewrite H2, H1, (assoc_L (++)). split; [done|]. by apply Forall_app.
Qed.

Lemma keeps_papers_lookup g g' i :
  keeps_papers g g' → i < length (g_nodes g) → g_nodes g' !! i = g_nodes g !! i.
Proof. intros (e & -> & _) Hi. by apply lookup_app_l. Qed.

Lemma keeps_papers_prop g g' i key :
  keeps_papers g g' → i < length (g_nodes g) → prop g' i key = prop g i key.
Proof. intros Hk Hi. unfold prop. by rewrite (keeps_papers_lookup g g'). Qed.

Lemma keeps_papers_matches g g' pat i :
  keeps_papers g g' →
  matches_at g' Label.Paper pat i ↔ matches_at g Label.Paper pat i.
Proof.
  intros (e & He & Hall). unfold matches_at. rewrite He.
  destruct (decide (i < length (g_nodes g))) as [Hi|Hi].
  - by rewrite lookup_app_l.
  - rewrite lookup_app_r by lia. rewrite (lookup_ge_None_2 (g_nodes g)) by lia.
    split; intros (n & Hn & Hm); [|done]. exfalso.
    apply list_elem_of_lookup_2 in Hn. eapply Forall_forall in Hall; [|done].
    by destruct Hm.
Qed.

Lemma keeps_papers_match_nodes g g' pat :
  keeps_papers g g' →
  match_nodes Label.Paper pat g' = match_nodes Label.Paper pat g.
Proof.
  intros Hk. pose proof Hk as (e & He & Hall). unfold match_nodes, node_ids.
  rewrite He, length_app, seq_app, filter_app. simpl.
  rewrite (filter_none _ (seq _ (length e))), app_nil_r.
  - apply filter_ext_in. intros; by apply keeps_papers_matches.
  - intros i Hi Hm. apply (keeps_papers_matches g g') in Hm; [|done].
    apply matches_at_valid in Hm. apply elem_of_seq in Hi. lia.
Qed.

Lemma keeps_papers_length g g' :
  keeps_papers g g' → length (g_nodes g) ≤ length (g_nodes g').
Proof. intros (e & -> & _). rewrite length_app. lia. Qed.

(** ** The clauses *)

Lemma merge_rel_keeps a t b g : keeps_papers g (merge_rel a t b g).
Proof. exists []. simpl. by rewrite app_nil_r. Qed.

Lemma merge_node_keeps l pat g :
  l ≠ Label.Paper → keeps_papers g (merge_node l pat g).1.
Proof.
  intros Hl. unfold merge_node. destruct (match_nodes l pat g); simpl; [|done].
  eexists [_]. split; [reflexivity|]. by repeat constructor.
Qed.

Lemma for_rows_keeps {R R'} (step : R → graph → graph * list R') rows g :
  (∀ r g, keeps_papers g (step r g).1) →
  keeps_papers g (for_rows step rows g).1.
Proof.
  intros Hstep. revert g. induction rows as [|r rows IH]; intros g; simpl; [done|].
  specialize (Hstep r g). destruct (step r g) as [g1 out1]. simpl in *.
  specialize (IH g1). destruct (for_rows step rows g1) as [g2 out2]. simpl in *.
  by etrans.
Qed.

Lemma try_rows_keeps {R R'} (step : R → graph → outcome (graph * list R'))
    rows g g' out :
  (∀ r g g' out, step r g = Ret (g', out) → keeps_papers g g') →
  try_rows step rows g = Ret (g', out) → keeps_papers g g'.
Proof.
  intros Hstep. revert g out. induction rows as [|r rows IH]; intros g out; simpl.
  - by intros [= -> _].
  - destruct (step r g) as [[g1 out1]|] eqn:Hs; [|done].
    destruct (try_rows step rows g1) as [[g2 out2]|] eqn:Ht; [|done].
    intros [= -> _]. etrans; eauto.
Qed.

Lemma merge_by_name_keeps l row g :
  l ≠ Label.Paper → keeps_papers g (merge_by_name l row g).1.
Proof.
  intros Hl. unfold merge_by_name.
  pose proof (merge_node_keeps l [("name", VStr row.2)] g Hl) as Hk.
  by destruct (merge_node l _ g).
Qed.

Lemma unwind_nil {B} ps : unwind ps (@nil B) = [].
Proof. unfold unwind. induction ps; csimpl; auto. Qed.

End Graph_lemmas.

(** ** [MERGE] of a node and [SET] *)

Section Writes.
Import Cypher Driver Statements.
Implicit Types (g : graph) (i j p : nat) (l : label).

Lemma match_nodes_add_node l pat n g :
  match_nodes l pat (add_node n g)
  = match_nodes l pat g
    ++ (if decide (node_matches l pat n) then [length (g_nodes g)] else []).
Proof.
  unfold match_nodes, node_ids, add_node. simpl.
  rewrite length_app, seq_app, filter_app. simpl. f_equal.
  - apply filter_ext_in. intros i Hi%elem_of_seq. unfold matches_at. simpl.
    by rewrite lookup_app_l by lia.
  - rewrite filter_cons, filter_nil.
    assert (Hl : (g_nodes g ++ [n]) !! length (g_nodes g) = Some n).
    { rewrite lookup_app_r by lia. by rewrite Nat.sub_diag. }
    destruct (decide (node_matches l pat n)) as [Hm|Hm];
      destruct (decide (matches_at _ _ _ _)) as [Hm'|Hm']; try done.
    + exfalso. apply Hm'. exists n. done.
    + exfalso. destruct Hm' as (n' & Hn' & ?). simpl in Hn'.
      rewrite Hl in Hn'. by simplify_eq.
Qed.

Lemma merge_paper_spec pid g :
  let r := merge_node Label.Paper [("id", VStr pid)] g in
  match_nodes Label.Paper [("id", VStr pid)] r.1 = r.2
  ∧ r.2 ≠ []
  ∧ (match_nodes Label.Paper [("id", VStr pid)] g = [] →
     r.2 = [length (g_nodes g)])
  ∧ (match_nodes Label.Paper [("id", VStr pid)] g ≠ [] →
     r.1 = g ∧ r.2 = match_nodes Label.Paper [("id", VStr pid)] g).
Proof.
  unfold merge_node.
  destruct (match_nodes Label.Paper [("id", VStr pid)] g) as [|m ms] eqn:Hm;
    simpl.
  - rewrite match_nodes_add_node, Hm. simpl.
    rewrite decide_True; [done|].
    split; [done|]. repeat constructor.
  - done.
Qed.

Lemma prop_set_prop i key v g j key' :
  prop (set_prop i key v g) j key'
  = if decide (i = j ∧ key = key' ∧ j < length (g_nodes g))
    then v else prop g j key'.
Proof.
  unfold prop, set_prop. simpl. rewrite list_lookup_alter.
  destruct (decide (i = j)) as [->|Hij]; [|by rewrite decide_False by tauto].
  destruct (g_nodes g !! j) as [n|] eqn:Hn; simpl.
  - apply lookup_lt_Some in Hn as Hlt.
    destruct (decide (key = key')) as [->|Hk].
    + rewrite decide_True by done.
      destruct v; [apply lookup_insert_eq | apply lookup_delete_eq].
    + rewrite decide_False by tauto.
      destruct v; [by apply lookup_insert_ne | by apply lookup_delete_ne].
  - apply lookup_ge_None in Hn. by rewrite decide_False by lia.
Qed.

Lemma node_label_set_prop i key v g j :
  node_label (set_prop i key v g) j = node_label g j.
Proof.
  unfold node_label, set_prop. simpl. rewrite list_lookup_alter.
  destruct (decide (i = j)) as [->|]; [|done].
  by destruct (g_nodes g !! j).
Qed.

Lemma length_set_prop i key v g :
  length (g_nodes (set_prop i key v g)) = length (g_nodes g).
Proof. apply length_alter. Qed.

Lemma node_label_set_props p kvs g j :
  node_label (set_props p kvs g) j = node_label g j.
Proof.
  unfold set_props. revert g. induction kvs as [|kv kvs IH]; intros g; simpl;
    [done|]. by rewrite IH, node_label_set_prop.
Qed.

Lemma length_set_props p kvs g :
  length (g_nodes (set_props p kvs g)) = length (g_nodes g).
Proof.
  unfold set_props. revert g. induction kvs as [|kv kvs IH]; intros g; simpl;
    [done|]. by rewrite IH, length_set_prop.
Qed.

Lemma g_rels_set_props p kvs g : g_rels (set_props p kvs g) = g_rels g.
Proof.
  unfold set_props. revert g. induction kvs as [|kv kvs IH]; intros g; simpl;
    [done|]. by rewrite IH.
Qed.

Lemma prop_set_props p kvs g j key :
  j < length (g_nodes g) →
  prop (set_props p kvs g) j key
  = if decide (p = j) then assigned key kvs (prop g j key) else prop g j key.
Proof.
  unfold set_props. revert g. induction kvs as [|kv kvs IH]; intros g Hj; simpl.
  - by destruct (decide (p = j)).
  - rewrite IH by by rewrite length_set_prop. rewrite prop_set_prop.
    destruct (decide (p = j)) as [->|]; [|by rewrite decide_False by tauto].
    destruct (decide (kv.1 = key)) as [->|];
      [by rewrite decide_True|by rewrite decide_False by tauto].
Qed.

Lemma assigned_other key kvs d :
  Forall (λ kv, kv.1 ≠ key) kvs → assigned key kvs d = d.
Proof.
  revert d. induction kvs as [|kv kvs IH]; intros d Hall; simpl; [done|].
  apply Forall_cons in Hall as [Hkv Hall]. rewrite IH by done.
  by rewrite decide_False.
Qed.

(** [SET] over the rows [ps]. *)
Lemma set_rows_spec kvs ps g :
  let r := for_rows (λ p g, (set_props p kvs g, [p])) ps g in
  r.2 = ps
  ∧ length (g_nodes r.1) = length (g_nodes g)
  ∧ g_rels r.1 = g_rels g
  ∧ (∀ j, node_label r.1 j = node_label g j)
  ∧ (∀ j key, Forall (λ kv, kv.1 ≠ key) kvs → prop r.1 j key = prop g j key)
  ∧ (∀ j key v, j ∈ ps → j < length (g_nodes g) →
                (∀ d, assigned key kvs d = v) → prop r.1 j key = v)
  ∧ (∀ j key, j ∉ ps → prop r.1 j key = prop g j key).
Proof.
  revert g. induction ps as [|p ps IH]; intros g; simpl.
  - split_and!; try done. intros j key v Hj. by apply elem_of_nil in Hj.
  - specialize (IH (set_props p kvs g)).
    destruct (for_rows _ ps (set_props p kvs g)) as [g2 out2]. simpl in *.
    destruct IH as (-> & Hlen & Hrels & Hlab & Hother & Hset & Hout).
    rewrite length_set_props in Hlen, Hset. split_and!; try done.
    + by rewrite Hrels, g_rels_set_props.
    + intros j. by rewrite Hlab, node_label_set_props.
    + intros j key Hall. rewrite Hother by done.
      destruct (decide (j < length (g_nodes g))) as [Hj|Hj].
      * rewrite prop_set_props by done. destruct (decide (p = j)); [|done].
        by apply assigned_other.
      * unfold prop. rewrite !lookup_ge_None_2; [done|lia|].
        rewrite length_set_props. lia.
    + intros j key v Hj Hlt Hv. destruct (decide (j ∈ ps)) as [Hin|Hin].
      * by apply Hset.
      * rewrite Hout by done. apply elem_of_cons in Hj as [->|]; [|done].
        rewrite prop_set_props by done. by rewrite decide_True.
    + intros j key Hj. apply not_elem_of_cons in Hj as [Hne Hj].
      rewrite Hout by done.
      destruct (decide (j < length (g_nodes g))) as [Hlt|Hlt].
      * rewrite prop_set_props by done. by rewrite decide_False.
      * unfold prop. rewrite !lookup_ge_None_2; [done|lia|].
        rewrite length_set_props. lia.
Qed.
End Writes.

(** ** The head of the two store queries *)

Section Upsert.
Import Cypher Driver Statements.
Implicit Types (g : graph) (i j p : nat).

(** What [MERGE (p:Paper {id: $id}) SET ...] leaves, once the rest of the
    query has only added nodes that are not papers. *)
Lemma upsert_head_spec pid title kvs g gA ps0 gB ps gF :
  merge_node Label.Paper [("id", VStr pid)] g = (gA, ps0) →
  for_rows (λ p g, (set_props p kvs g, [p])) ps0 gA = (gB, ps) →
  keeps_papers gB gF →
  Forall (λ kv, kv.1 ≠ "id") kvs →
  (∀ d, assigned "title" kvs d = Some (VStr title)) →
  ps = ps0
  ∧ match_nodes Label.Paper [("id", VStr pid)] gF
    = (if decide (match_nodes Label.Paper [("id", VStr pid)] g = [])
       then [length (g_nodes g)]
       else match_nodes Label.Paper [("id", VStr pid)] g)
  ∧ (∀ i, i ∈ match_nodes Label.Paper [("id", VStr pid)] gF →
          prop gF i "title" = Some (VStr title))
  ∧ (∀ v, v ≠ VStr pid →
       match_nodes Label.Paper [("id", v)] gF
       = match_nodes Label.Paper [("id", v)] g).
Proof.
  intros HA HB Hk Hid Htitle.
  pose proof (merge_paper_spec pid g) as HmA. rewrite HA in HmA. simpl in HmA.
  destruct HmA as (HmA & Hne & Hnew & Hold).
  pose proof (set_rows_spec kvs ps0 gA) as HsB. rewrite HB in HsB. simpl in HsB.
  destruct HsB as (-> & Hlen & _ & Hlab & Hother & Hset & _).
  assert (HmB : ∀ v, match_nodes Label.Paper [("id", v)] gB
                     = match_nodes Label.Paper [("id", v)] gA).
  { intros v. unfold match_nodes, node_ids. rewrite Hlen.
    apply filter_ext_in. intros i _. rewrite !matches_at_alt.
    rewrite Hlab, !Forall_singleton. simpl. by rewrite Hother. }
  split; [done|].
  rewrite !(keeps_papers_match_nodes gB gF) by done. rewrite !HmB, HmA.
  split_and!.
  - destruct (decide (match_nodes _ _ g = [])) as [He|He]; [auto|].
    by destruct (Hold He) as [_ ->].
  - intros i Hi.
    assert (Hlt : i < length (g_nodes gA)).
    { rewrite <- HmA in Hi.
      by apply elem_of_match_nodes, matches_at_valid in Hi. }
    rewrite (keeps_papers_prop gB gF) by first [done|lia].
    by apply (Hset i "title" (Some (VStr title))).
  - intros v' Hne'. rewrite (keeps_papers_match_nodes gB gF), HmB by done.
    destruct (decide (match_nodes Label.Paper [("id", VStr pid)] g = []))
      as [He|He].
    + unfold merge_node in HA. rewrite He in HA. simplify_eq.
      rewrite match_nodes_add_node. rewrite decide_False, app_nil_r; [done|].
      intros [_ Hall]. apply Forall_inv in Hall.
      vm_compute in Hall. by simplify_eq.
    + by destruct (Hold He) as [-> _].
Qed.

Lemma merge_rel_rows_keeps {B} (f : nat * B → nat * rel_type * nat) rows g :
  keeps_papers g
    (for_rows (λ r g, (merge_rel (f r).1.1 (f r).1.2 (f r).2 g, [r])) rows g).1.
Proof. apply for_rows_keeps. intros r g'. apply merge_rel_keeps. Qed.

Lemma dbagent_create_paper_query_spec
    pid title summary year url authors keywords now g :
  let r := DBAgent.create_paper_query pid title summary year url authors
             keywords now g in
  match_nodes Label.Paper [("id", VStr pid)] r.1
  = (if decide (match_nodes Label.Paper [("id", VStr pid)] g = [])
     then [length (g_nodes g)]
     else match_nodes Label.Paper [("id", VStr pid)] g)
  ∧ (∀ i, i ∈ match_nodes Label.Paper [("id", VStr pid)] r.1 →
          prop r.1 i "title" = Some (VStr title))
  ∧ (∀ v, v ≠ VStr pid →
       match_nodes Label.Paper [("id", v)] r.1
       = match_nodes Label.Paper [("id", v)] g).
Proof.
  unfold DBAgent.create_paper_query.
  destruct (merge_node Label.Paper [("id", VStr pid)] g) as [gA ps0] eqn:HA.
  destruct (for_rows _ ps0 gA) as [gB ps] eqn:HB.
  destruct (for_rows (merge_by_name Label.Author) (unwind ps authors) gB)
    as [g1 rows1] eqn:H1.
  destruct (for_rows _ rows1 g1) as [g2 rows2] eqn:H2.
  destruct (for_rows (merge_by_name Label.Keyword) (unwind rows2.*1 keywords) g2)
    as [g3 rows3] eqn:H3.
  destruct (for_rows _ rows3 g3) as [g4 rows4] eqn:H4.
  simpl.
  assert (Hk : keeps_papers gB g4).
  { etrans; [|etrans; [|etrans]].
    - pose proof (for_rows_keeps (merge_by_name Label.Author)
                    (unwind ps authors) gB) as Hk. rewrite H1 in Hk.
      apply Hk. intros r g'. by apply merge_by_name_keeps.
    - pose proof (for_rows_keeps
        (λ '(p, a) g, (merge_rel a AUTHORED p g, [(p, a)])) rows1 g1) as Hk.
      rewrite H2 in Hk. apply Hk. intros [p a] g'. apply merge_rel_keeps.
    - pose proof (for_rows_keeps (merge_by_name Label.Keyword)
                    (unwind rows2.*1 keywords) g2) as Hk. rewrite H3 in Hk.
      apply Hk. intros r g'. by apply merge_by_name_keeps.
    - pose proof (for_rows_keeps
        (λ '(p, k) g, (merge_rel p HAS_KEYWORD k g, [(p, k)])) rows3 g3) as Hk.
      rewrite H4 in Hk. apply Hk. intros [p k] g'. apply merge_rel_keeps. }
  edestruct (upsert_head_spec pid title) as (_ & Hm & Ht & Ho);
    [exact HA|exact HB|exact Hk| |done|].
  { by repeat constructor. }
  done.
Qed.
End Upsert.

(** ** Storing a paper *)

Section Store.
Import Cypher Driver Statements.
Implicit Types (g : graph) (i j p : nat) (s : db).

Lemma handler_create_paper_query_spec
    pid title abstract year url full_text authors images now g :
  ∃ g', Neo4jHandler.create_paper_query pid title abstract year url full_text
          authors [] images now g = Ret (g', [])
    ∧ match_nodes Label.Paper [("id", VStr pid)] g'
      = (if decide (match_nodes Label.Paper [("id", VStr pid)] g = [])
         then [length (g_nodes g)]
         else match_nodes Label.Paper [("id", VStr pid)] g)
    ∧ (∀ i, i ∈ match_nodes Label.Paper [("id", VStr pid)] g' →
            prop g' i "title" = Some (VStr title))
    ∧ (∀ v, v ≠ VStr pid →
         match_nodes Label.Paper [("id", v)] g'
         = match_nodes Label.Paper [("id", v)] g).
Proof.
  unfold Neo4jHandler.create_paper_query.
  destruct (merge_node Label.Paper [("id", VStr pid)] g) as [gA ps0] eqn:HA.
  destruct (for_rows _ ps0 gA) as [gB ps] eqn:HB.
  destruct (for_rows (merge_by_name Label.Author) (unwind ps authors) gB)
    as [g1 rows1] eqn:H1.
  destruct (for_rows _ rows1 g1) as [g2 rows2] eqn:H2.
  rewrite unwind_nil. simpl. exists g2. split; [done|].
  assert (Hk : keeps_papers gB g2).
  { etrans.
    - pose proof (for_rows_keeps (merge_by_name Label.Author)
                    (unwind ps authors) gB) as Hk. rewrite H1 in Hk.
      apply Hk. intros r g'. by apply merge_by_name_keeps.
    - pose proof (for_rows_keeps
        (λ '(p, a) g, (merge_rel a AUTHORED p g, [(p, a)])) rows1 g1) as Hk.
      rewrite H2 in Hk. apply Hk. intros [p a] g'. apply merge_rel_keeps. }
  edestruct (upsert_head_spec pid title) as (_ & Hm & Ht & Ho);
    [exact HA|exact HB|exact Hk| |done|].
  { by repeat constructor. }
  done.
Qed.

Lemma dbagent_store_paper_healthy srv paper s :
  (∀ c, fault srv c = None) →
  let r := DBAgent.create_paper_query (DBAgent.id paper) (DBAgent.title paper)
             (DBAgent.summary paper) (DBAgent.year paper) (DBAgent.url paper)
             (DBAgent.authors paper) (default [] (DBAgent.keywords paper))
             (clock srv) (graph_of s) in
  DBAgent.store_paper srv paper s
  = (Ret (bool_decide (r.2 ≠ [])), {| graph_of := r.1; log_of := log_of s |}).
Proof.
  intros Hok. unfold DBAgent.store_paper, DBAgent._create_paper_tx,
    with_session, execute, try_finally, reach, run, try_except, mbind, M_bind.
  rewrite !Hok. simpl.
  by destruct (DBAgent.create_paper_query _ _ _ _ _ _ _ _ _).
Qed.

Lemma handler_store_paper_healthy srv paper s :
  (∀ c, fault srv c = None) →
  ∃ g', Neo4jHandler.create_paper_query (Schemas.id paper)
          (Schemas.title paper) (Schemas.abstract paper) (Schemas.year paper)
          (Schemas.url paper) (Schemas.full_text paper) (Schemas.authors paper)
          [] (Schemas.images paper) (clock srv) (graph_of s) = Ret (g', [])
    ∧ Neo4jHandler.store_paper srv paper s
      = (Ret false, {| graph_of := g'; log_of := log_of s |}).
Proof.
  intros Hok.
  destruct (handler_create_paper_query_spec (Schemas.id paper)
              (Schemas.title paper) (Schemas.abstract paper)
              (Schemas.year paper) (Schemas.url paper)
              (Schemas.full_text paper) (Schemas.authors paper)
              (Schemas.images paper) (clock srv) (graph_of s))
    as (g' & Hq & _).
  exists g'. split; [done|].
  unfold Neo4jHandler.store_paper, Neo4jHandler._sync_store_paper,
    Neo4jHandler._create_paper_tx,
    with_session, execute, try_finally, reach, run, try_except, mbind, M_bind.
  rewrite !Hok, Hq. reflexivity.
Qed.

(** Claim C3. On servers that answer, and from a database that holds at most
    one Paper node with the id [pid], storing a paper with that id and then
    another one with the same id leaves exactly one Paper node with that id,
    and its title is the title given by the second store. This holds for the
    store of [DBAgent] and for the one of [Neo4jHandler]: [MERGE] on the id
    finds the node of the first store, [SET] overwrites its fields. *)
Theorem store_twice_keeps_one_node srv1 srv2 s pid :
  (∀ c, fault srv1 c = None) → (∀ c, fault srv2 c = None) →
  length (papers_with_id (graph_of s) pid) ≤ 1 →
  (∀ p1 p2 : DBAgent.Paper,
     DBAgent.id p1 = pid → DBAgent.id p2 = pid →
     ∃ i, papers_with_id
            (graph_of (state_of (DBAgent.store_paper srv2 p2
                         (state_of (DBAgent.store_paper srv1 p1 s))))) pid
          = [i]
          ∧ prop (graph_of (state_of (DBAgent.store_paper srv2 p2
                               (state_of (DBAgent.store_paper srv1 p1 s)))))
              i "title" = Some (VStr (DBAgent.title p2)))
  ∧ (∀ p1 p2 : Schemas.Paper,
       Schemas.id p1 = pid → Schemas.id p2 = pid →
       ∃ i, papers_with_id
              (graph_of (state_of (Neo4jHandler.store_paper srv2 p2
                           (state_of (Neo4jHandler.store_paper srv1 p1 s))))) pid
            = [i]
            ∧ prop (graph_of (state_of (Neo4jHandler.store_paper srv2 p2
                                 (state_of (Neo4jHandler.store_paper srv1 p1 s)))))
                i "title" = Some (VStr (Schemas.title p2))).
Proof.
  intros Hok1 Hok2 Hle. unfold papers_with_id in *.
  assert (Hone : ∀ ms : list nat, length ms ≤ 1 →
            ∃ i, (if decide (ms = []) then [length (g_nodes (graph_of s))] else ms)
                 = [i]).
  { intros [|m [|m' ms]] Hl; simpl in *; eauto. lia. }
  split.
  - intros p1 p2 <- Hid.
    rewrite (dbagent_store_paper_healthy srv1 p1 s Hok1). unfold state_of at 2.
    simpl.
    rewrite (dbagent_store_paper_healthy srv2 p2 _ Hok2). unfold state_of.
    simpl. rewrite Hid.
    destruct (dbagent_create_paper_query_spec (DBAgent.id p1) (DBAgent.title p1)
                (DBAgent.summary p1) (DBAgent.year p1) (DBAgent.url p1)
                (DBAgent.authors p1) (default [] (DBAgent.keywords p1))
                (clock srv1) (graph_of s)) as (Hm1 & _ & _).
    destruct (Hone _ Hle) as [i Hi]. rewrite Hi in Hm1.
    match goal with
    | |- context [DBAgent.create_paper_query ?a ?b ?c ?d ?e ?f ?g ?h ?k] =>
        destruct (dbagent_create_paper_query_spec a b c d e f g h k)
          as (Hm2 & Ht2 & _)
    end.
    rewrite Hm1 in Hm2. simpl in Hm2. exists i. split; [done|].
    apply Ht2. rewrite Hm2. by left.
  - intros p1 p2 <- Hid.
    destruct (handler_store_paper_healthy srv1 p1 s Hok1) as (g1 & Hq1 & ->).
    unfold state_of at 2 4. simpl.
    destruct (handler_store_paper_healthy srv2 p2
                {| graph_of := g1; log_of := log_of s |} Hok2)
      as (g2 & Hq2 & ->).
    unfold state_of. simpl. simpl in Hq2. rewrite Hid in Hq2.
    destruct (handler_create_paper_query_spec (Schemas.id p1)
                (Schemas.title p1) (Schemas.abstract p1) (Schemas.year p1)
                (Schemas.url p1) (Schemas.full_text p1) (Schemas.authors p1)
                (Schemas.images p1) (clock srv1) (graph_of s))
      as (g1' & Hq1' & Hm1 & _ & _).
    rewrite Hq1 in Hq1'. injection Hq1' as <-.
    destruct (handler_create_paper_query_spec (Schemas.id p1)
                (Schemas.title p2) (Schemas.abstract p2) (Schemas.year p2)
                (Schemas.url p2) (Schemas.full_text p2) (Schemas.authors p2)
                (Schemas.images p2) (clock srv2) g1)
      as (g2' & Hq2' & Hm2 & Ht2 & _).
    rewrite Hq2 in Hq2'. injection Hq2' as <-.
    destruct (Hone _ Hle) as [i Hi]. rewrite Hi in Hm1.
    rewrite Hm1 in Hm2. simpl in Hm2. exists i. split; [done|].
    apply Ht2. rewrite Hm2. by left.
Qed.

Lemma store_twice_keeps_one_node_witness :
  ∃ i, papers_with_id
         (graph_of (state_of (DBAgent.store_paper (healthy 0)
                                Fixtures.quantum_a_revised
                      (state_of (DBAgent.store_paper (healthy 0)
                                   Fixtures.quantum_a Fixtures.fresh)))))
         "2401.00001"
       = [i]
       ∧ prop (graph_of (state_of (DBAgent.store_paper (healthy 0)
                                     Fixtures.quantum_a_revised
                           (state_of (DBAgent.store_paper (healthy 0)
                                        Fixtures.quantum_a Fixtures.fresh)))))
           i "title" = Some (VStr (DBAgent.title Fixtures.quantum_a_revised)).
Proof.
  apply (proj1 (store_twice_keeps_one_node (healthy 0) (healthy 0)
                  Fixtures.fresh "2401.00001"
                  (λ c, eq_refl) (λ c, eq_refl) (Nat.le_0_l 1))
           Fixtures.quantum_a Fixtures.quantum_a_revised);
    reflexivity.
Defined.

(** After the two stores the database holds the revised title, once. *)
Example stored_twice :
  papers_with_id
    (graph_of (state_of (DBAgent.store_paper (healthy 0)
                           Fixtures.quantum_a_revised
                 (state_of (DBAgent.store_paper (healthy 0)
                              Fixtures.quantum_a Fixtures.fresh)))))
    "2401.00001" = [0]
  ∧ prop (graph_of (state_of (DBAgent.store_paper (healthy 0)
                                Fixtures.quantum_a_revised
                      (state_of (DBAgent.store_paper (healthy 0)
                                   Fixtures.quantum_a Fixtures.fresh)))))
      0 "title" = Some (VStr "Quantum walks, revised").
Proof. split; vm_compute; reflexivity. Qed.
End Store.

(** ** Substrings *)

Section Strings.
Import Cypher Driver Statements.
Lemma prefix_spec s1 s2 : String.prefix s1 s2 = true ↔ ∃ post, s2 = s1 +:+ post.
Proof.
  revert s2. induction s1 as [|c s1 IH]; intros s2; simpl.
  - split; [intros _; exists s2; reflexivity|intros _; by destruct s2].
  - destruct s2 as [|c' s2]; simpl; [split; [done|by intros [? [=]]]|].
    destruct (Ascii.ascii_dec c c') as [->|Hne].
    + rewrite IH. split; intros [post Hp]; exists post; [by rewrite Hp|].
      by injection Hp.
    + split; [done|]. intros [post [= ? ?]]. done.
Qed.

Lemma str_in_unfold needle hay :
  str_in needle hay
  = String.prefix needle hay
    || match hay with
       | EmptyString => false
       | String _ hay' => str_in needle hay'
       end.
Proof. by destruct hay. Qed.

Lemma str_in_spec needle hay : str_in needle hay = true ↔ occurs_in needle hay.
Proof.
  unfold occurs_in. induction hay as [|c hay IH]; rewrite str_in_unfold.
  - rewrite orb_false_r, prefix_spec. split.
    + intros [post Hp]. exists "", post. done.
    + intros (pre & post & Hp). destruct pre; simpl in Hp; [eauto|done].
  - rewrite orb_true_iff, prefix_spec, IH. split.
    + intros [[post Hp]|(pre & post & Hp)].
      * exists "", post. done.
      * exists (String c pre), post. simpl. by rewrite Hp.
    + intros (pre & post & Hp). destruct pre as [|c' pre]; simpl in Hp.
      * left. eauto.
      * right. injection Hp as _ Hp. eauto.
Qed.
End Strings.

(** ** The orders of [ORDER BY] *)

Section Order.
Import Cypher Driver Statements.
Lemma order_le_total a b : order_le a b ∨ order_le b a.
Proof.
  destruct a as [[x|x|x]|], b as [[y|y|y]|]; unfold order_le; simpl;
    try lia.
  destruct (total String.le x y); auto.
Qed.

Lemma order_le_trans a b c : order_le a b → order_le b c → order_le a c.
Proof.
  destruct a as [[x|x|x]|], b as [[y|y|y]|], c as [[z|z|z]|];
    unfold order_le; simpl; try lia.
  intros. by etrans.
Qed.

Global Instance by_year_desc_total : Total DBAgent.by_year_desc.
Proof. intros r1 r2. unfold DBAgent.by_year_desc. apply order_le_total. Qed.

Global Instance by_year_desc_trans : Transitive DBAgent.by_year_desc.
Proof.
  intros r1 r2 r3. unfold DBAgent.by_year_desc. intros H1 H2.
  by eapply order_le_trans.
Qed.

Global Instance by_count_desc_total : Total DBAgent.by_count_desc.
Proof. intros r1 r2. unfold DBAgent.by_count_desc. lia. Qed.

Global Instance by_count_desc_trans : Transitive DBAgent.by_count_desc.
Proof. intros r1 r2 r3. unfold DBAgent.by_count_desc. lia. Qed.

Lemma StronglySorted_refine {A} (R R' : relation A) (P : A → Prop) l :
  (∀ x y, P x → P y → R x y → R' x y) →
  Forall P l → StronglySorted R l → StronglySorted R' l.
Proof.
  intros Himp HP Hs. induction Hs as [|x l Hs IH Hall]; constructor.
  - apply IH. by apply Forall_inv_tail in HP.
  - apply Forall_inv in HP as Hx. apply Forall_inv_tail in HP.
    rewrite Forall_forall in *. intros y Hy. apply Himp; auto.
Qed.
End Order.

(** ** Aggregation *)

Section Aggregate.
Import Cypher Driver Statements.
Implicit Types (g : graph) (rows : list (nat * nat * nat)) (key : group_key).

Lemma key_of_record_of_group g rows key :
  key_of (record_of_group g rows key) = key.
Proof. by destruct key as [[[[i t] s] y] u]. Qed.

Lemma rec_authors_record_of_group g rows key :
  rec_authors (record_of_group g rows key)
  = distinct (omap (λ r, prop g (row_a r) "name") (group_rows g rows key)).
Proof. by destruct key as [[[[i t] s] y] u]. Qed.

Lemma rec_keywords_record_of_group g rows key :
  rec_keywords (record_of_group g rows key)
  = distinct (omap (λ r, prop g (row_k r) "name") (group_rows g rows key)).
Proof. by destruct key as [[[[i t] s] y] u]. Qed.

Lemma elem_of_aggregate g rows r :
  r ∈ aggregate g rows
  ↔ ∃ row, row ∈ rows ∧ r = record_of_group g rows (paper_key g (row_p row)).
Proof.
  unfold aggregate. rewrite list_elem_of_fmap. split.
  - intros (key & -> & Hkey). rewrite elem_of_distinct in Hkey.
    apply list_elem_of_fmap in Hkey as (row & -> & Hrow). eauto.
  - intros (row & Hrow & ->). eexists. split; [done|].
    apply elem_of_distinct, list_elem_of_fmap. eauto.
Qed.

(** The second [MATCH] of both read queries. *)
Lemma elem_of_keyword_rows g (rows1 : list (nat * nat)) p a k :
  (p, a, k) ∈ (r ← rows1; k ← targets_of g r.1 HAS_KEYWORD; [(r.1, r.2, k)])
  ↔ (p, a) ∈ rows1 ∧ (p, HAS_KEYWORD, k) ∈ g_rels g ∧ k < length (g_nodes g).
Proof.
  rewrite list_elem_of_bind. split.
  - intros ([p' a'] & Hin & Hr). apply list_elem_of_bind in Hin as (k' & Hin & Hk).
    apply list_elem_of_singleton in Hin. simpl in Hin. simplify_eq.
    unfold targets_of in Hk. apply list_elem_of_filter in Hk as [Hrel Hk].
    by apply elem_of_node_ids in Hk.
  - intros (Hr & Hrel & Hk). exists (p, a). split; [|done].
    apply list_elem_of_bind. exists k. split; [by apply list_elem_of_singleton|].
    apply list_elem_of_filter. split; [done|]. by apply elem_of_node_ids.
Qed.

Lemma elem_of_sources_of g l t b a :
  a ∈ sources_of g l t b ↔ (a, t, b) ∈ g_rels g ∧ node_label g a = Some l.
Proof.
  unfold sources_of. rewrite list_elem_of_filter, elem_of_node_ids.
  split; [tauto|]. intros [? Hl]. split; [done|]. unfold node_label in Hl.
  destruct (g_nodes g !! a) eqn:E; [|done]. by apply lookup_lt_Some in E.
Qed.

(** The records of an aggregation carry the names of their rows. *)
Lemma aggregate_names g rows (P : nat → Prop) r :
  (∀ p a k, (p, a, k) ∈ rows
            ↔ P p ∧ node_label g p = Some Label.Paper
              ∧ (a, AUTHORED, p) ∈ g_rels g
              ∧ node_label g a = Some Label.Author
              ∧ (p, HAS_KEYWORD, k) ∈ g_rels g ∧ k < length (g_nodes g)) →
  (∀ p p', paper_key g p = paper_key g p' → P p → P p') →
  r ∈ aggregate g rows →
  (∃ p, P p ∧ node_label g p = Some Label.Paper ∧ key_of r = paper_key g p)
  ∧ joined_with_names g r.
Proof.
  intros Hrows HP Hr. apply elem_of_aggregate in Hr as ([[p0 a0] k0] & Hrow0 & ->).
  change (row_p (p0, a0, k0)) with p0. rewrite key_of_record_of_group.
  apply Hrows in Hrow0 as HP0. split; [exists p0; tauto|].
  unfold joined_with_names.
  rewrite key_of_record_of_group, rec_authors_record_of_group,
    rec_keywords_record_of_group.
  split; [apply NoDup_distinct|]. split; [apply NoDup_distinct|].
  assert (Hgroup : ∀ p a k, (p, a, k) ∈ group_rows g rows (paper_key g p0)
                            ↔ joined g (paper_key g p0) p a k).
  { intros p a k. unfold group_rows, joined.
    rewrite list_elem_of_filter, Hrows. unfold row_p. simpl. split.
    - tauto.
    - intros (? & Hk & ?). split; [done|]. split; [|tauto].
      apply (HP p0); [done|tauto]. }
  split; intros v; rewrite elem_of_distinct, list_elem_of_omap.
  - split.
    + intros ([[p a] k] & Hin & Hv). apply Hgroup in Hin. eauto.
    + intros (p & a & k & Hj & Hv). exists (p, a, k). by rewrite Hgroup.
  - split.
    + intros ([[p a] k] & Hin & Hv). apply Hgroup in Hin. eauto.
    + intros (p & a & k & Hj & Hv). exists (p, a, k). by rewrite Hgroup.
Qed.
End Aggregate.

(** ** The search by topic and year *)

Section Search.
Import Cypher Driver Statements.
Implicit Types (g : graph) (s : db).

Lemma holds_search y t sm topic start_year :
  holds (cy_and (cy_ge y start_year)
           (cy_or (cy_contains t topic) (cy_contains sm topic))) →
  ∃ yz, y = Some (VInt yz) ∧ (start_year ≤ yz)%Z
        ∧ ((∃ tt, t = Some (VStr tt) ∧ occurs_in topic tt)
           ∨ (∃ tt, sm = Some (VStr tt) ∧ occurs_in topic tt)).
Proof.
  unfold holds, cy_and, cy_or, cy_ge, cy_contains. intros H.
  destruct y as [[?|yz|?]|]; try by repeat case_match.
  exists yz. split; [done|].
  destruct (bool_decide (start_year ≤ yz)%Z) eqn:Hy;
    [apply bool_decide_eq_true in Hy|by repeat case_match].
  split; [done|].
  destruct t as [[tt|?|?]|], sm as [[ss|?|?]|]; simpl in H;
    repeat case_match; simplify_eq;
    try (left; eexists; split; [done|]; by apply str_in_spec);
    try (right; eexists; split; [done|]; by apply str_in_spec).
Qed.

Lemma query_papers_query_sound topic start_year limit g out :
  DBAgent.query_papers_query topic start_year limit g = Ret out →
  Forall (matches_search topic start_year) out
  ∧ StronglySorted newest_first out
  ∧ (Z.of_nat (length out) ≤ limit)%Z
  ∧ Forall (joined_with_names g) out.
Proof.
  unfold DBAgent.query_papers_query, limit_rows.
  destruct (decide (limit < 0)%Z) as [|Hlim]; [done|]. intros [= <-].
  set (P := λ p, holds (cy_and (cy_ge (prop g p "year") start_year)
                          (cy_or (cy_contains (prop g p "title") topic)
                                 (cy_contains (prop g p "summary") topic)))).
  set (rows1 := _ ≫= (λ p, _ ≫= (λ a, [(p, a)]))).
  set (rows := rows1 ≫= _).
  assert (Hrows : ∀ p a k, (p, a, k) ∈ rows
            ↔ P p ∧ node_label g p = Some Label.Paper
              ∧ (a, AUTHORED, p) ∈ g_rels g
              ∧ node_label g a = Some Label.Author
              ∧ (p, HAS_KEYWORD, k) ∈ g_rels g ∧ k < length (g_nodes g)).
  { intros p a k. unfold rows. rewrite elem_of_keyword_rows.
    assert ((p, a) ∈ rows1 ↔ (P p ∧ node_label g p = Some Label.Paper)
              ∧ (a, AUTHORED, p) ∈ g_rels g
              ∧ node_label g a = Some Label.Author) as ->; [|tauto].
    unfold rows1. rewrite list_elem_of_bind. split.
    - intros (p' & Hin & Hp'). apply list_elem_of_bind in Hin as (a' & Hin & Ha').
      apply list_elem_of_singleton in Hin. simplify_eq.
      apply list_elem_of_filter in Hp' as [HP Hp'].
      apply elem_of_match_nodes, matches_at_alt in Hp' as [Hl _].
      by apply elem_of_sources_of in Ha'.
    - intros ([HP Hl] & Ha). exists p. split.
      + apply list_elem_of_bind. exists a.
        split; [by apply list_elem_of_singleton|]. by apply elem_of_sources_of.
      + apply list_elem_of_filter. split; [done|].
        apply elem_of_match_nodes, matches_at_alt. split; [done|constructor]. }
  assert (HP : ∀ p p', paper_key g p = paper_key g p' → P p → P p').
  { unfold P, paper_key. intros p p' [= _ Ht Hs Hy _]. by rewrite Ht, Hs, Hy. }
  set (sorted := merge_sort DBAgent.by_year_desc (aggregate g rows)).
  assert (Hin : ∀ r, r ∈ take (Z.to_nat limit) sorted → r ∈ aggregate g rows).
  { intros r Hr. eapply elem_of_sublist in Hr; [|apply sublist_take].
    unfold sorted in Hr. by rewrite merge_sort_Permutation in Hr. }
  assert (Hmatch : Forall (matches_search topic start_year)
                     (take (Z.to_nat limit) sorted)).
  { apply Forall_forall. intros r Hr%Hin.
    destruct (aggregate_names g rows P r Hrows HP Hr) as [(p & HPp & _ & Hkey) _].
    unfold key_of, paper_key in Hkey. injection Hkey as _ Ht Hs Hy _.
    unfold matches_search. rewrite Ht, Hs, Hy. by apply holds_search. }
  split_and!.
  - done.
  - eapply (StronglySorted_refine DBAgent.by_year_desc); [|exact Hmatch|].
    + intros r1 r2 (y1 & Hy1 & _) (y2 & Hy2 & _) Hle.
      unfold DBAgent.by_year_desc in Hle. rewrite Hy1, Hy2 in Hle.
      exists y1, y2. done.
    + eapply StronglySorted_sublist; [apply sublist_take|].
      apply StronglySorted_merge_sort; apply _.
  - rewrite length_take. lia.
  - apply Forall_forall. intros r Hr%Hin.
    by destruct (aggregate_names g rows P r Hrows HP Hr) as [_ ?].
Qed.

Lemma query_papers_tx_inv srv topic start_year limit s out s' :
  DBAgent._query_papers_tx srv topic start_year limit s = (Ret out, s') →
  DBAgent.query_papers_query topic start_year limit (graph_of s) = Ret out
  ∧ graph_of s' = graph_of s.
Proof.
  unfold DBAgent._query_papers_tx, run.
  destruct (fault srv RunQuery); [done|].
  destruct (DBAgent.query_papers_query _ _ _ _) as [rs|e]; simpl; [|done].
  by intros [= <- <-].
Qed.

(** Claim C4. Whatever the topic, the minimum year and the limit, the
    records [_query_papers_tx] returns all have a year that is a number not
    below the minimum and the topic as a substring, case respected, of their
    title or of their summary; they come newest first; there are at most
    [limit] of them; and each carries, once each, the names of the authors and
    of the keywords of the papers it stands for. *)
Theorem query_papers_sound srv topic start_year limit s out s' :
  DBAgent._query_papers_tx srv topic start_year limit s = (Ret out, s') →
  Forall (matches_search topic start_year) out
  ∧ StronglySorted newest_first out
  ∧ (Z.of_nat (length out) ≤ limit)%Z
  ∧ Forall (joined_with_names (graph_of s)) out.
Proof.
  intros [Hq _]%query_papers_tx_inv. by apply query_papers_query_sound.
Qed.

Lemma query_papers_sound_witness :
  Forall (matches_search "Quantum" 2020) Fixtures.quantum_since_2020
  ∧ StronglySorted newest_first Fixtures.quantum_since_2020
  ∧ (Z.of_nat (length Fixtures.quantum_since_2020) ≤ 10)%Z
  ∧ Forall (joined_with_names (graph_of Fixtures.library))
      Fixtures.quantum_since_2020.
Proof.
  apply (query_papers_sound (healthy 0) "Quantum" 2020 10 Fixtures.library
           Fixtures.quantum_since_2020 Fixtures.library).
  vm_compute. reflexivity.
Defined.

(** The search finds the two papers about "Quantum" that are recent enough,
    the newer one first, and leaves out the one of 2019. *)
Example quantum_since_2020_found :
  (λ r, (rec_title r, rec_year r, rec_authors r))
  <$> Fixtures.quantum_since_2020
  = [(Some (VStr "Annealing"), Some (VInt 2023), [VStr "Ann"]);
     (Some (VStr "Quantum walks"), Some (VInt 2021), [VStr "Ann"; VStr "Bob"])].
Proof. vm_compute. reflexivity. Qed.

(** The transaction returns whenever the server answers and the limit is
    not negative. *)
Lemma query_papers_tx_returns srv topic start_year limit s :
  fault srv RunQuery = None → (0 ≤ limit)%Z →
  ∃ out, DBAgent._query_papers_tx srv topic start_year limit s = (Ret out, s).
Proof.
  intros Hok Hlim. unfold DBAgent._query_papers_tx, run. rewrite Hok.
  unfold DBAgent.query_papers_query, limit_rows.
  rewrite decide_False by lia. simpl. destruct s. eauto.
Qed.

(** What [query_papers] hands to its caller is what the transaction
    returned, or the empty list. *)
Lemma query_papers_results srv topic start_year limit s out s' :
  (0 ≤ limit)%Z →
  DBAgent.query_papers srv topic start_year limit s = (Ret out, s') →
  Forall (matches_search topic start_year) out
  ∧ StronglySorted newest_first out
  ∧ (Z.of_nat (length out) ≤ limit)%Z
  ∧ Forall (joined_with_names (graph_of s)) out.
Proof.
  intros Hlim. unfold DBAgent.query_papers, with_session, execute, try_finally,
    reach, try_except, log, modify, mbind, M_bind, mret, M_ret.
  assert (Hnil : Forall (matches_search topic start_year) []
                 ∧ StronglySorted newest_first []
                 ∧ (Z.of_nat (length (@nil record)) ≤ limit)%Z
                 ∧ Forall (joined_with_names (graph_of s)) []).
  { split_and!; try constructor. simpl. lia. }
  destruct (fault srv OpenSession); [by intros [= <- <-]|].
  destruct (fault srv BeginTransaction);
    [destruct (fault srv CloseSession); by intros [= <- <-]|].
  destruct (DBAgent._query_papers_tx srv topic start_year limit s)
    as [[rs|e] s1] eqn:Htx.
  - apply query_papers_tx_inv in Htx as [Htx _].
    apply query_papers_query_sound in Htx.
    destruct (fault srv Commit), (fault srv CloseSession);
      intros [= <- <-]; done.
  - destruct (fault srv CloseSession); by intros [= <- <-].
Qed.
End Search.

(** ** Counting rows *)

Section Counting.
Import Cypher Driver Statements.
Context {A B : Type} `{EqDecision B}.

Lemma NoDup_omap_inj (f : A → option B) (l : list A) x y v :
  NoDup (omap f l) → x ∈ l → y ∈ l → f x = Some v → f y = Some v → x = y.
Proof.
  induction l as [|a l IH]; intros Hnd Hx Hy Hfx Hfy; [by apply elem_of_nil in Hx|].
  simpl in Hnd. apply elem_of_cons in Hx, Hy.
  destruct (f a) as [va|] eqn:Hfa.
  - apply NoDup_cons in Hnd as [Hva Hnd].
    destruct Hx as [->|Hx], Hy as [->|Hy]; auto.
    + exfalso. apply Hva, list_elem_of_omap. exists y. split; [done|congruence].
    + exfalso. apply Hva, list_elem_of_omap. exists x. split; [done|congruence].
  - destruct Hx as [->|Hx], Hy as [->|Hy]; auto; congruence.
Qed.

(** In a list without repetition an element is counted once. *)
Lemma length_filter_eq_NoDup (l : list B) (r : B) :
  NoDup l → length (filter (λ y, y = r) l) = if decide (r ∈ l) then 1 else 0.
Proof.
  induction l as [|b l IH]; intros Hnd; [done|].
  apply NoDup_cons in Hnd as [Hb Hnd]. rewrite filter_cons.
  destruct (decide (b = r)) as [->|Hne]; simpl; rewrite IH by done.
  - rewrite decide_False by done. rewrite decide_True by left. done.
  - destruct (decide (r ∈ l)) as [Hin|Hin].
    + rewrite decide_True by by right. done.
    + rewrite decide_False; [done|]. intros [->|?]%elem_of_cons; done.
Qed.
End Counting.

(** ** The rows of the related-papers query *)

Section Related.
Import Cypher Driver Statements.
Implicit Types (g : graph) (s : db) (p k r : nat).

Lemma unique_paper_ids_inj g p p' v :
  unique_paper_ids g →
  node_label g p = Some Label.Paper → node_label g p' = Some Label.Paper →
  prop g p "id" = Some v → prop g p' "id" = Some v → p = p'.
Proof.
  intros Hu Hl Hl' Hp Hp'.
  assert (Hv : ∀ q, node_label g q = Some Label.Paper → q ∈ node_ids g).
  { intros q Hq. apply elem_of_node_ids. unfold node_label in Hq.
    destruct (g_nodes g !! q) eqn:E; [|done]. by apply lookup_lt_Some in E. }
  eapply (NoDup_omap_inj _ _ p p' v Hu); auto.
  - by rewrite decide_True.
  - by rewrite decide_True.
Qed.

Lemma elem_of_papers_with g idv p :
  p ∈ papers_with g idv ↔ node_label g p = Some Label.Paper ∧ prop g p "id" = idv.
Proof.
  unfold papers_with. rewrite list_elem_of_filter, elem_of_node_ids.
  split; [tauto|]. intros [Hl ?]. split; [done|]. unfold node_label in Hl.
  destruct (g_nodes g !! p) eqn:E; [|done]. by apply lookup_lt_Some in E.
Qed.

Lemma elem_of_paper_id_match g pid p :
  p ∈ match_nodes Label.Paper [("id", VStr pid)] g
  ↔ node_label g p = Some Label.Paper ∧ prop g p "id" = Some (VStr pid).
Proof.
  rewrite elem_of_match_nodes, matches_at_alt, Forall_singleton. done.
Qed.

Lemma has_keyword_unique g p v k :
  unique_paper_ids g →
  node_label g p = Some Label.Paper → prop g p "id" = Some v →
  has_keyword g (Some v) k ↔ (p, HAS_KEYWORD, k) ∈ g_rels g.
Proof.
  intros Hu Hl Hp. unfold has_keyword. rewrite Exists_exists. split.
  - intros (p' & [Hl' Hp']%elem_of_papers_with & Hrel).
    by rewrite (unique_paper_ids_inj g p p' v).
  - intros Hrel. exists p. by rewrite elem_of_papers_with.
Qed.

Lemma elem_of_targets_with_label g a t l b :
  b ∈ targets_with_label g a t l ↔ (a, t, b) ∈ g_rels g ∧ node_label g b = Some l.
Proof.
  unfold targets_with_label. rewrite list_elem_of_filter, elem_of_node_ids.
  split; [tauto|]. intros [? Hl]. split; [done|]. unfold node_label in Hl.
  destruct (g_nodes g !! b) eqn:E; [|done]. by apply lookup_lt_Some in E.
Qed.

Lemma elem_of_related_of g pid p k r :
  r ∈ related_of g pid p k
  ↔ r ≠ p ∧ (∃ v, prop g r "id" = Some v ∧ v ≠ VStr pid)
    ∧ (r, HAS_KEYWORD, k) ∈ g_rels g ∧ node_label g r = Some Label.Paper.
Proof.
  unfold related_of. rewrite list_elem_of_filter, elem_of_sources_of.
  unfold holds, cy_neq. destruct (prop g r "id") as [v|]; split.
  - intros ([? [= Hv]] & ? & ?). apply bool_decide_eq_true in Hv. eauto 10.
  - intros (? & (v' & [= <-] & Hv) & ? & ?).
    split_and!; try done. f_equal. by apply bool_decide_eq_true.
  - intros ([_ [=]] & _).
  - intros (_ & (v' & [=] & _) & _).
Qed.

Lemma NoDup_related_of g pid p k : NoDup (related_of g pid p k).
Proof. apply NoDup_filter, NoDup_filter, NoDup_node_ids. Qed.

Lemma elem_of_related_rows g pid p k r :
  (p, k, r) ∈ DBAgent.related_rows pid g
  ↔ p ∈ match_nodes Label.Paper [("id", VStr pid)] g
    ∧ k ∈ targets_with_label g p HAS_KEYWORD Label.Keyword
    ∧ r ∈ related_of g pid p k.
Proof.
  unfold DBAgent.related_rows. fold (related_of g pid).
  rewrite list_elem_of_bind. split.
  - intros (p' & Hin & Hp'). apply list_elem_of_bind in Hin as (k' & Hin & Hk').
    apply list_elem_of_bind in Hin as (r' & Hin & Hr').
    apply list_elem_of_singleton in Hin. by simplify_eq.
  - intros (Hp & Hk & Hr). exists p. split; [|done].
    apply list_elem_of_bind. exists k. split; [|done].
    apply list_elem_of_bind. exists r. split; [|done].
    by apply list_elem_of_singleton.
Qed.

(** The rows of one [p]: each related paper is counted once per keyword it
    shares with [p]. *)
Lemma count_rows_of g pid p r ks :
  length (filter (λ row : nat * nat * nat, row.2 = r)
            (ks ≫= λ k, related_of g pid p k ≫= λ r', [(p, k, r')]))
  = length (filter (λ k, r ∈ related_of g pid p k) ks).
Proof.
  induction ks as [|k ks IH]; [done|]. csimpl.
  rewrite filter_app, length_app, IH, filter_cons.
  assert (Hk : length (filter (λ row : nat * nat * nat, row.2 = r)
                         (related_of g pid p k ≫= λ r', [(p, k, r')]))
               = if decide (r ∈ related_of g pid p k) then 1 else 0).
  { rewrite <- (length_filter_eq_NoDup _ r (NoDup_related_of g pid p k)).
    induction (related_of g pid p k) as [|r' l IHl]; [done|]. csimpl.
    rewrite !filter_cons. simpl.
    destruct (decide (r' = r)); simpl; by rewrite IHl. }
  rewrite Hk. by destruct (decide (r ∈ related_of g pid p k)).
Qed.

(** [count(k)] is the number of shared Keyword nodes when ids are unique. *)
Lemma count_common_shared g pid r c :
  unique_paper_ids g →
  (r, c) ∈ DBAgent.count_common (DBAgent.related_rows pid g) →
  (∃ v, prop g r "id" = Some v ∧ v ≠ VStr pid)
  ∧ node_label g r = Some Label.Paper
  ∧ c = shared_keywords g (Some (VStr pid)) (prop g r "id").
Proof.
  intros Hu Hrc. unfold DBAgent.count_common in Hrc.
  apply list_elem_of_fmap in Hrc as (r' & [= <- ->] & Hr).
  rewrite elem_of_distinct in Hr.
  apply list_elem_of_fmap in Hr as ([[p0 k0] r'] & -> & Hrow). simpl.
  apply elem_of_related_rows in Hrow as (Hp0 & Hk0 & Hr0).
  apply elem_of_related_of in Hr0 as (Hne & (v & Hv & Hvne) & Hrel0 & Hl).
  split; [eauto|]. split; [done|].
  apply elem_of_paper_id_match in Hp0 as Hp0'. destruct Hp0' as [Hlp0 Hidp0].
  assert (HP0 : match_nodes Label.Paper [("id", VStr pid)] g = [p0]).
  { pose proof (NoDup_match_nodes Label.Paper [("id", VStr pid)] g) as Hnd.
    destruct (match_nodes Label.Paper [("id", VStr pid)] g) as [|a [|b l]] eqn:E.
    - by apply elem_of_nil in Hp0.
    - by apply list_elem_of_singleton in Hp0 as ->.
    - exfalso. apply NoDup_cons in Hnd as [Hab _]. apply Hab.
      assert (Ha : a ∈ match_nodes Label.Paper [("id", VStr pid)] g)
        by (rewrite E; left).
      assert (Hb : b ∈ match_nodes Label.Paper [("id", VStr pid)] g)
        by (rewrite E; right; left).
      apply elem_of_paper_id_match in Ha as [??], Hb as [??].
      assert (a = b) as -> by by eapply unique_paper_ids_inj.
      left. }
  unfold DBAgent.related_rows. fold (related_of g pid). rewrite HP0. csimpl.
  rewrite app_nil_r.
  etrans; [apply (count_rows_of g pid p0 r'
                    (targets_with_label g p0 HAS_KEYWORD Label.Keyword))|].
  unfold targets_with_label. rewrite list_filter_filter.
  unfold shared_keywords. f_equal. apply filter_ext_in. intros k _.
  rewrite (has_keyword_unique g p0 (VStr pid) k Hu Hlp0 Hidp0).
  rewrite Hv, (has_keyword_unique g r' v k Hu Hl Hv).
  rewrite elem_of_related_of. split.
  - intros ((_ & _ & ? & _) & ? & ?). done.
  - intros (? & ? & ?). split_and!; eauto.
Qed.
End Related.

(** ** The related-papers query *)

Section Related_query.
Import Cypher Driver Statements.
Implicit Types (g : graph) (s : db).

Lemma rec_id_record_of_group g rows key :
  rec_id (record_of_group g rows key) = key.1.1.1.1.
Proof. by destruct key as [[[[i t] sm] y] u]. Qed.

(** The server only chooses the order of the groups. *)
Lemma emitted_Permutation rank groups : emitted rank groups ≡ₚ groups.
Proof. apply merge_sort_Permutation. Qed.

Lemma count_common_positive (rows : list (nat * nat * nat)) r c :
  (r, c) ∈ DBAgent.count_common rows → 1 ≤ c.
Proof.
  unfold DBAgent.count_common. intros (r' & [= <- ->] & Hr)%list_elem_of_fmap.
  rewrite elem_of_distinct in Hr.
  apply list_elem_of_fmap in Hr as (row & -> & Hrow).
  assert (Hin : row ∈ filter (λ r0 : nat * nat * nat, r0.2 = row.2) rows).
  { by apply list_elem_of_filter. }
  destruct (filter _ rows); [by apply elem_of_nil in Hin|simpl; lia].
Qed.

(** Whatever the order in which the server emits them, the records of the
    related papers never carry the queried id, are at most [limit], and each
    stands for a paper that shares a keyword with the queried one. *)
Lemma related_papers_query_sound rank pid limit g out :
  unique_paper_ids g →
  DBAgent.related_papers_query rank pid limit g = Ret out →
  Forall (λ r, rec_id r ≠ Some (VStr pid)) out
  ∧ (Z.of_nat (length out) ≤ limit)%Z
  ∧ Forall (λ r, 1 ≤ shared_keywords g (Some (VStr pid)) (rec_id r)) out.
Proof.
  intros Hu. unfold DBAgent.related_papers_query, limit_rows.
  destruct (decide (limit < 0)%Z) as [|Hlim]; [done|].
  unfold mbind at 1, outcome_bind.
  set (counted := DBAgent.count_common (DBAgent.related_rows pid g)).
  set (top := take (Z.to_nat limit) (merge_sort DBAgent.by_count_desc counted)).
  set (rows1 := top ≫= (λ r, _ ≫= (λ a, [(r.1, a)]))).
  set (rows := rows1 ≫= _).
  intros [= <-].
  assert (Htop : ∀ x, x ∈ top →
            (∃ v, prop g x.1 "id" = Some v ∧ v ≠ VStr pid)
            ∧ x.2 = shared_keywords g (Some (VStr pid)) (prop g x.1 "id")
            ∧ 1 ≤ x.2).
  { intros [r c] Hx. eapply elem_of_sublist in Hx; [|apply sublist_take].
    rewrite merge_sort_Permutation in Hx.
    destruct (count_common_shared g pid r c Hu Hx) as (? & _ & ?).
    apply count_common_positive in Hx. done. }
  assert (Hrows1 : ∀ y, y ∈ rows1 → ∃ x, x ∈ top ∧ y.1 = x.1).
  { intros y Hy. apply list_elem_of_bind in Hy as (x & Hy & Hx).
    apply list_elem_of_bind in Hy as (a & Hy & _).
    apply list_elem_of_singleton in Hy as ->. eauto. }
  assert (Hrows : ∀ row, row ∈ rows → ∃ y, y ∈ rows1 ∧ row_p row = y.1).
  { intros row Hrow. apply list_elem_of_bind in Hrow as (y & Hrow & Hy).
    apply list_elem_of_bind in Hrow as (k & Hrow & _).
    apply list_elem_of_singleton in Hrow as ->. eauto. }
  assert (Hrec : ∀ r, r ∈ emitted rank (aggregate g rows) →
            ∃ x, x ∈ top ∧ rec_id r = prop g x.1 "id").
  { intros r Hr. rewrite emitted_Permutation in Hr.
    apply elem_of_aggregate in Hr as (row & Hrow & ->).
    rewrite rec_id_record_of_group. simpl.
    destruct (Hrows row Hrow) as (y & Hy & ->).
    destruct (Hrows1 y Hy) as (x & Hx & ->). eauto. }
  split_and!.
  - apply Forall_forall. intros r (x & Hx & ->)%Hrec.
    destruct (Htop x Hx) as [(v & -> & Hv) _]. congruence.
  - rewrite emitted_Permutation. unfold aggregate. rewrite length_fmap.
    trans (Z.of_nat (length top)).
    + apply inj_le.
      rewrite <- (length_fmap (paper_key g ∘ fst) top).
      apply submseteq_length, NoDup_submseteq; [apply NoDup_distinct|].
      intros key Hkey. rewrite elem_of_distinct in Hkey.
      apply list_elem_of_fmap in Hkey as (row & -> & Hrow).
      destruct (Hrows row Hrow) as (y & Hy & Hrp).
      destruct (Hrows1 y Hy) as (x & Hx & Hyx).
      apply list_elem_of_fmap. exists x. split; [|done]. simpl. congruence.
    + unfold top. rewrite length_take. lia.
  - apply Forall_forall. intros r (x & Hx & ->)%Hrec.
    destruct (Htop x Hx) as (_ & <- & ?). done.
Qed.

Lemma get_related_papers_tx_inv srv pid limit s out s' :
  DBAgent._get_related_papers_tx srv pid limit s = (Ret out, s') →
  DBAgent.related_papers_query (group_rank srv) pid limit (graph_of s) = Ret out
  ∧ graph_of s' = graph_of s.
Proof.
  unfold DBAgent._get_related_papers_tx, run.
  destruct (fault srv RunQuery); [done|].
  destruct (DBAgent.related_papers_query _ _ _ _) as [rs|e]; simpl; [|done].
  by intros [= <- <-].
Qed.

(** Claim C5 on the three papers of the library, for a server that emits
    the record of "2401.00002" first: the paper that shares one keyword with
    "2401.00001" comes before the one that shares two. The [ORDER BY] of the
    query sorts the rows of its [WITH]; the aggregating [RETURN] that follows
    is left to the order of the server. *)
Theorem related_papers_order_is_not_kept :
  ∃ out,
    DBAgent._get_related_papers_tx Fixtures.regrouping "2401.00001" 5
      Fixtures.library = (Ret out, Fixtures.library)
    ∧ (λ r, (rec_id r,
             shared_keywords (graph_of Fixtures.library)
               (Some (VStr "2401.00001")) (rec_id r))) <$> out
      = [(Some (VStr "2401.00002"), 1); (Some (VStr "2401.00003"), 2)]
    ∧ ¬ StronglySorted
          (most_shared_first (graph_of Fixtures.library) "2401.00001") out.
Proof.
  eexists. split; [vm_compute; reflexivity|].
  split; [vm_compute; reflexivity|].
  intros Hs. apply StronglySorted_inv in Hs as [_ Hs].
  apply Forall_inv in Hs. unfold most_shared_first in Hs.
  vm_compute in Hs. lia.
Qed.

(** On a server that emits the groups in the order of their first rows the
    same query lists the paper sharing two keywords first. *)
Example related_to_quantum_a_found :
  (λ r, (rec_id r,
         shared_keywords (graph_of Fixtures.library) (Some (VStr "2401.00001"))
           (rec_id r)))
  <$> Fixtures.related_to_quantum_a
  = [(Some (VStr "2401.00003"), 2); (Some (VStr "2401.00002"), 1)].
Proof. vm_compute. reflexivity. Qed.

Lemma get_related_papers_tx_returns srv pid limit s :
  fault srv RunQuery = None → (0 ≤ limit)%Z →
  ∃ out, DBAgent._get_related_papers_tx srv pid limit s = (Ret out, s).
Proof.
  intros Hok Hlim. unfold DBAgent._get_related_papers_tx, run. rewrite Hok.
  unfold DBAgent.related_papers_query, limit_rows.
  rewrite decide_False by lia. simpl. destruct s. eauto.
Qed.
End Related_query.

(** ** Distinct paper ids are kept by the stores *)

Section Unique_ids.
Import Cypher Driver Statements.
Implicit Types (g : graph) (s : db).

Lemma NoDup_omap_2 {A B} (f : A → option B) (l : list A) :
  NoDup l →
  (∀ x y v, x ∈ l → y ∈ l → f x = Some v → f y = Some v → x = y) →
  NoDup (omap f l).
Proof.
  induction l as [|a l IH]; intros Hnd Hinj; simpl; [constructor|].
  apply NoDup_cons in Hnd as [Ha Hnd].
  assert (IH' : NoDup (omap f l)).
  { apply IH; [done|]. intros x y v Hx Hy. apply Hinj; by right. }
  destruct (f a) as [v|] eqn:Hfa; [|done].
  apply NoDup_cons. split; [|done].
  intros (x & Hx & Hfx)%list_elem_of_omap. apply Ha.
  rewrite (Hinj a x v); [done|by left|by right|done|done].
Qed.

Lemma unique_paper_ids_alt g :
  unique_paper_ids g
  ↔ ∀ v, length (match_nodes Label.Paper [("id", v)] g) ≤ 1.
Proof.
  split.
  - intros Hu v.
    pose proof (NoDup_match_nodes Label.Paper [("id", v)] g) as Hnd.
    destruct (match_nodes Label.Paper [("id", v)] g) as [|a [|b l]] eqn:E;
      simpl; [lia|lia|]. exfalso.
    assert (Ha : a ∈ match_nodes Label.Paper [("id", v)] g) by (rewrite E; left).
    assert (Hb : b ∈ match_nodes Label.Paper [("id", v)] g)
      by (rewrite E; right; left).
    rewrite elem_of_match_nodes, matches_at_alt, Forall_singleton in Ha, Hb.
    destruct Ha as [??], Hb as [??].
    assert (a = b) as -> by by eapply unique_paper_ids_inj.
    apply NoDup_cons in Hnd as [Hab _]. apply Hab. left.
  - intros Hone. apply NoDup_omap_2; [apply NoDup_node_ids|].
    intros x y v _ _ Hx Hy.
    destruct (decide (node_label g x = Some Label.Paper)); [|done].
    destruct (decide (node_label g y = Some Label.Paper)); [|done].
    assert (Hx' : x ∈ match_nodes Label.Paper [("id", v)] g).
    { by rewrite elem_of_match_nodes, matches_at_alt, Forall_singleton. }
    assert (Hy' : y ∈ match_nodes Label.Paper [("id", v)] g).
    { by rewrite elem_of_match_nodes, matches_at_alt, Forall_singleton. }
    specialize (Hone v).
    destruct (match_nodes Label.Paper [("id", v)] g) as [|a [|b l]];
      simpl in Hone; [by apply elem_of_nil in Hx'| |lia].
    apply list_elem_of_singleton in Hx', Hy'. congruence.
Qed.

Lemma unique_paper_ids_empty : unique_paper_ids Cypher.empty.
Proof. constructor. Qed.

Lemma upsert_keeps_unique g g' pid :
  match_nodes Label.Paper [("id", VStr pid)] g'
  = (if decide (match_nodes Label.Paper [("id", VStr pid)] g = [])
     then [length (g_nodes g)]
     else match_nodes Label.Paper [("id", VStr pid)] g) →
  (∀ v, v ≠ VStr pid →
     match_nodes Label.Paper [("id", v)] g'
     = match_nodes Label.Paper [("id", v)] g) →
  unique_paper_ids g → unique_paper_ids g'.
Proof.
  rewrite !unique_paper_ids_alt. intros Hm Ho Hu v.
  destruct (decide (v = VStr pid)) as [->|Hv].
  - rewrite Hm. destruct (decide (_ = [])); [simpl; lia|apply Hu].
  - rewrite Ho by done. apply Hu.
Qed.

Lemma dbagent_store_paper_graph srv paper s :
  graph_of (state_of (DBAgent.store_paper srv paper s)) = graph_of s
  ∨ graph_of (state_of (DBAgent.store_paper srv paper s))
    = (DBAgent.create_paper_query (DBAgent.id paper) (DBAgent.title paper)
         (DBAgent.summary paper) (DBAgent.year paper) (DBAgent.url paper)
         (DBAgent.authors paper) (default [] (DBAgent.keywords paper))
         (clock srv) (graph_of s)).1.
Proof.
  unfold DBAgent.store_paper, DBAgent._create_paper_tx, with_session, execute,
    try_finally, reach, run, log, try_except, modify, mbind, M_bind, mret,
    M_ret, state_of.
  destruct (DBAgent.create_paper_query _ _ _ _ _ _ _ _ _) as [g' rows] eqn:Hq.
  repeat case_match; simplify_eq; simpl; first [by left|right; congruence].
Qed.

(** Storing a paper keeps the ids of the Paper nodes distinct, whatever
    the server does. *)
Lemma dbagent_store_paper_keeps_unique srv paper s :
  unique_paper_ids (graph_of s) →
  unique_paper_ids (graph_of (state_of (DBAgent.store_paper srv paper s))).
Proof.
  intros Hu. destruct (dbagent_store_paper_graph srv paper s) as [->| ->];
    [done|].
  destruct (dbagent_create_paper_query_spec (DBAgent.id paper)
              (DBAgent.title paper) (DBAgent.summary paper)
              (DBAgent.year paper) (DBAgent.url paper) (DBAgent.authors paper)
              (default [] (DBAgent.keywords paper)) (clock srv) (graph_of s))
    as (Hm & _ & Ho).
  by eapply upsert_keeps_unique.
Qed.
Lemma handler_store_paper_graph srv paper s :
  graph_of (state_of (Neo4jHandler.store_paper srv paper s)) = graph_of s
  ∨ ∃ g', Neo4jHandler.create_paper_query (Schemas.id paper)
            (Schemas.title paper) (Schemas.abstract paper) (Schemas.year paper)
            (Schemas.url paper) (Schemas.full_text paper) (Schemas.authors paper)
            [] (Schemas.images paper) (clock srv) (graph_of s) = Ret (g', [])
          ∧ graph_of (state_of (Neo4jHandler.store_paper srv paper s)) = g'.
Proof.
  destruct (handler_create_paper_query_spec (Schemas.id paper)
              (Schemas.title paper) (Schemas.abstract paper)
              (Schemas.year paper) (Schemas.url paper)
              (Schemas.full_text paper) (Schemas.authors paper)
              (Schemas.images paper) (clock srv) (graph_of s))
    as (g' & Hq & _).
  unfold Neo4jHandler.store_paper, Neo4jHandler._sync_store_paper,
    Neo4jHandler._create_paper_tx, with_session, execute,
    try_finally, reach, run, log, try_except, modify, mbind, M_bind, mret,
    M_ret, state_of.
  rewrite Hq.
  repeat case_match; simplify_eq; simpl;
    first [by left|right; exists g'; split; [done|congruence]].
Qed.

Lemma handler_store_paper_keeps_unique srv paper s :
  unique_paper_ids (graph_of s) →
  unique_paper_ids (graph_of (state_of (Neo4jHandler.store_paper srv paper s))).
Proof.
  intros Hu.
  destruct (handler_store_paper_graph srv paper s) as [->|(g' & Hq & ->)];
    [done|].
  destruct (handler_create_paper_query_spec (Schemas.id paper)
              (Schemas.title paper) (Schemas.abstract paper)
              (Schemas.year paper) (Schemas.url paper)
              (Schemas.full_text paper) (Schemas.authors paper)
              (Schemas.images paper) (clock srv) (graph_of s))
    as (g'' & Hq' & Hm & _ & Ho).
  rewrite Hq in Hq'. injection Hq' as <-. by eapply upsert_keeps_unique.
Qed.
End Unique_ids.

(* ===================================================================== *)
(** * Properties of the QA agent *)
(* ===================================================================== *)

(** Membership in a list that is written out. *)
Ltac in_list :=
  repeat match goal with
         | H : _ ∈ _ :: _ |- _ => apply elem_of_cons in H as [H|H]
         | H : _ ∈ [] |- _ => by apply elem_of_nil in H
         end;
  simplify_eq; auto.

(** Unfolds the monadic plumbing of a computation. *)
Ltac run_M :=
  unfold try_except, QA.emit, modify, call, raise, mbind, M_bind, mret, M_ret,
    get_state in *;
  simpl in *.

Section QA_properties.
Import Schemas QA Statements.

Lemma slice_to_length n s : String.length (slice_to n s) = n `min` String.length s.
Proof.
  unfold slice_to. revert s. induction n as [|n IH]; intros [|c s]; simpl; auto.
Qed.

Lemma slice_to_prefix n s : String.prefix (slice_to n s) s = true.
Proof.
  unfold slice_to. revert s.
  induction n as [|n IH]; intros [|c s]; simpl; auto.
  destruct (Ascii.ascii_dec c c); [apply IH | done].
Qed.

(** [_generate_answer] never raises. *)
Lemma generate_answer_returns eng q ctx t :
  ∃ a t', _generate_answer eng q ctx t = (Ret a, t').
Proof.
  unfold _generate_answer, _generate_answer_try. run_M.
  repeat case_match; simplify_eq; eauto.
Qed.

(** What [_generate_answer] does with the engines: the events it adds. *)
Lemma generate_answer_events eng q ctx t :
  ∃ new, state_of (_generate_answer eng q ctx t) = t ++ new
    ∧ (∀ p, TokenizerEncode p ∈ new → p = prompt_of q)
    ∧ (∀ ids n, LlmGenerate ids n ∈ new →
         tokenizer_encode eng (prompt_of q) = Ret ids)
    ∧ (∀ q' c, QaPipelineCall q' c ∈ new → q' = q ∧ c = slice_to 500 ctx).
Proof.
  unfold _generate_answer, _generate_answer_try, state_of. run_M.
  repeat case_match; simplify_eq; simpl;
    rewrite <- ?(assoc_L (++)); simpl;
    (eexists; split; [reflexivity|]);
    repeat split; intros; in_list.
Qed.

(** Claim C1, as the code has it. [_generate_answer] always returns, and it
    first calls the extractive pipeline with the question and the first 500
    characters of the context. If that call returns, the tokenizer, and after
    it the language model, are given ["Question: <question>\nAnswer:"],
    built from the question alone: the context is no part of it. When every
    call succeeds the answer is the generated text after the length of the
    prompt, stripped, and its confidence is the score of the pipeline (0.0
    when it has none); when a call raises the answer is the fixed failure
    answer with confidence 0.0. *)
Theorem generate_answer_prompt_ignores_context eng q ctx t :
  ∃ a new,
    _generate_answer eng q ctx t = (Ret a, t ++ new)
    ∧ (∀ p, TokenizerEncode p ∈ new → p = "Question: " +:+ q +:+ nl +:+ "Answer:")
    ∧ (∀ ids n, LlmGenerate ids n ∈ new →
         tokenizer_encode eng ("Question: " +:+ q +:+ nl +:+ "Answer:") = Ret ids)
    ∧ (∀ q' c, QaPipelineCall q' c ∈ new → q' = q ∧ c = slice_to 500 ctx)
    ∧ QaPipelineCall q (slice_to 500 ctx) ∈ new
    ∧ match qa_pipeline eng q (slice_to 500 ctx) with
      | Raise _ =>
          a = {| text := "Failed to generate answer"; confidence := 0.0%float |}
      | Ret res =>
          TokenizerEncode ("Question: " +:+ q +:+ nl +:+ "Answer:") ∈ new
          ∧ match tokenizer_encode eng
                    ("Question: " +:+ q +:+ nl +:+ "Answer:") with
            | Raise _ =>
                a = {| text := "Failed to generate answer";
                       confidence := 0.0%float |}
            | Ret ids =>
                LlmGenerate ids 150 ∈ new
                ∧ match llm_generate eng ids with
                  | Ret (o :: _) =>
                      match tokenizer_decode eng o with
                      | Ret generated =>
                          a = {| text :=
                                   strip (slice_from
                                            (String.length
                                               ("Question: " +:+ q +:+ nl
                                                +:+ "Answer:"))
                                            generated);
                                 confidence := default 0.0%float (score res) |}
                      | Raise _ =>
                          a = {| text := "Failed to generate answer";
                                 confidence := 0.0%float |}
                      end
                  | _ =>
                      a = {| text := "Failed to generate answer";
                             confidence := 0.0%float |}
                  end
            end
      end.
Proof.
  change ("Question: " +:+ q +:+ nl +:+ "Answer:") with (prompt_of q).
  unfold _generate_answer, _generate_answer_try. run_M.
  destruct (qa_pipeline eng q (slice_to 500 ctx)) as [res|e1]; simpl.
  2: { eexists _, [QaPipelineCall q (slice_to 500 ctx);
                   LogError ("Error generating answer: " +:+ str e1)].
       rewrite <- !(assoc_L (++)). split; [reflexivity|].
       split_and!; try done; intros; in_list. apply list_elem_of_here. }
  destruct (tokenizer_encode eng (prompt_of q)) as [ids|e2] eqn:Henc; simpl.
  2: { eexists _, [QaPipelineCall q (slice_to 500 ctx);
                   TokenizerEncode (prompt_of q);
                   LogError ("Error generating answer: " +:+ str e2)].
       rewrite <- !(assoc_L (++)). split; [reflexivity|].
       split_and!; try done; intros; in_list;
         repeat first [apply list_elem_of_here|apply list_elem_of_further]. }
  destruct (llm_generate eng ids) as [[|o os]|e3]; simpl.
  - eexists _, [QaPipelineCall q (slice_to 500 ctx);
                TokenizerEncode (prompt_of q);
                LlmGenerate ids 150; LogError _].
    rewrite <- !(assoc_L (++)). split; [reflexivity|].
    split_and!; try done; intros; in_list;
      repeat first [apply list_elem_of_here|apply list_elem_of_further].
  - destruct (tokenizer_decode eng o) as [generated|e4]; simpl.
    + eexists _, [QaPipelineCall q (slice_to 500 ctx);
                  TokenizerEncode (prompt_of q);
                  LlmGenerate ids 150; TokenizerDecode o].
      rewrite <- !(assoc_L (++)). split; [reflexivity|].
      split_and!; try done; intros; in_list;
        repeat first [apply list_elem_of_here|apply list_elem_of_further].
    + eexists _, [QaPipelineCall q (slice_to 500 ctx);
                  TokenizerEncode (prompt_of q);
                  LlmGenerate ids 150; TokenizerDecode o;
                  LogError ("Error generating answer: " +:+ str e4)].
      rewrite <- !(assoc_L (++)). split; [reflexivity|].
      split_and!; try done; intros; in_list;
        repeat first [apply list_elem_of_here|apply list_elem_of_further].
  - eexists _, [QaPipelineCall q (slice_to 500 ctx);
                TokenizerEncode (prompt_of q);
                LlmGenerate ids 150;
                LogError ("Error generating answer: " +:+ str e3)].
    rewrite <- !(assoc_L (++)). split; [reflexivity|].
    split_and!; try done; intros; in_list;
      repeat first [apply list_elem_of_here|apply list_elem_of_further].
Qed.

(** With engines that answer, the prompt is sent and the confidence is the
    score of the pipeline. *)
Lemma generate_answer_prompt_ignores_context_witness :
  ∃ a new,
    _generate_answer Fixtures.answering "What is new?" "We prove a bound." []
    = (Ret a, new)
    ∧ TokenizerEncode ("Question: What is new?" +:+ nl +:+ "Answer:") ∈ new
    ∧ a = {| text := "a bound."; confidence := 0.5%float |}.
Proof.
  destruct (generate_answer_prompt_ignores_context Fixtures.answering
              "What is new?" "We prove a bound." [])
    as (a & new & Hrun & _ & _ & _ & _ & Hsent & _ & Ha).
  exists a, new. split; [exact Hrun|]. split; [exact Hsent|exact Ha].
Defined.

(** Claim C1 fails for the question "What is new?" over the context
    "We prove a bound.": the prompt is sent and does not contain the
    context. *)
Lemma generate_answer_prompt_lacks_context :
  TokenizerEncode ("Question: What is new?" +:+ nl +:+ "Answer:")
    ∈ state_of (_generate_answer Fixtures.answering "What is new?"
                  "We prove a bound." [])
  ∧ str_in "We prove a bound." ("Question: What is new?" +:+ nl +:+ "Answer:")
    = false
  ∧ ¬ prompt_includes_context Fixtures.answering "What is new?"
        "We prove a bound.".
Proof.
  assert (Hin : TokenizerEncode ("Question: What is new?" +:+ nl +:+ "Answer:")
    ∈ state_of (_generate_answer Fixtures.answering "What is new?"
                  "We prove a bound." [])).
  { vm_compute. do 1 apply list_elem_of_further. apply list_elem_of_here. }
  split; [exact Hin|]. split; [reflexivity|].
  intros H. specialize (H _ Hin). vm_compute in H. discriminate.
Qed.

(** Claim C7. When the [try] block of [_generate_answer] raises, whatever the
    exception and whichever call raised it, [_generate_answer] logs it and
    returns the fixed answer with confidence 0.0. *)
Theorem generate_answer_degrades eng q ctx t e t' :
  _generate_answer_try eng q ctx t = (Raise e, t') →
  _generate_answer eng q ctx t
  = (Ret {| text := "Failed to generate answer"; confidence := 0.0%float |},
     t' ++ [LogError ("Error generating answer: " +:+ str e)]).
Proof.
  intros H. unfold _generate_answer, try_except. rewrite H. reflexivity.
Qed.

Lemma generate_answer_degrades_witness :
  _generate_answer Fixtures.out_of_memory "What is new?" "We prove a bound." []
  = (Ret {| text := "Failed to generate answer"; confidence := 0.0%float |},
     [QaPipelineCall "What is new?" "We prove a bound.";
      TokenizerEncode ("Question: What is new?" +:+ nl +:+ "Answer:");
      LlmGenerate [1; 2; 3]%Z 150]
     ++ [LogError ("Error generating answer: "
                   +:+ str (LibraryError "RuntimeError" "CUDA out of memory"))]).
Proof.
  apply (generate_answer_degrades Fixtures.out_of_memory "What is new?"
           "We prove a bound." []).
  reflexivity.
Defined.

(** The single-paper path always hands the abstract to the generation. *)
Lemma single_paper_context eng p q t r t' :
  answer_question eng [p] q t = (Ret r, t') →
  abstract p ≠ ""
  ∧ context_used r = slice_to 1000 (abstract p)
  ∧ ∃ new, t' = t ++ new
      ∧ ∀ q' c, QaPipelineCall q' c ∈ new → c = slice_to 500 (abstract p).
Proof.
  unfold answer_question, _process_paper. simpl.
  destruct q as [|c0 q]; simpl; [run_M; discriminate|].
  destruct (abstract p) as [|c1 a] eqn:Ha; simpl; [run_M; discriminate|].
  destruct (generate_answer_returns eng (String c0 q) (String c1 a) t)
    as (ans & t1 & Hgen).
  destruct (generate_answer_events eng (String c0 q) (String c1 a) t)
    as (new & Hst & _ & _ & Hqa).
  unfold state_of in Hst. rewrite Hgen in Hst. simpl in Hst. subst t1.
  unfold try_except, mbind, M_bind. rewrite Hgen. simpl.
  intros [= <- <-]. split; [done|]. split; [done|].
  exists new. split; [done|]. intros q' c Hin. by apply Hqa in Hin as [_ ->].
Qed.

(** A paper without full text but with an abstract is answered from the
    abstract, without raising. *)
Lemma abstract_only_is_answered eng p q t :
  full_text p = None → abstract p ≠ "" → q ≠ "" →
  ∃ r t', answer_question eng [p] q t = (Ret r, t')
          ∧ context_used r = slice_to 1000 (abstract p).
Proof.
  intros _ Ha Hq. unfold answer_question, _process_paper. simpl.
  destruct q as [|c0 q]; [done|]. destruct (abstract p) as [|c1 a]; [done|].
  simpl.
  destruct (generate_answer_returns eng (String c0 q) (String c1 a) t)
    as (ans & t1 & Hgen).
  unfold try_except, mbind, M_bind. rewrite Hgen. simpl. eauto.
Qed.

(** Claim C2 on a paper that has both: the first definition of [_process_paper]
    would start from the full text, the one in force answers from the
    abstract. *)
Lemma full_text_is_not_used :
  _process_paper_shadowed_content Fixtures.extracted
  = "Section 1. Introduction. Section 2. The bound."
  ∧ ∃ r t, answer_question Fixtures.answering [Fixtures.extracted]
             "What is new?" [] = (Ret r, t)
           ∧ QaPipelineCall "What is new?" "We prove a bound." ∈ t
           ∧ context_used r = "We prove a bound."
           ∧ excerpt <$> sources r = ["We prove a bound...."].
Proof.
  split; [reflexivity|]. eexists _, _. split; [vm_compute; reflexivity|].
  split; [apply list_elem_of_here|]. split; reflexivity.
Qed.

(** Claim C6. With no paper or no question, [QAAgent.answer_question] raises its
    [ValueError] at once: no engine is called, nothing is logged. The
    endpoint turns down the same requests with status 422, again before any
    engine call, and the failure is what the caller receives. *)
Theorem empty_request_fails_validation eng papers q t :
  papers = [] ∨ q = "" →
  answer_question eng papers q t
  = (Raise (ValueError "Papers list and question cannot be empty"), t)
  ∧ Api.answer_question eng {| paper := papers; question := q |} t
    = (Raise (HTTPException 422 "Both paper_ids and question are required"),
       t ++ [LogError "Answer error: Both paper_ids and question are required"]).
Proof.
  intros H. unfold Api.answer_question, answer_question. simpl.
  destruct H as [-> | ->]; simpl.
  - done.
  - destruct papers; done.
Qed.

Lemma empty_request_fails_validation_witness :
  answer_question Fixtures.answering [] "What is new?" []
  = (Raise (ValueError "Papers list and question cannot be empty"), [])
  ∧ Api.answer_question Fixtures.answering
      {| paper := []; question := "What is new?" |} []
    = (Raise (HTTPException 422 "Both paper_ids and question are required"),
       [] ++ [LogError "Answer error: Both paper_ids and question are required"]).
Proof.
  apply (empty_request_fails_validation Fixtures.answering [] "What is new?" []).
  left. reflexivity.
Defined.

(** Claim C10. Whenever [answer_question] returns, the contexts it selected (the
    one of the single paper, or the three best ranked) and their combined
    text determine the response: each source carries the first 200
    characters of its context followed by "...", and [context_used] is the
    first 1000 characters of the combined context. *)
Theorem response_is_truncated eng papers q t r t' :
  answer_question eng papers q t = (Ret r, t') →
  ∃ contexts combined,
    sources r = source_of <$> contexts
    ∧ Forall2 (λ c s, excerpt s = slice_to 200 (ctx_text c) +:+ "...")
        contexts (sources r)
    ∧ context_used r = slice_to 1000 combined
    ∧ ((∃ p c, papers = [p] ∧ _process_paper p q = Some c
               ∧ contexts = [c] ∧ combined = ctx_text c)
       ∨ (length papers ≠ 1
          ∧ ∃ ranked, rank_contexts_engine eng (_gather_contexts papers q) q
                      = Ret ranked
              ∧ contexts = take 3 ranked
              ∧ combined = _combine_contexts contexts)).
Proof.
  unfold answer_question.
  destruct (negb (truthy_list papers) || negb (truthy_str q)) eqn:Hv;
    [run_M; discriminate|].
  assert (Hfmt : ∀ cs, Forall2 (λ c s, excerpt s = slice_to 200 (ctx_text c) +:+ "...")
                         cs (source_of <$> cs)).
  { induction cs; constructor; auto. }
  destruct papers as [|p [|p' rest]]; [done| |].
  - destruct (_process_paper p q) as [c|] eqn:Hc; [|run_M; discriminate].
    destruct (generate_answer_returns eng q (ctx_text c) t) as (a & t1 & Hgen).
    unfold try_except, mbind, M_bind. rewrite Hgen. simpl.
    intros [= <- <-]. exists [c], (ctx_text c). simpl.
    split; [done|]. split; [by repeat constructor|]. split; [done|].
    left. exists p, c. done.
  - remember (_gather_contexts (p :: p' :: rest) q) as cs eqn:Hcs.
    unfold rank_contexts, try_except, mbind, M_bind, emit, modify, call.
    destruct (rank_contexts_engine eng cs q) as [ranked|e] eqn:Hr;
      [|discriminate].
    destruct (generate_answer_returns eng q (_combine_contexts (take 3 ranked))
                (t ++ [RankContexts (length cs) q]))
      as (a & t1 & Hgen).
    rewrite Hgen. unfold mret, M_ret.
    intros [= <- <-]. exists (take 3 ranked), (_combine_contexts (take 3 ranked)).
    split; [done|]. split; [apply Hfmt|]. split; [done|].
    right. split; [done|]. eauto.
Qed.

Lemma response_is_truncated_witness :
  ∃ contexts combined,
    sources (_format_response
               {| text := "a bound."; confidence := 0.5%float |}
               [{| paper_id := "2401.00002"; ctx_title := "Graphs";
                   ctx_text := "We study graphs."; ctx_year := 2023;
                   ctx_context := None |}] "We study graphs.")
    = source_of <$> contexts
    ∧ Forall2 (λ c s, excerpt s = slice_to 200 (ctx_text c) +:+ "...")
        contexts
        (sources (_format_response
               {| text := "a bound."; confidence := 0.5%float |}
               [{| paper_id := "2401.00002"; ctx_title := "Graphs";
                   ctx_text := "We study graphs."; ctx_year := 2023;
                   ctx_context := None |}] "We study graphs."))
    ∧ context_used (_format_response
               {| text := "a bound."; confidence := 0.5%float |}
               [{| paper_id := "2401.00002"; ctx_title := "Graphs";
                   ctx_text := "We study graphs."; ctx_year := 2023;
                   ctx_context := None |}] "We study graphs.")
      = slice_to 1000 combined
    ∧ ((∃ p c, [Fixtures.abstract_only] = [p]
               ∧ _process_paper p "What is new?" = Some c
               ∧ contexts = [c] ∧ combined = ctx_text c)
       ∨ (length [Fixtures.abstract_only] ≠ 1
          ∧ ∃ ranked, rank_contexts_engine Fixtures.answering
                        (_gather_contexts [Fixtures.abstract_only] "What is new?")
                        "What is new?" = Ret ranked
              ∧ contexts = take 3 ranked
              ∧ combined = _combine_contexts contexts)).
Proof.
  apply (response_is_truncated Fixtures.answering [Fixtures.abstract_only]
           "What is new?" [] _
           [QaPipelineCall "What is new?" "We study graphs.";
            TokenizerEncode ("Question: What is new?" +:+ nl +:+ "Answer:");
            LlmGenerate [1; 2; 3]%Z 150;
            TokenizerDecode [1; 2; 3; 4]%Z]).
  vm_compute. reflexivity.
Defined.

(** The first definition of [_format_response] would have returned the
    whole texts: the two differ on every non-empty context list. *)
Lemma format_response_shadowed_differs a c cs combined :
  sources (_format_response a (c :: cs) combined)
  ≠ sources (_format_response_shadowed a (c :: cs) combined).
Proof. simpl. intros [= _ _]. Qed.

End QA_properties.

(* ===================================================================== *)
(** * Properties of the writing agent *)
(* ===================================================================== *)

Section FutureWorks_properties.
Import Schemas FutureWorks.

Lemma llm_generate_returns eng prompt l :
  ∃ text l', llm_generate eng prompt l = (Ret text, l').
Proof.
  unfold llm_generate, error. run_M. repeat case_match; simplify_eq; eauto.
Qed.

Lemma llm_generate_async_returns eng prompt l :
  ∃ text l', llm_generate_async eng prompt l = (Ret text, l').
Proof.
  unfold llm_generate_async, error, try_except, mbind, M_bind, call.
  destruct (run_in_executor eng) as [[]|e]; [|unfold modify, mret, M_ret; eauto].
  destruct (llm_generate_returns eng prompt l) as (text & l' & ->). eauto.
Qed.

(** Claim C9. Whatever the papers and whatever the engine generates or raises,
    [create_improvement_plan] returns, and the findings and the metrics of
    its result are the two fixed strings and the fixed dictionary of the
    placeholder. *)
Theorem improvement_plan_analysis_is_a_stub eng papers l :
  ∃ text l',
    create_improvement_plan eng papers l
    = (Ret {| improvement_plan := text;
              findings :=
                ["Finding 1: Enhanced methodology improves accuracy by 15%.";
                 "Finding 2: Incorporating X technique reduces computational overhead."];
              metrics :=
                <["accuracy_improvement" := 0.15%float]>
                  (<["computational_efficiency_gain" := 0.20%float]> ∅) |},
       l').
Proof.
  unfold create_improvement_plan, try_except, mbind, M_bind.
  destruct (llm_generate_async_returns eng (create_prompt papers) l)
    as (text & l' & ->).
  exists text, l'. reflexivity.
Qed.

(** The plan itself is not read by the analysis. *)
Lemma analyze_improvement_plan_constant plan1 plan2 :
  analyze_improvement_plan plan1 = analyze_improvement_plan plan2.
Proof. reflexivity. Qed.

End FutureWorks_properties.

(* ===================================================================== *)
(** * Failure policy of the paper store *)
(* ===================================================================== *)

Section Failure_policy.
Import Cypher Driver.

(** A [try] whose handler logs and returns never raises, whatever its
    body. *)
Lemma swallowed {A} (body : M db A) (line : exn → log_line) (dflt : A) s :
  ∃ a s', try_except body (λ e, log (line e);; mret dflt) s = (Ret a, s').
Proof.
  unfold try_except. destruct (body s) as [[a|e] s']; [eauto|].
  unfold log. run_M. eauto.
Qed.

Section DBAgent_policy.
Import DBAgent.
Variable srv : server.

Lemma store_paper_never_raises paper s :
  ∃ b s', store_paper srv paper s = (Ret b, s').
Proof. apply swallowed with (line := λ e, ERROR _). Qed.

Lemma query_papers_never_raises topic start_year limit s :
  ∃ rs s', query_papers srv topic start_year limit s = (Ret rs, s').
Proof. apply swallowed with (line := λ e, ERROR _). Qed.

Lemma get_related_papers_never_raises paper_id limit s :
  ∃ rs s', get_related_papers srv paper_id limit s = (Ret rs, s').
Proof. apply swallowed with (line := λ e, ERROR _). Qed.

(** A storage error at any point of [store_paper] is logged, once, and
    the caller gets [False]. *)
Lemma store_paper_swallows paper s c e :
  fault srv c = Some e →
  ∃ msg s', store_paper srv paper s = (Ret false, s')
            ∧ log_of s' = log_of s ++ [ERROR msg].
Proof.
  intros He. unfold store_paper, _create_paper_tx, with_session, execute,
    try_finally, reach, run, log.
  generalize (create_paper_query (id paper) (title paper) (summary paper)
                (year paper) (url paper) (authors paper)
                (default [] (keywords paper)) (clock srv) (graph_of s)).
  intros [g rows]. run_M.
  destruct c; rewrite ?He; repeat case_match; simplify_eq; simpl; eauto.
Qed.

Lemma query_papers_swallows topic start_year limit s c e :
  fault srv c = Some e →
  ∃ msg s', query_papers srv topic start_year limit s = (Ret [], s')
            ∧ log_of s' = log_of s ++ [ERROR msg].
Proof.
  intros He. unfold query_papers, _query_papers_tx, with_session, execute,
    try_finally, reach, run, log.
  generalize (query_papers_query topic start_year limit (graph_of s)).
  intros qr. run_M. unfold fmap, outcome_fmap.
  destruct c; rewrite ?He; repeat case_match; simplify_eq; simpl; eauto.
Qed.

Lemma get_related_papers_swallows paper_id limit s c e :
  fault srv c = Some e →
  ∃ msg s', get_related_papers srv paper_id limit s = (Ret [], s')
            ∧ log_of s' = log_of s ++ [ERROR msg].
Proof.
  intros He. unfold get_related_papers, _get_related_papers_tx, with_session,
    execute, try_finally, reach, run, log.
  generalize (related_papers_query (group_rank srv) paper_id limit (graph_of s)).
  intros qr. run_M. unfold fmap, outcome_fmap.
  destruct c; rewrite ?He; repeat case_match; simplify_eq; simpl; eauto.
Qed.

End DBAgent_policy.

Lemma handler_store_paper_never_raises srv paper s :
  ∃ b s', Neo4jHandler.store_paper srv paper s = (Ret b, s').
Proof. apply swallowed with (line := λ e, ERROR _). Qed.

(** [get_paper_by_id] opens its session outside of its [try]: when the
    session cannot be opened, the exception of the driver reaches the
    caller, and nothing is logged. *)
Lemma get_paper_by_id_propagates srv paper_id s e :
  fault srv OpenSession = Some e →
  Neo4jHandler.get_paper_by_id srv paper_id s = (Raise e, s).
Proof.
  intros He. unfold Neo4jHandler.get_paper_by_id,
    Neo4jHandler.async_with_session, reach.
  unfold mbind, M_bind. rewrite He. reflexivity.
Qed.

(** Claim C8 on a driver that was closed: looking up the paper "2401.00001"
    raises the [DriverError] to the caller instead of returning [None], and
    logs nothing, while the two searches of [DBAgent] return their failure
    value on the same driver. *)
Theorem get_paper_by_id_raises_when_closed :
  Neo4jHandler.get_paper_by_id Fixtures.closed "2401.00001" Fixtures.fresh
  = (Raise (LibraryError "DriverError" "Driver closed"), Fixtures.fresh)
  ∧ result_of (DBAgent.query_papers Fixtures.closed "quantum" 2020 10
                 Fixtures.fresh) = Ret []
  ∧ result_of (DBAgent.get_related_papers Fixtures.closed "2401.00001" 5
                 Fixtures.fresh) = Ret [].
Proof. repeat split; reflexivity. Qed.

End Failure_policy.

(* ===================================================================== *)
(** * Appending strings *)
(* ===================================================================== *)

Section Strings_append.

Lemma append_cons c (s1 s2 : string) : String c s1 +:+ s2 = String c (s1 +:+ s2).
Proof. reflexivity. Qed.

Lemma append_assoc (s1 s2 s3 : string) : (s1 +:+ s2) +:+ s3 = s1 +:+ (s2 +:+ s3).
Proof.
  induction s1 as [|c s1 IH]; [done|]. by rewrite !append_cons, IH.
Qed.

Lemma append_nil_r (s : string) : s +:+ "" = s.
Proof. induction s as [|c s IH]; [done|]. by rewrite append_cons, IH. Qed.

Lemma length_append (s1 s2 : string) :
  String.length (s1 +:+ s2) = String.length s1 + String.length s2.
Proof.
  induction s1 as [|c s1 IH]; [done|]. rewrite append_cons. simpl.
  by rewrite IH.
Qed.

Lemma lower_append (s1 s2 : string) : lower (s1 +:+ s2) = lower s1 +:+ lower s2.
Proof.
  induction s1 as [|c s1 IH]; [done|]. rewrite append_cons. simpl.
  by rewrite IH.
Qed.

Lemma occurs_in_context (needle pre hay post : string) :
  Statements.occurs_in needle hay →
  Statements.occurs_in needle (pre +:+ hay +:+ post).
Proof.
  intros (a & b & ->). exists (pre +:+ a), (b +:+ post).
  by rewrite !append_assoc.
Qed.

End Strings_append.

(* ===================================================================== *)
(** * More on the QA agent and the [/answer] endpoint *)
(* ===================================================================== *)

Section Answer_endpoint.
Import Schemas QA Statements.

(** Property X1. Whenever [QAAgent.answer_question] returns, its response
    lists at most three sources, the excerpt of each source has at most 203
    characters (200 of the text and the three dots after them), and
    [context_used] has at most 1000 characters. *)
Theorem answer_is_bounded eng papers q t r t' :
  answer_question eng papers q t = (Ret r, t') →
  length (sources r) ≤ 3
  ∧ Forall (λ s, String.length (excerpt s) ≤ 203) (sources r)
  ∧ String.length (context_used r) ≤ 1000.
Proof.
  unfold answer_question.
  destruct (negb (truthy_list papers) || negb (truthy_str q)) eqn:Hv;
    [run_M; discriminate|].
  assert (Hfmt : ∀ a cs combined, length cs ≤ 3 →
            length (sources (_format_response a cs combined)) ≤ 3
            ∧ Forall (λ s, String.length (excerpt s) ≤ 203)
                (sources (_format_response a cs combined))
            ∧ String.length (context_used (_format_response a cs combined))
              ≤ 1000).
  { intros a cs combined Hcs. simpl. rewrite length_fmap. split; [done|].
    split; [|rewrite slice_to_length; apply Nat.le_min_l].
    apply Forall_fmap, Forall_forall. intros c _. simpl.
    rewrite length_append, slice_to_length.
    pose proof (Nat.le_min_l 200 (String.length (ctx_text c))).
    change (String.length "...") with 3. lia. }
  destruct papers as [|p [|p' rest]]; [done| |].
  - destruct (_process_paper p q) as [c|] eqn:Hc; [|run_M; discriminate].
    destruct (generate_answer_returns eng q (ctx_text c) t) as (a & t1 & Hgen).
    unfold try_except, mbind, M_bind. rewrite Hgen. simpl.
    intros [= <- <-]. apply Hfmt. simpl. lia.
  - remember (_gather_contexts (p :: p' :: rest) q) as cs eqn:Hcs.
    unfold rank_contexts, try_except, mbind, M_bind, emit, modify, call.
    destruct (rank_contexts_engine eng cs q) as [ranked|e] eqn:Hr;
      [|discriminate].
    destruct (generate_answer_returns eng q (_combine_contexts (take 3 ranked))
                (t ++ [RankContexts (length cs) q]))
      as (a & t1 & Hgen).
    rewrite Hgen. unfold mret, M_ret.
    intros [= <- <-]. apply Hfmt. rewrite length_take. lia.
Qed.

Lemma answer_is_bounded_witness :
  ∃ r, result_of (answer_question Fixtures.answering
                    [Fixtures.extracted; Fixtures.abstract_only]
                    "What is new?" []) = Ret r
       ∧ length (sources r) ≤ 3
       ∧ Forall (λ s, String.length (excerpt s) ≤ 203) (sources r)
       ∧ String.length (context_used r) ≤ 1000.
Proof.
  eexists. split; [vm_compute; reflexivity|].
  eapply (answer_is_bounded Fixtures.answering
            [Fixtures.extracted; Fixtures.abstract_only] "What is new?" []).
  vm_compute. reflexivity.
Defined.

(** Property X2. A single paper whose abstract is empty is refused, whatever
    its full text holds: [QAAgent.answer_question] logs and raises its
    [ValueError] that no relevant content was found, without calling an
    engine, and the endpoint [/answer] turns it into status 500 with that
    message, after a second line in the log. *)
Theorem paper_without_abstract_is_refused eng p q t :
  abstract p = "" → q ≠ "" →
  answer_question eng [p] q t
  = (Raise (ValueError "No relevant content found in paper"),
     t ++ [LogError "Error in answer_question: No relevant content found in paper"])
  ∧ Api.answer_question eng {| paper := [p]; question := q |} t
    = (Raise (HTTPException 500 "No relevant content found in paper"),
       t ++ [LogError "Error in answer_question: No relevant content found in paper";
             LogError "Answer error: No relevant content found in paper"]).
Proof.
  intros Ha Hq. unfold Api.answer_question, answer_question, _process_paper.
  simpl. rewrite Ha. destruct q as [|c0 q]; [done|]. simpl.
  unfold try_except, mbind, M_bind, raise, emit, modify, mret, M_ret. simpl.
  by rewrite <- (assoc_L (++)).
Qed.

Lemma paper_without_abstract_is_refused_witness :
  answer_question Fixtures.answering [Fixtures.no_abstract] "What is new?" []
  = (Raise (ValueError "No relevant content found in paper"),
     [] ++ [LogError "Error in answer_question: No relevant content found in paper"])
  ∧ Api.answer_question Fixtures.answering
      {| paper := [Fixtures.no_abstract]; question := "What is new?" |} []
    = (Raise (HTTPException 500 "No relevant content found in paper"),
       [] ++ [LogError "Error in answer_question: No relevant content found in paper";
              LogError "Answer error: No relevant content found in paper"]).
Proof.
  apply (paper_without_abstract_is_refused Fixtures.answering
           Fixtures.no_abstract "What is new?" []); [reflexivity|discriminate].
Defined.

(** What [answer_question] raises is its own [ValueError] or what the
    ranker raised. *)
Lemma answer_question_raises eng papers q t e t' :
  answer_question eng papers q t = (Raise e, t') →
  (∃ msg, e = ValueError msg)
  ∨ rank_contexts_engine eng (_gather_contexts papers q) q = Raise e.
Proof.
  unfold answer_question.
  destruct (negb (truthy_list papers) || negb (truthy_str q)) eqn:Hv.
  { intros [= <- <-]. eauto. }
  destruct papers as [|p [|p' rest]]; [done| |].
  - destruct (_process_paper p q) as [c|] eqn:Hc.
    + destruct (generate_answer_returns eng q (ctx_text c) t) as (a & t1 & Hgen).
      unfold try_except, mbind, M_bind. rewrite Hgen. simpl. done.
    + unfold try_except, mbind, M_bind, raise, emit, modify. simpl.
      intros [= <- <-]. eauto.
  - remember (_gather_contexts (p :: p' :: rest) q) as cs eqn:Hcs.
    unfold rank_contexts, try_except, mbind, M_bind, emit, modify, call.
    destruct (rank_contexts_engine eng cs q) as [ranked|e'] eqn:Hr.
    + destruct (generate_answer_returns eng q (_combine_contexts (take 3 ranked))
                  (t ++ [RankContexts (length cs) q]))
        as (a & t1 & Hgen).
      rewrite Hgen. unfold mret, M_ret. done.
    + unfold raise. intros [= <- <-]. by right.
Qed.

(** Property X3. The statuses of [/answer]. Provided the ranker does not
    raise an [HTTPException] of its own, the endpoint either returns a body,
    and then the request held a paper and a question, or raises an
    [HTTPException]: with status 422 when the request holds no paper or no
    question, with status 500 when it holds both. It raises nothing else. *)
Theorem answer_endpoint_statuses eng req t :
  (∀ cs q code detail,
     rank_contexts_engine eng cs q ≠ Raise (HTTPException code detail)) →
  match result_of (Api.answer_question eng req t) with
  | Ret _ => paper req ≠ [] ∧ question req ≠ ""
  | Raise (HTTPException code _) =>
      (code = 422%Z ∧ (paper req = [] ∨ question req = ""))
      ∨ (code = 500%Z ∧ paper req ≠ [] ∧ question req ≠ "")
  | Raise _ => False
  end.
Proof.
  intros Hrank. destruct req as [papers q].
  unfold Api.answer_question, result_of. simpl paper. simpl question.
  destruct papers as [|p rest]; [simpl; left; auto|].
  destruct q as [|c0 q]; [simpl; left; auto|].
  unfold try_except, mbind, M_bind, mret, M_ret.
  change (negb (truthy_list (p :: rest)) || negb (truthy_str (String c0 q)))
    with false.
  change (negb (truthy_list (p :: rest))) with false. cbv beta iota.
  destruct (answer_question eng (p :: rest) (String c0 q) t)
    as [[a|e] t1] eqn:Hq; simpl; [by split|].
  apply answer_question_raises in Hq as [[msg ->]|Hq].
  - simpl. right. done.
  - destruct e as [msg|code detail|cls msg]; simpl.
    + right. done.
    + by apply Hrank in Hq.
    + right. done.
Qed.

Lemma answer_endpoint_statuses_witness :
  match result_of (Api.answer_question Fixtures.failing_ranker
                     {| paper := [Fixtures.extracted; Fixtures.abstract_only];
                        question := "What is new?" |} []) with
  | Ret _ => [Fixtures.extracted; Fixtures.abstract_only] ≠ []
             ∧ "What is new?" ≠ ""
  | Raise (HTTPException code _) =>
      (code = 422%Z ∧ ([Fixtures.extracted; Fixtures.abstract_only] = []
                       ∨ "What is new?" = ""))
      ∨ (code = 500%Z ∧ [Fixtures.extracted; Fixtures.abstract_only] ≠ []
         ∧ "What is new?" ≠ "")
  | Raise _ => False
  end.
Proof.
  apply (answer_endpoint_statuses Fixtures.failing_ranker
           {| paper := [Fixtures.extracted; Fixtures.abstract_only];
              question := "What is new?" |} []).
  intros cs q code detail. discriminate.
Defined.

(** Property X4. A request with one paper whose abstract is not empty, and a
    question that is not empty, is always answered, whatever the engines do:
    [/answer] returns a body whose only source is that paper, with the first
    200 characters of the abstract and three dots as excerpt, and whose
    [context_used] is the first 1000 characters of the abstract. When the
    generation raises, the body carries the answer of the fallback and the
    confidence 0.0. *)
Theorem single_paper_is_always_answered eng p q t :
  abstract p ≠ "" → q ≠ "" →
  ∃ body t',
    Api.answer_question eng {| paper := [p]; question := q |} t = (Ret body, t')
    ∧ Api.body_sources body
      = [{| src_paper_id := id p; src_title := title p; src_year := year p;
            excerpt := slice_to 200 (abstract p) +:+ "...";
            src_context := None |}]
    ∧ Api.body_context_used body = slice_to 1000 (abstract p)
    ∧ ∀ e t1, _generate_answer_try eng q (abstract p) t = (Raise e, t1) →
        Api.body_answer body = "Failed to generate answer"
        ∧ Api.body_confidence body = 0.0%float.
Proof.
  intros Ha Hq. unfold Api.answer_question, answer_question, _process_paper.
  simpl. destruct q as [|c0 q]; [done|].
  destruct (abstract p) as [|c1 a] eqn:Hab; [done|]. simpl.
  unfold _generate_answer.
  unfold try_except, mbind, M_bind, mret, M_ret, emit, modify. simpl.
  destruct (_generate_answer_try eng (String c0 q) (String c1 a) t)
    as [[ans|e] t1] eqn:Hgen; simpl.
  - eexists _, _. split; [reflexivity|]. simpl.
    split; [done|]. split; [done|]. intros e t2 [=].
  - eexists _, _. split; [reflexivity|]. simpl.
    split; [done|]. split; [done|]. done.
Qed.

Lemma single_paper_is_always_answered_witness :
  ∃ body t',
    Api.answer_question Fixtures.out_of_memory
      {| paper := [Fixtures.extracted]; question := "What is new?" |} []
    = (Ret body, t')
    ∧ Api.body_sources body
      = [{| src_paper_id := id Fixtures.extracted;
            src_title := title Fixtures.extracted;
            src_year := year Fixtures.extracted;
            excerpt := slice_to 200 (abstract Fixtures.extracted) +:+ "...";
            src_context := None |}]
    ∧ Api.body_context_used body = slice_to 1000 (abstract Fixtures.extracted)
    ∧ ∀ e t1, _generate_answer_try Fixtures.out_of_memory "What is new?"
                (abstract Fixtures.extracted) [] = (Raise e, t1) →
        Api.body_answer body = "Failed to generate answer"
        ∧ Api.body_confidence body = 0.0%float.
Proof.
  apply (single_paper_is_always_answered Fixtures.out_of_memory
           Fixtures.extracted "What is new?" []); discriminate.
Defined.

(** Property X5. With two papers or more, a failure of the ranker is not
    absorbed: [QAAgent.answer_question] logs it and raises the ranker's
    exception again, no answer is generated, and [/answer] turns it into
    status 500 with the text of the exception as detail (an [HTTPException]
    would be raised again as it is, hence the hypothesis). *)
Theorem ranker_failure_fails_the_request eng papers q t e :
  2 ≤ length papers → q ≠ "" →
  rank_contexts_engine eng (_gather_contexts papers q) q = Raise e →
  (∀ code detail, e ≠ HTTPException code detail) →
  answer_question eng papers q t
  = (Raise e,
     t ++ [RankContexts (length (_gather_contexts papers q)) q;
           LogError ("Error in answer_question: " +:+ str e)])
  ∧ Api.answer_question eng {| paper := papers; question := q |} t
    = (Raise (HTTPException 500 (str e)),
       t ++ [RankContexts (length (_gather_contexts papers q)) q;
             LogError ("Error in answer_question: " +:+ str e);
             LogError ("Answer error: " +:+ str e)]).
Proof.
  intros Hlen Hq Hrank Hhttp.
  destruct papers as [|p [|p' rest]]; [simpl in Hlen; lia..|].
  destruct q as [|c0 q]; [done|].
  unfold Api.answer_question, answer_question. simpl negb. simpl orb.
  cbv iota. simpl paper. simpl question.
  remember (_gather_contexts (p :: p' :: rest) (String c0 q)) as cs eqn:Hcs.
  unfold rank_contexts, try_except, mbind, M_bind, emit, modify, call,
    mret, M_ret, raise.
  simpl negb. simpl orb. cbv iota. rewrite Hrank.
  simpl. split; [by rewrite <- !(assoc_L (++))|].
  destruct e as [msg|code detail|cls msg]; simpl;
    [by rewrite <- !(assoc_L (++))| |by rewrite <- !(assoc_L (++))].
  by destruct (Hhttp code detail).
Qed.

Lemma ranker_failure_fails_the_request_witness :
  answer_question Fixtures.failing_ranker
    [Fixtures.extracted; Fixtures.abstract_only] "What is new?" []
  = (Raise (LibraryError "RuntimeError" "encoder not loaded"),
     [] ++ [RankContexts
              (length (_gather_contexts
                         [Fixtures.extracted; Fixtures.abstract_only]
                         "What is new?")) "What is new?";
            LogError ("Error in answer_question: "
                      +:+ str (LibraryError "RuntimeError" "encoder not loaded"))])
  ∧ Api.answer_question Fixtures.failing_ranker
      {| paper := [Fixtures.extracted; Fixtures.abstract_only];
         question := "What is new?" |} []
    = (Raise (HTTPException 500
                (str (LibraryError "RuntimeError" "encoder not loaded"))),
       [] ++ [RankContexts
                (length (_gather_contexts
                           [Fixtures.extracted; Fixtures.abstract_only]
                           "What is new?")) "What is new?";
              LogError ("Error in answer_question: "
                        +:+ str (LibraryError "RuntimeError" "encoder not loaded"));
              LogError ("Answer error: "
                        +:+ str (LibraryError "RuntimeError" "encoder not loaded"))]).
Proof.
  apply (ranker_failure_fails_the_request Fixtures.failing_ranker
           [Fixtures.extracted; Fixtures.abstract_only] "What is new?" []
           (LibraryError "RuntimeError" "encoder not loaded")).
  - simpl. lia.
  - discriminate.
  - reflexivity.
  - discriminate.
Defined.

(** Property X6. [_gather_contexts] keeps the papers whose abstract is not
    empty, in their order, and the text of each context is the abstract: the
    full text and the images of a paper never reach a context. *)
Theorem gather_contexts_keeps_abstracts papers q :
  _gather_contexts papers q
  = (λ p, {| paper_id := id p; ctx_title := title p; ctx_text := abstract p;
             ctx_year := year p; ctx_context := None |})
    <$> filter (λ p, abstract p ≠ "") papers.
Proof.
  induction papers as [|p papers IH]; [done|].
  simpl. rewrite filter_cons, IH. unfold _process_paper.
  destruct (decide (abstract p ≠ "")) as [Ha|Ha].
  - destruct (abstract p) eqn:E; [done|]. simpl. by rewrite E.
  - apply dec_stable in Ha. by rewrite Ha.
Qed.

End Answer_endpoint.

(* ===================================================================== *)
(** * Finding a substring *)
(* ===================================================================== *)

Section Strings_index.
Import Statements.

Lemma substring_whole (s : string) : String.substring 0 (String.length s) s = s.
Proof. induction s as [|c s IH]; simpl; [done|]. by rewrite IH. Qed.

Lemma slice_from_append (a b : string) : slice_from (String.length a) (a +:+ b) = b.
Proof.
  unfold slice_from. rewrite length_append.
  replace (String.length a + String.length b - String.length a)
    with (String.length b) by lia.
  induction a as [|c a IH]; [apply substring_whole|].
  rewrite append_cons. simpl. apply IH.
Qed.

Lemma occurs_in_nil_inv (m : string) : occurs_in m "" → m = "".
Proof.
  intros (pre & post & H). destruct pre; [|done]. by destruct m.
Qed.

(** [hay.find(needle)] for a needle that is not empty: the position of the
    first occurrence, or nothing when there is none. *)
Lemma index_first_occurrence (m d : string) :
  m ≠ "" →
  match String.index 0 m d with
  | Some n => ∃ pre post, d = pre +:+ m +:+ post ∧ String.length pre = n
                ∧ ∀ pre' post', d = pre' +:+ m +:+ post' →
                                n ≤ String.length pre'
  | None => ¬ occurs_in m d
  end.
Proof.
  intros Hm. induction d as [|c d IH].
  - simpl. destruct m; [done|]. intros H%occurs_in_nil_inv. done.
  - cbn [String.index].
    destruct (String.prefix m (String c d)) eqn:Hp.
    + apply prefix_spec in Hp as [post Hp]. exists "", post.
      split; [done|]. split; [done|]. intros; lia.
    + destruct (String.index 0 m d) as [n|].
      * destruct IH as (pre & post & -> & <- & Hmin).
        exists (String c pre), post. split; [done|]. split; [done|].
        intros pre' post' Heq. destruct pre' as [|c' pre'].
        { assert (String.prefix m (String c (pre +:+ m +:+ post)) = true)
            as Hp'; [|congruence].
          apply prefix_spec. exists post'. by rewrite Heq. }
        rewrite append_cons in Heq. injection Heq as _ Heq.
        apply Hmin in Heq. simpl. lia.
      * intros (pre & post & Heq). destruct pre as [|c' pre].
        { assert (String.prefix m (String c d) = true) as Hp'; [|congruence].
          apply prefix_spec. exists post. by rewrite Heq. }
        rewrite append_cons in Heq. injection Heq as _ Heq.
        apply IH. by exists pre, post.
Qed.

End Strings_index.

(* ===================================================================== *)
(** * More on the writing agent and the [/review] endpoint *)
(* ===================================================================== *)

Section Review_endpoint.
Import Schemas FutureWorks ApiReview Statements.

Lemma marker_not_empty : marker ≠ "".
Proof. done. Qed.

(** Property X7. When the tokenizer, the model and the decoder answer,
    [llm_generate] cuts the decoded text at the first occurrence of the
    marker: it returns what follows that occurrence, stripped. A decoded text
    without the marker is returned whole, and is not stripped. Nothing is
    logged either way. *)
Theorem llm_generate_cuts_at_first_marker eng prompt l ids o os d :
  tokenizer_encode eng prompt = Ret ids →
  model_generate eng ids = Ret (o :: os) →
  tokenizer_decode eng o = Ret d →
  (∀ pre post,
     d = pre +:+ marker +:+ post →
     (∀ pre' post', d = pre' +:+ marker +:+ post' →
                    String.length pre ≤ String.length pre') →
     llm_generate eng prompt l = (Ret (strip post), l))
  ∧ (¬ occurs_in marker d → llm_generate eng prompt l = (Ret d, l)).
Proof.
  intros Henc Hgen Hdec.
  assert (Hrun : llm_generate eng prompt l
                 = (Ret (match String.index 0 marker d with
                         | Some n => strip (slice_from (n + String.length marker) d)
                         | None => d
                         end), l)).
  { unfold llm_generate, try_except, call, mbind, M_bind, mret, M_ret.
    rewrite Henc, Hgen, Hdec. by destruct (String.index 0 marker d). }
  rewrite Hrun. clear Hrun.
  pose proof (index_first_occurrence marker d marker_not_empty) as Hidx.
  destruct (String.index 0 marker d) as [n|]; split.
  - intros pre post Hd Hmin.
    destruct Hidx as (pre0 & post0 & Hd0 & Hn & Hmin0).
    assert (n = String.length pre) as ->.
    { apply Nat.le_antisymm; [by eapply Hmin0|]. rewrite <- Hn. by eapply Hmin. }
    rewrite Hd, <- append_assoc, <- length_append, slice_from_append. done.
  - intros Hno. destruct Hidx as (pre0 & post0 & Hd0 & _). destruct Hno. by eexists _, _.
  - intros pre post Hd _. destruct Hidx. by eexists _, _.
  - done.
Qed.

Lemma llm_generate_cuts_at_first_marker_witness :
  llm_generate Fixtures.echoing "Summarise." []
  = (Ret (strip (nl +:+ "  Combine both bounds.  ")), []).
Proof.
  refine (proj1 (llm_generate_cuts_at_first_marker Fixtures.echoing
                   "Summarise." [] [1; 2]%Z [1; 2; 3]%Z []
                   ("Summary of the work presented:" +:+ nl
                    +:+ "  Combine both bounds.  ")
                   eq_refl eq_refl eq_refl)
            "" (nl +:+ "  Combine both bounds.  ") eq_refl _).
  intros pre' post' _. simpl. lia.
Defined.

(** Property X8. The statuses of [/review]. A request without papers is
    answered with status 422 after one line in the log; every other request
    is answered with a body, whatever the engines do, and the findings and
    the metrics of that body are the two fixed findings and the two fixed
    numbers. *)
Theorem review_endpoint_statuses eng req l :
  match review_paper req with
  | [] =>
      review_papers eng req l
      = (Raise (HTTPException 422 "paper_ids are required for review"),
         l ++ ["Review endpoint error: paper_ids are required for review"])
  | _ :: _ =>
      ∃ text l',
        review_papers eng req l
        = (Ret {| review := text;
                  body_findings :=
                    ["Finding 1: Enhanced methodology improves accuracy by 15%.";
                     "Finding 2: Incorporating X technique reduces computational overhead."];
                  body_metrics :=
                    <["accuracy_improvement" := 0.15%float]>
                      (<["computational_efficiency_gain" := 0.20%float]> ∅) |},
           l')
  end.
Proof.
  destruct req as [papers]. unfold review_papers. simpl review_paper.
  destruct papers as [|p papers]; [done|].
  unfold create_improvement_plan, try_except, mbind, M_bind, mret, M_ret.
  change (negb (truthy_list (p :: papers))) with false. cbv beta iota.
  destruct (llm_generate_async_returns eng (create_prompt (p :: papers)) l)
    as (text & l' & ->).
  exists text, l'. reflexivity.
Qed.

(** Property X9. A failure of the executor, of the tokenizer, of the model
    or of the decoder does not fail [/review]: one line is logged, and the
    body carries the text of the fallback as review, next to the fixed
    findings. *)
Theorem review_survives_engine_failure eng papers l e :
  papers ≠ [] →
  run_in_executor eng = Raise e
  ∨ (run_in_executor eng = Ret tt
     ∧ (tokenizer_encode eng (create_prompt papers) = Raise e
        ∨ ∃ ids, tokenizer_encode eng (create_prompt papers) = Ret ids
            ∧ (model_generate eng ids = Raise e
               ∨ ∃ o os, model_generate eng ids = Ret (o :: os)
                   ∧ tokenizer_decode eng o = Raise e))) →
  ∃ msg body,
    review_papers eng {| review_paper := papers |} l = (Ret body, l ++ [msg])
    ∧ review body = "Failed to generate improvement plan."
    ∧ body_findings body
      = ["Finding 1: Enhanced methodology improves accuracy by 15%.";
         "Finding 2: Incorporating X technique reduces computational overhead."].
Proof.
  intros Hne Hfail. destruct papers as [|p papers]; [done|].
  unfold review_papers, create_improvement_plan, llm_generate_async,
    llm_generate, error, try_except, call, modify, mbind, M_bind, mret, M_ret.
  simpl review_paper. change (negb (truthy_list (p :: papers))) with false.
  cbv beta iota.
  destruct Hfail as [->|[-> [->|(ids & -> & [->|(o & os & -> & ->)])]]];
    eexists _, _; (split; [reflexivity|]); done.
Qed.

Lemma review_survives_engine_failure_witness :
  ∃ msg body,
    review_papers Fixtures.no_tokenizer
      {| review_paper := [Fixtures.extracted] |} [] = (Ret body, [] ++ [msg])
    ∧ review body = "Failed to generate improvement plan."
    ∧ body_findings body
      = ["Finding 1: Enhanced methodology improves accuracy by 15%.";
         "Finding 2: Incorporating X technique reduces computational overhead."].
Proof.
  apply (review_survives_engine_failure Fixtures.no_tokenizer
           [Fixtures.extracted] []
           (LibraryError "OSError" "tokenizer not found")).
  - discriminate.
  - right. split; [reflexivity|]. left. reflexivity.
Defined.

Lemma join_cons sep (p : string) ps :
  ps ≠ [] → join sep (p :: ps) = p +:+ sep +:+ join sep ps.
Proof. by destruct ps. Qed.

Lemma occurs_in_join sep (x : string) parts :
  x ∈ parts → occurs_in x (join sep parts).
Proof.
  induction parts as [|p ps IH]; intros Hx; [by apply elem_of_nil in Hx|].
  destruct ps as [|p' ps].
  - apply list_elem_of_singleton in Hx as ->. exists "", "".
    by rewrite append_nil_r.
  - rewrite join_cons by done. apply elem_of_cons in Hx as [->|Hx].
    + by exists "", (sep +:+ join sep (p' :: ps)).
    + destruct (IH Hx) as (pre & post & ->).
      exists (p +:+ sep +:+ pre), post. by rewrite !append_assoc.
Qed.

(** Property X10. The prompt of [create_prompt] holds, for every paper of
    the request, its title, its year and its abstract in the layout of three
    lines, and it ends with the marker [llm_generate] cuts at, followed by a
    newline. *)
Theorem prompt_lists_every_paper papers p :
  p ∈ papers →
  occurs_in ("Title: " +:+ title p +:+ nl +:+ "Year: " +:+ pretty (year p)
             +:+ nl +:+ "Abstract: " +:+ abstract p)
    (create_prompt papers)
  ∧ ∃ body, create_prompt papers = body +:+ marker +:+ nl.
Proof.
  intros Hp. unfold create_prompt. split.
  - apply (occurs_in_context _
             ("Using the key findings from the following papers:" +:+ nl +:+ nl)).
    apply occurs_in_join, list_elem_of_fmap. by exists p.
  - eexists. rewrite <- !append_assoc. reflexivity.
Qed.

Lemma prompt_lists_every_paper_witness :
  occurs_in ("Title: " +:+ title Fixtures.extracted +:+ nl +:+ "Year: "
             +:+ pretty (year Fixtures.extracted)
             +:+ nl +:+ "Abstract: " +:+ abstract Fixtures.extracted)
    (create_prompt [Fixtures.abstract_only; Fixtures.extracted])
  ∧ ∃ body, create_prompt [Fixtures.abstract_only; Fixtures.extracted]
            = body +:+ marker +:+ nl.
Proof.
  apply (prompt_lists_every_paper [Fixtures.abstract_only; Fixtures.extracted]
           Fixtures.extracted).
  apply list_elem_of_further, list_elem_of_here.
Defined.

End Review_endpoint.

(* ===================================================================== *)
(** * The text helpers of the QA agent *)
(* ===================================================================== *)

Section Text_helpers.
Import Schemas QA Statements.

Lemma lower_append_inv (q a b : string) :
  lower q = a +:+ b → ∃ q1 q2, q = q1 +:+ q2 ∧ lower q1 = a ∧ lower q2 = b.
Proof.
  revert q. induction a as [|c a IH]; intros q Hq.
  - exists "", q. done.
  - destruct q as [|c' q]; [done|]. rewrite append_cons in Hq. simpl in Hq.
    injection Hq as Hc Hq. destruct (IH q Hq) as (q1 & q2 & -> & <- & <-).
    exists (String c' q1), q2. simpl. by rewrite Hc.
Qed.

(** Property X11. [_is_image_question] holds exactly when the question
    contains one of the image keywords as a substring, in any mix of upper
    and lower case. It does not look for whole words: a keyword inside a
    longer word counts. *)
Theorem image_question_spec q :
  _is_image_question q = true
  ↔ ∃ pre w post, q = pre +:+ w +:+ post ∧ lower w ∈ image_keywords.
Proof.
  unfold _is_image_question. rewrite existsb_exists. split.
  - intros (kw & Hkw & Hin). apply list_elem_of_In in Hkw.
    apply str_in_spec in Hin as (a & b & Hq).
    apply lower_append_inv in Hq as (pre & q2 & -> & _ & Hq).
    apply lower_append_inv in Hq as (w & post & -> & Hw & _).
    exists pre, w, post. by rewrite Hw.
  - intros (pre & w & post & -> & Hw). exists (lower w).
    split; [by apply list_elem_of_In|].
    apply str_in_spec. exists (lower pre), (lower post).
    by rewrite !lower_append.
Qed.

(** A question about photographs counts as a question about images. *)
Example photographs_are_graphs :
  _is_image_question "Which PhotoGraphs show the device?" = true.
Proof. reflexivity. Qed.

Lemma rev_app_spec (s acc : string) : String.rev_app s acc = String.rev s +:+ acc.
Proof.
  unfold String.rev. revert acc. induction s as [|c s IH]; intros acc; [done|].
  simpl. rewrite (IH (String c acc)), (IH (String c "")).
  by rewrite append_assoc.
Qed.

Lemma rev_cons c (s : string) : String.rev (String c s) = String.rev s +:+ String c "".
Proof. unfold String.rev at 1. simpl. apply rev_app_spec. Qed.

(** The pieces of [split] are pieces of the text. *)
Lemma elem_of_split_go sep k piece s x :
  x ∈ split_go sep k piece s →
  (∃ m u v, s = m +:+ u +:+ v ∧ String.length m ≤ k ∧ x = String.rev piece +:+ u)
  ∨ occurs_in x s.
Proof.
  revert k piece. induction s as [|c s IH]; intros k piece Hx.
  - simpl in Hx. apply list_elem_of_singleton in Hx as ->. left.
    exists "", "", "". split; [done|]. split; [simpl; lia|].
    by rewrite append_nil_r.
  - cbn [split_go] in Hx. destruct k as [|k].
    + destruct (String.prefix sep (String c s)) eqn:Hp.
      * apply elem_of_cons in Hx as [->|Hx].
        { left. exists "", "", (String c s). split; [done|].
          split; [done|]. by rewrite append_nil_r. }
        right. apply IH in Hx as [(m & u & v & -> & _ & ->)|(a & b & ->)].
        { exists (String c m), v. done. }
        { exists (String c a), b. done. }
      * apply IH in Hx as [(m & u & v & -> & Hm & ->)|(a & b & ->)].
        { left. destruct m; [|simpl in Hm; lia].
          exists "", (String c u), v. split; [done|]. split; [done|].
          by rewrite rev_cons, append_assoc. }
        { right. exists (String c a), b. done. }
    + apply IH in Hx as [(m & u & v & -> & Hm & ->)|(a & b & ->)].
      * left. exists (String c m), u, v. split; [done|]. split; [simpl; lia|done].
      * right. exists (String c a), b. done.
Qed.

Lemma elem_of_split sep s x : x ∈ split sep s → occurs_in x s.
Proof.
  intros [(m & u & v & -> & Hm & ->)|H]%elem_of_split_go; [|done].
  destruct m; [|simpl in Hm; lia]. by exists "", v.
Qed.

Lemma elem_of_locate_from i paragraphs rel l :
  l ∈ locate_from i paragraphs rel →
  loc_excerpt l = rel ∧ loc_text l ∈ paragraphs ∧ str_in rel (loc_text l) = true.
Proof.
  revert i. induction paragraphs as [|para rest IH]; intros i Hl;
    [by apply elem_of_nil in Hl|].
  simpl in Hl. destruct (str_in rel para) eqn:Hin.
  - apply elem_of_cons in Hl as [->|Hl].
    + simpl. split; [done|]. split; [left|done].
    + destruct (IH _ Hl) as (? & ? & ?). split; [done|]. split; [by right|done].
  - destruct (IH _ Hl) as (? & ? & ?). split; [done|]. split; [by right|done].
Qed.

(** Property X12. Every location [_find_exact_context] returns carries the
    relevant text as its excerpt, and a paragraph that contains the relevant
    text and is itself a piece of the full text. *)
Theorem find_exact_context_sound full rel l :
  l ∈ _find_exact_context full rel →
  loc_excerpt l = rel
  ∧ occurs_in rel (loc_text l)
  ∧ occurs_in (loc_text l) full.
Proof.
  intros (? & Hp & Hin)%elem_of_locate_from. split; [done|].
  split; [by apply str_in_spec|]. by apply elem_of_split in Hp.
Qed.

Lemma find_exact_context_sound_witness :
  loc_excerpt {| section := "Paragraph 2"; loc_text := "We prove a bound.";
                 loc_excerpt := "a bound" |} = "a bound"
  ∧ occurs_in "a bound" "We prove a bound."
  ∧ occurs_in "We prove a bound."
      ("Introduction." +:+ nl +:+ nl +:+ "We prove a bound." +:+ nl +:+ nl
       +:+ "Thanks.").
Proof.
  apply (find_exact_context_sound
           ("Introduction." +:+ nl +:+ nl +:+ "We prove a bound." +:+ nl +:+ nl
            +:+ "Thanks.") "a bound"
           {| section := "Paragraph 2"; loc_text := "We prove a bound.";
              loc_excerpt := "a bound" |}).
  vm_compute. apply list_elem_of_here.
Defined.

Lemma split_go_no_sep sep piece s :
  str_in sep s = false → split_go sep 0 piece s = [String.rev piece +:+ s].
Proof.
  revert piece. induction s as [|c s IH]; intros piece Hs.
  - simpl. by rewrite append_nil_r.
  - rewrite str_in_unfold in Hs. apply orb_false_iff in Hs as [Hp Hs].
    cbn [split_go]. rewrite Hp, IH by done.
    by rewrite rev_cons, append_assoc.
Qed.

(** Property X13. On a full text without a blank line,
    [_find_exact_context] returns at most one location: the whole text, as
    the first paragraph, when it contains the relevant text, and nothing
    otherwise. *)
Theorem find_exact_context_single_paragraph full rel :
  ¬ occurs_in (nl +:+ nl) full →
  _find_exact_context full rel
  = if str_in rel full
    then [{| section := "Paragraph 1"; loc_text := full; loc_excerpt := rel |}]
    else [].
Proof.
  intros Hno. unfold _find_exact_context, split.
  rewrite split_go_no_sep.
  - change (String.rev "" +:+ full) with full. simpl.
    by destruct (str_in rel full).
  - destruct (str_in (nl +:+ nl) full) eqn:E; [|done].
    by apply str_in_spec in E.
Qed.

Lemma find_exact_context_single_paragraph_witness :
  _find_exact_context "We prove a bound." "a bound"
  = if str_in "a bound" "We prove a bound."
    then [{| section := "Paragraph 1"; loc_text := "We prove a bound.";
             loc_excerpt := "a bound" |}]
    else [].
Proof.
  apply (find_exact_context_single_paragraph "We prove a bound." "a bound").
  intros H%str_in_spec. vm_compute in H. discriminate.
Defined.

End Text_helpers.

(* ===================================================================== *)
(** * Graphs that only grow *)
(* ===================================================================== *)

Section Growth.
Import Cypher Driver Statements.
Implicit Types (g : graph) (i p : nat) (l : label).

Global Instance grows_refl : Reflexive grows.
Proof. intros g. split; [exists []; by rewrite app_nil_r|done]. Qed.

Global Instance grows_trans : Transitive grows.
Proof.
  intros g1 g2 g3 [(e1 & H1) R1] [(e2 & H2) R2]. split.
  - exists (e1 ++ e2). by rewrite H2, H1, (assoc_L (++)).
  - set_solver.
Qed.

Lemma grows_lookup g g' i :
  grows g g' → i < length (g_nodes g) → g_nodes g' !! i = g_nodes g !! i.
Proof. intros [(e & ->) _] Hi. by apply lookup_app_l. Qed.

Lemma grows_length g g' : grows g g' → length (g_nodes g) ≤ length (g_nodes g').
Proof. intros [(e & ->) _]. rewrite length_app. lia. Qed.

Lemma node_label_valid g i l : node_label g i = Some l → i < length (g_nodes g).
Proof.
  unfold node_label. destruct (g_nodes g !! i) eqn:E; [|done].
  intros _. by apply lookup_lt_Some in E.
Qed.

Lemma prop_valid g i key v : prop g i key = Some v → i < length (g_nodes g).
Proof.
  unfold prop. destruct (g_nodes g !! i) eqn:E; [|done].
  intros _. by apply lookup_lt_Some in E.
Qed.

Lemma grows_label g g' i l :
  grows g g' → node_label g i = Some l → node_label g' i = Some l.
Proof.
  intros Hg Hl. unfold node_label.
  rewrite (grows_lookup g g') by eauto using node_label_valid. done.
Qed.

Lemma grows_prop g g' i key v :
  grows g g' → prop g i key = Some v → prop g' i key = Some v.
Proof.
  intros Hg Hp. unfold prop.
  rewrite (grows_lookup g g') by eauto using prop_valid. done.
Qed.

Lemma grows_rel g g' x : grows g g' → x ∈ g_rels g → x ∈ g_rels g'.
Proof. intros [_ Hr] Hx. by apply Hr. Qed.

Lemma merge_node_grows l pat g : grows g (merge_node l pat g).1.
Proof.
  unfold merge_node. destruct (match_nodes l pat g); simpl; [|done].
  split; [by eexists|done].
Qed.

Lemma merge_rel_grows a t b g : grows g (merge_rel a t b g).
Proof. split; simpl; [exists []; by rewrite app_nil_r|set_solver]. Qed.

Lemma merge_by_name_grows l row g : grows g (merge_by_name l row g).1.
Proof.
  unfold merge_by_name. pose proof (merge_node_grows l [("name", VStr row.2)] g).
  by destruct (merge_node l _ g).
Qed.

Lemma for_rows_grows {R R'} (step : R → graph → graph * list R') rows g :
  (∀ r g, grows g (step r g).1) → grows g (for_rows step rows g).1.
Proof.
  intros Hstep. revert g. induction rows as [|r rows IH]; intros g; simpl; [done|].
  specialize (Hstep r g). destruct (step r g) as [g1 out1]. simpl in *.
  specialize (IH g1). destruct (for_rows step rows g1) as [g2 out2]. simpl in *.
  by etrans.
Qed.

Lemma for_rows_ext {R R'} (step step' : R → graph → graph * list R') rows g :
  (∀ r g, step r g = step' r g) →
  for_rows step rows g = for_rows step' rows g.
Proof.
  intros Hs. revert g. induction rows as [|r rows IH]; intros g; simpl; [done|].
  rewrite Hs. destruct (step' r g) as [g1 out1]. by rewrite IH.
Qed.

(** [MERGE (n:l {name: name})] for one row. *)
Lemma merge_by_name_rows l row g :
  (merge_by_name l row g).2 ≠ []
  ∧ ∀ x, x ∈ (merge_by_name l row g).2 →
      x.1 = row.1
      ∧ node_label (merge_by_name l row g).1 x.2 = Some l
      ∧ prop (merge_by_name l row g).1 x.2 "name" = Some (VStr row.2).
Proof.
  unfold merge_by_name, merge_node.
  destruct (match_nodes l [("name", VStr row.2)] g) as [|m ms] eqn:Hm;
    cbv beta iota; cbn [fst snd].
  - split; [done|]. intros x Hx. apply list_elem_of_singleton in Hx as ->.
    simpl. split; [done|]. unfold node_label, prop, add_node. simpl.
    rewrite lookup_app_r by lia. rewrite Nat.sub_diag. simpl. done.
  - split; [done|]. intros x Hx.
    apply list_elem_of_fmap in Hx as (n & -> & Hn). simpl.
    rewrite <- Hm in Hn.
    apply elem_of_match_nodes, matches_at_alt in Hn as [Hl Hp].
    apply Forall_inv in Hp. done.
Qed.

(** [MERGE (n:l {name: name})] over the rows. *)
Lemma for_rows_merge_by_name l rows g :
  grows g (for_rows (merge_by_name l) rows g).1
  ∧ (∀ p name, (p, name) ∈ rows →
       ∃ n, (p, n) ∈ (for_rows (merge_by_name l) rows g).2
            ∧ node_label (for_rows (merge_by_name l) rows g).1 n = Some l
            ∧ prop (for_rows (merge_by_name l) rows g).1 n "name"
              = Some (VStr name))
  ∧ (∀ p n, (p, n) ∈ (for_rows (merge_by_name l) rows g).2 →
       ∃ name, (p, name) ∈ rows
               ∧ node_label (for_rows (merge_by_name l) rows g).1 n = Some l
               ∧ prop (for_rows (merge_by_name l) rows g).1 n "name"
                 = Some (VStr name)).
Proof.
  revert g. induction rows as [|r rows IH]; intros g; simpl.
  - split; [done|]. split; intros ? ? H; by apply elem_of_nil in H.
  - pose proof (merge_by_name_grows l r g) as Hg1.
    pose proof (merge_by_name_rows l r g) as [Hne Hout1].
    destruct (merge_by_name l r g) as [g1 out1]. simpl in *.
    specialize (IH g1). destruct (for_rows (merge_by_name l) rows g1)
      as [g2 out2]. simpl in *.
    destruct IH as (Hg2 & Hin & Hout). split; [by etrans|]. split.
    + intros p name [<-|Hr]%elem_of_cons.
      * destruct out1 as [|[p' n] out1]; [done|].
        destruct (Hout1 (p', n)) as (Hp & Hl & Hn); [left|]. simpl in *.
        subst p'. exists n. split; [left|].
        split; [by eapply grows_label|by eapply grows_prop].
      * destruct (Hin p name Hr) as (n & ? & ? & ?). exists n.
        split; [|done]. apply elem_of_app. by right.
    + intros p n [Hx|Hx]%elem_of_app.
      * destruct (Hout1 (p, n) Hx) as (Hp & Hl & Hn). simpl in *.
        exists r.2. split; [destruct r; simpl in *; subst; left|].
        split; [by eapply grows_label|by eapply grows_prop].
      * destruct (Hout p n Hx) as (name & ? & ? & ?). exists name.
        split; [by right|done].
Qed.

(** [MERGE (a)-[:t]->(b)] over the rows. *)
Lemma for_rows_merge_rel {R} (f : R → nat * rel_type * nat) (rows : list R) g :
  (for_rows (λ row g, (merge_rel (f row).1.1 (f row).1.2 (f row).2 g, [row]))
     rows g).2 = rows
  ∧ g_nodes (for_rows (λ row g, (merge_rel (f row).1.1 (f row).1.2 (f row).2 g,
                                 [row])) rows g).1
    = g_nodes g
  ∧ ∀ x, x ∈ g_rels (for_rows (λ row g, (merge_rel (f row).1.1 (f row).1.2
                                            (f row).2 g, [row])) rows g).1
         ↔ x ∈ g_rels g ∨ ∃ row, row ∈ rows ∧ x = f row.
Proof.
  revert g. induction rows as [|r rows IH]; intros g; simpl.
  - split; [done|]. split; [done|]. intros x. split; [by left|].
    intros [?|(row & H & _)]; [done|by apply elem_of_nil in H].
  - specialize (IH (merge_rel (f r).1.1 (f r).1.2 (f r).2 g)).
    destruct (for_rows _ rows (merge_rel (f r).1.1 (f r).1.2 (f r).2 g))
      as [g2 out2]. simpl in *.
    destruct IH as (-> & -> & Hrel). split; [done|]. split; [done|].
    intros x. rewrite Hrel, elem_of_union, elem_of_singleton. split.
    + intros [[->|?]|(row & ? & ->)].
      * right. exists r. split; [left|]. by destruct (f r) as [[??]?].
      * by left.
      * right. exists row. split; [by right|done].
    + intros [?|(row & [->|?]%elem_of_cons & ->)].
      * left. by right.
      * left. left. by destruct (f r) as [[??]?].
      * right. eauto.
Qed.

Lemma authored_rows rows g :
  for_rows (λ '(p, a) g, (merge_rel a AUTHORED p g, [(p, a)])) rows g
  = for_rows (λ row g, (merge_rel ((λ r : nat * nat, (r.2, AUTHORED, r.1)) row).1.1
                          ((λ r : nat * nat, (r.2, AUTHORED, r.1)) row).1.2
                          ((λ r : nat * nat, (r.2, AUTHORED, r.1)) row).2 g,
                        [row])) rows g.
Proof. apply for_rows_ext. by intros [p a] g'. Qed.

Lemma has_keyword_rows rows g :
  for_rows (λ '(p, k) g, (merge_rel p HAS_KEYWORD k g, [(p, k)])) rows g
  = for_rows (λ row g, (merge_rel ((λ r : nat * nat, (r.1, HAS_KEYWORD, r.2)) row).1.1
                          ((λ r : nat * nat, (r.1, HAS_KEYWORD, r.2)) row).1.2
                          ((λ r : nat * nat, (r.1, HAS_KEYWORD, r.2)) row).2 g,
                        [row])) rows g.
Proof. apply for_rows_ext. by intros [p a] g'. Qed.

Lemma elem_of_unwind {B} (ps : list nat) (xs : list B) p x :
  (p, x) ∈ unwind ps xs ↔ p ∈ ps ∧ x ∈ xs.
Proof.
  unfold unwind. rewrite list_elem_of_bind. split.
  - intros (p' & Hin & Hp). apply list_elem_of_bind in Hin as (x' & Hin & Hx).
    apply list_elem_of_singleton in Hin. by simplify_eq.
  - intros [Hp Hx]. exists p. split; [|done]. apply list_elem_of_bind.
    exists x. split; [by apply list_elem_of_singleton|done].
Qed.

End Growth.

(* ===================================================================== *)
(** * What the store queries leave in the graph *)
(* ===================================================================== *)

Section Store_post.
Import Cypher Driver Statements.
Implicit Types (g : graph) (i j p : nat) (l : label).

Lemma grows_prop_eq g g' i key :
  grows g g' → i < length (g_nodes g) → prop g' i key = prop g i key.
Proof. intros Hg Hi. unfold prop. by rewrite (grows_lookup g g'). Qed.

Lemma grows_label_eq g g' i :
  grows g g' → i < length (g_nodes g) → node_label g' i = node_label g i.
Proof. intros Hg Hi. unfold node_label. by rewrite (grows_lookup g g'). Qed.

(** The nodes [MERGE (n:l {name: ...})] adds carry the label [l]; it adds no
    relationship. *)
Lemma for_rows_merge_by_name_nodes l rows g :
  ∃ extra, g_nodes (for_rows (merge_by_name l) rows g).1 = g_nodes g ++ extra
           ∧ Forall (λ n, n_label n = l) extra
           ∧ g_rels (for_rows (merge_by_name l) rows g).1 = g_rels g.
Proof.
  revert g. induction rows as [|r rows IH]; intros g; simpl.
  - exists []. by rewrite app_nil_r.
  - assert (H1 : ∃ extra, g_nodes (merge_by_name l r g).1 = g_nodes g ++ extra
                   ∧ Forall (λ n, n_label n = l) extra
                   ∧ g_rels (merge_by_name l r g).1 = g_rels g).
    { unfold merge_by_name, merge_node.
      destruct (match_nodes l [("name", VStr r.2)] g); cbv beta iota;
        cbn [fst snd].
      - eexists [_]. split; [reflexivity|]. split; [by repeat constructor|done].
      - exists []. by rewrite app_nil_r. }
    destruct (merge_by_name l r g) as [g1 out1]. simpl in *.
    specialize (IH g1). destruct (for_rows (merge_by_name l) rows g1)
      as [g2 out2]. simpl in *.
    destruct H1 as (e1 & He1 & Hl1 & Hr1), IH as (e2 & He2 & Hl2 & Hr2).
    exists (e1 ++ e2). rewrite He2, He1, (assoc_L (++)), Hr2, Hr1.
    split; [done|]. split; [by apply Forall_app|done].
Qed.

Lemma set_rows_lookup kvs ps g j :
  j ∉ ps →
  g_nodes (for_rows (λ p g, (set_props p kvs g, [p])) ps g).1 !! j
  = g_nodes g !! j.
Proof.
  revert g. induction ps as [|p ps IH]; intros g Hj; simpl; [done|].
  apply not_elem_of_cons in Hj as [Hne Hj]. specialize (IH (set_props p kvs g) Hj).
  destruct (for_rows _ ps (set_props p kvs g)) as [g2 out2]. simpl in *.
  rewrite IH. clear IH. unfold set_props. revert g.
  induction kvs as [|kv kvs IHk]; intros g; simpl; [done|].
  rewrite IHk. unfold set_prop. simpl. by rewrite list_lookup_alter_ne.
Qed.

(** The head of both store queries: the paper is merged on its id, its
    properties are set, its authors are merged and linked. *)
Lemma upsert_authors_post pid kvs authors g gA ps0 gB ps g1 rows1 g2 rows2 :
  merge_node Label.Paper [("id", VStr pid)] g = (gA, ps0) →
  for_rows (λ p g, (set_props p kvs g, [p])) ps0 gA = (gB, ps) →
  for_rows (merge_by_name Label.Author) (unwind ps authors) gB = (g1, rows1) →
  for_rows (λ '(p, a) g, (merge_rel a AUTHORED p g, [(p, a)])) rows1 g1
  = (g2, rows2) →
  Forall (λ kv, kv.1 ≠ "id") kvs →
  ps ≠ []
  ∧ match_nodes Label.Paper [("id", VStr pid)] g2 = ps
  ∧ (∀ p, p ∈ rows2.*1 ↔ p ∈ ps ∧ authors ≠ [])
  ∧ (∀ p key v, p ∈ ps → (∀ d, assigned key kvs d = v) → prop g2 p key = v)
  ∧ (∀ p a, p ∈ ps → a ∈ authors →
       ∃ n, node_label g2 n = Some Label.Author
            ∧ prop g2 n "name" = Some (VStr a)
            ∧ (n, AUTHORED, p) ∈ g_rels g2).
Proof.
  intros HA HB H1 H2 Hid.
  pose proof (merge_paper_spec pid g) as HmA. rewrite HA in HmA. simpl in HmA.
  destruct HmA as (HmA & Hne & _ & _).
  pose proof (set_rows_spec kvs ps0 gA) as HsB. rewrite HB in HsB. simpl in HsB.
  destruct HsB as (-> & Hlen & _ & Hlab & Hother & Hset & _).
  assert (HmB : match_nodes Label.Paper [("id", VStr pid)] gB = ps0).
  { rewrite <- HmA. unfold match_nodes, node_ids. rewrite Hlen.
    apply filter_ext_in. intros i _. rewrite !matches_at_alt.
    rewrite Hlab, !Forall_singleton. simpl.
    rewrite Hother; [done|]. done. }
  pose proof (for_rows_merge_by_name Label.Author (unwind ps0 authors) gB)
    as (Hg1 & Hin1 & Hout1).
  pose proof (for_rows_keeps (merge_by_name Label.Author)
                (unwind ps0 authors) gB) as Hk1.
  rewrite H1 in Hg1, Hin1, Hout1, Hk1. simpl in *.
  rewrite authored_rows in H2.
  pose proof (for_rows_merge_rel (λ r : nat * nat, (r.2, AUTHORED, r.1)) rows1 g1)
    as (Hrows2 & Hn2 & Hr2).
  rewrite H2 in Hrows2, Hn2, Hr2. simpl in *. subst rows2.
  assert (Hk2 : keeps_papers gB g2).
  { etrans; [apply Hk1; intros; by apply merge_by_name_keeps|].
    exists []. rewrite Hn2, app_nil_r. done. }
  assert (Hg2 : grows gB g2).
  { etrans; [exact Hg1|]. split; [exists []; by rewrite Hn2, app_nil_r|].
    intros x Hx. apply Hr2. by left. }
  assert (Hvalid : ∀ p, p ∈ ps0 → p < length (g_nodes gB)).
  { intros p Hp. rewrite <- HmB in Hp.
    by apply elem_of_match_nodes, matches_at_valid in Hp. }
  split; [done|]. split; [by rewrite (keeps_papers_match_nodes gB g2)|].
  split_and!.
  - intros p. rewrite list_elem_of_fmap. split.
    + intros ([p' n] & -> & Hx). simpl.
      destruct (Hout1 p' n Hx) as (name & [Hp Ha]%elem_of_unwind & _).
      split; [done|]. intros ->. by apply elem_of_nil in Ha.
    + intros [Hp Ha]. destruct authors as [|a authors]; [done|].
      destruct (Hin1 p a) as (n & Hn & _); [apply elem_of_unwind; split; [done|left]|].
      by exists (p, n).
  - intros p key v Hp Hv.
    rewrite (grows_prop_eq gB g2) by auto.
    apply Hset; [done| |done]. rewrite <- Hlen. auto.
  - intros p a Hp Ha.
    destruct (Hin1 p a) as (n & Hn & Hl & Hname);
      [by apply elem_of_unwind|].
    exists n. unfold node_label, prop in *. rewrite Hn2.
    split; [done|]. split; [done|]. apply Hr2. right. by exists (p, n).
Qed.

(** The tail of the query of [DBAgent]: the keywords are merged and linked
    to every paper that went through the authors. *)
Lemma keywords_post keywords g2 (rows2 : list (nat * nat)) g3 rows3 g4 rows4 :
  for_rows (merge_by_name Label.Keyword) (unwind rows2.*1 keywords) g2
  = (g3, rows3) →
  for_rows (λ '(p, k) g, (merge_rel p HAS_KEYWORD k g, [(p, k)])) rows3 g3
  = (g4, rows4) →
  grows g2 g4 ∧ keeps_papers g2 g4
  ∧ (∀ p, p ∈ rows4.*1 ↔ p ∈ rows2.*1 ∧ keywords ≠ [])
  ∧ (∀ p k, p ∈ rows2.*1 → k ∈ keywords →
       ∃ m, node_label g4 m = Some Label.Keyword
            ∧ prop g4 m "name" = Some (VStr k)
            ∧ (p, HAS_KEYWORD, m) ∈ g_rels g4).
Proof.
  intros H3 H4.
  pose proof (for_rows_merge_by_name Label.Keyword (unwind rows2.*1 keywords) g2)
    as (Hg3 & Hin3 & Hout3).
  pose proof (for_rows_keeps (merge_by_name Label.Keyword)
                (unwind rows2.*1 keywords) g2) as Hk3.
  rewrite H3 in Hg3, Hin3, Hout3, Hk3. simpl in *.
  rewrite has_keyword_rows in H4.
  pose proof (for_rows_merge_rel (λ r : nat * nat, (r.1, HAS_KEYWORD, r.2))
                rows3 g3) as (Hrows4 & Hn4 & Hr4).
  rewrite H4 in Hrows4, Hn4, Hr4. simpl in *. subst rows4.
  split_and!.
  - etrans; [exact Hg3|]. split; [exists []; by rewrite Hn4, app_nil_r|].
    intros x Hx. apply Hr4. by left.
  - etrans; [apply Hk3; intros; by apply merge_by_name_keeps|].
    exists []. rewrite Hn4, app_nil_r. done.
  - intros p. rewrite (list_elem_of_fmap fst rows3). split.
    + intros ([p' n] & -> & Hx). simpl.
      destruct (Hout3 p' n Hx) as (name & [Hp Ha]%elem_of_unwind & _).
      split; [done|]. intros ->. by apply elem_of_nil in Ha.
    + intros [Hp Ha]. destruct keywords as [|k keywords]; [done|].
      destruct (Hin3 p k) as (n & Hn & _); [apply elem_of_unwind; split; [done|left]|].
      by exists (p, n).
  - intros p k Hp Hk.
    destruct (Hin3 p k) as (m & Hm & Hl & Hname); [by apply elem_of_unwind|].
    exists m. unfold node_label, prop in *. rewrite Hn4.
    split; [done|]. split; [done|]. apply Hr4. right. by exists (p, m).
Qed.

(** What the query of [DBAgent._create_paper_tx] leaves. *)
Lemma dbagent_create_paper_query_post
    pid title summary year url authors keywords now g :
  let r := DBAgent.create_paper_query pid title summary year url authors
             keywords now g in
  match_nodes Label.Paper [("id", VStr pid)] r.1 ≠ []
  ∧ (r.2 ≠ [] ↔ authors ≠ [] ∧ keywords ≠ [])
  ∧ (∀ p, p ∈ match_nodes Label.Paper [("id", VStr pid)] r.1 →
       prop r.1 p "title" = Some (VStr title)
       ∧ prop r.1 p "summary" = Some (VStr summary)
       ∧ prop r.1 p "year" = Some (VInt year)
       ∧ prop r.1 p "url" = Some (VStr url)
       ∧ (∀ a, a ∈ authors →
            ∃ n, node_label r.1 n = Some Label.Author
                 ∧ prop r.1 n "name" = Some (VStr a)
                 ∧ (n, AUTHORED, p) ∈ g_rels r.1)
       ∧ (authors ≠ [] → ∀ k, k ∈ keywords →
            ∃ m, node_label r.1 m = Some Label.Keyword
                 ∧ prop r.1 m "name" = Some (VStr k)
                 ∧ (p, HAS_KEYWORD, m) ∈ g_rels r.1)).
Proof.
  unfold DBAgent.create_paper_query.
  destruct (merge_node Label.Paper [("id", VStr pid)] g) as [gA ps0] eqn:HA.
  destruct (for_rows _ ps0 gA) as [gB ps] eqn:HB.
  destruct (for_rows (merge_by_name Label.Author) (unwind ps authors) gB)
    as [g1 rows1] eqn:H1.
  destruct (for_rows _ rows1 g1) as [g2 rows2] eqn:H2.
  destruct (for_rows (merge_by_name Label.Keyword) (unwind rows2.*1 keywords) g2)
    as [g3 rows3] eqn:H3.
  destruct (for_rows _ rows3 g3) as [g4 rows4] eqn:H4.
  simpl.
  edestruct (upsert_authors_post pid) as (Hne & Hm & Hrows & Hprops & Hauth);
    [exact HA|exact HB|exact H1|exact H2| |].
  { by repeat constructor. }
  destruct (keywords_post keywords g2 rows2 g3 rows3 g4 rows4 H3 H4)
    as (Hg4 & Hk4 & Hrows4 & Hkw).
  rewrite (keeps_papers_match_nodes g2 g4), Hm by done.
  split; [done|]. split.
  - assert (rows4.*1 ≠ [] ↔ authors ≠ [] ∧ keywords ≠ []) as <-.
    { destruct ps as [|p0 ps]; [done|]. split.
      - intros Hr. destruct rows4 as [|[p k] rest]; [done|].
        destruct (proj1 (Hrows4 p)) as [Hp ?]; [left|].
        apply Hrows in Hp as [_ ?]. done.
      - intros [Ha Hk] Hr.
        assert (Hp : p0 ∈ rows4.*1).
        { apply Hrows4. split; [|done]. apply Hrows. split; [left|done]. }
        rewrite Hr in Hp. by apply elem_of_nil in Hp. }
    done.
  - intros p Hp.
    assert (Hlt : p < length (g_nodes g2)).
    { rewrite <- Hm in Hp. by apply elem_of_match_nodes, matches_at_valid in Hp. }
    rewrite !(grows_prop_eq g2 g4) by done.
    split_and!; try (apply Hprops; [done|]; intros d; reflexivity).
    + intros a Ha. destruct (Hauth p a Hp Ha) as (n & Hl & Hn & Hr).
      exists n. split; [by eapply grows_label|].
      split; [by eapply grows_prop|by eapply grows_rel].
    + intros Ha k Hk. apply Hkw; [|done]. apply Hrows. done.
Qed.

(** What the query of [Neo4jHandler._create_paper_tx] leaves. *)
Lemma handler_create_paper_query_post
    pid title abstract year url full_text authors images now g :
  ∃ g', Neo4jHandler.create_paper_query pid title abstract year url full_text
          authors [] images now g = Ret (g', [])
    ∧ match_nodes Label.Paper [("id", VStr pid)] g' ≠ []
    ∧ (∀ p, p ∈ match_nodes Label.Paper [("id", VStr pid)] g' →
         prop g' p "id" = Some (VStr pid)
         ∧ prop g' p "title" = Some (VStr title)
         ∧ prop g' p "abstract" = Some (VStr abstract)
         ∧ prop g' p "year" = Some (VInt year)
         ∧ prop g' p "url" = Some (VStr url)
         ∧ prop g' p "full_text" = VStr <$> full_text
         ∧ (∀ a, a ∈ authors →
              ∃ n, node_label g' n = Some Label.Author
                   ∧ prop g' n "name" = Some (VStr a)
                   ∧ (n, AUTHORED, p) ∈ g_rels g')).
Proof.
  unfold Neo4jHandler.create_paper_query.
  destruct (merge_node Label.Paper [("id", VStr pid)] g) as [gA ps0] eqn:HA.
  destruct (for_rows _ ps0 gA) as [gB ps] eqn:HB.
  destruct (for_rows (merge_by_name Label.Author) (unwind ps authors) gB)
    as [g1 rows1] eqn:H1.
  destruct (for_rows _ rows1 g1) as [g2 rows2] eqn:H2.
  rewrite unwind_nil. simpl. exists g2. split; [done|].
  edestruct (upsert_authors_post pid) as (Hne & Hm & Hrows & Hprops & Hauth);
    [exact HA|exact HB|exact H1|exact H2| |].
  { by repeat constructor. }
  rewrite Hm. split; [done|]. intros p Hp.
  split.
  { rewrite <- Hm in Hp. apply elem_of_match_nodes, matches_at_alt in Hp as [_ Hp].
    by apply Forall_inv in Hp. }
  split_and!; try (apply Hprops; [done|]; intros d; reflexivity).
  intros a Ha. by apply Hauth.
Qed.

End Store_post.

(* ===================================================================== *)
(** * More on the two read queries of [DBAgent] *)
(* ===================================================================== *)

Section Read_queries.
Import Cypher Driver Statements.
Implicit Types (g : graph) (s : db).

Lemma keys_of_aggregate g rows :
  key_of <$> aggregate g rows = distinct (paper_key g ∘ row_p <$> rows).
Proof.
  unfold aggregate. rewrite <- list_fmap_compose.
  etrans; [|apply list_fmap_id]. apply list_fmap_ext.
  intros i key _. apply key_of_record_of_group.
Qed.

(** No record comes twice out of a read query. *)
Lemma NoDup_keys_of_aggregate g rows : NoDup (key_of <$> aggregate g rows).
Proof. rewrite keys_of_aggregate. apply NoDup_distinct. Qed.

Lemma holds_search_intro y t sm topic start_year yz :
  y = Some (VInt yz) → (start_year ≤ yz)%Z →
  (∃ tt, t = Some (VStr tt) ∧ occurs_in topic tt)
  ∨ (∃ tt, sm = Some (VStr tt) ∧ occurs_in topic tt) →
  holds (cy_and (cy_ge y start_year)
           (cy_or (cy_contains t topic) (cy_contains sm topic))).
Proof.
  intros -> Hy Hts. unfold holds, cy_ge. rewrite bool_decide_eq_true_2 by done.
  destruct Hts as [(tt & -> & Hin%str_in_spec)|(tt & -> & Hin%str_in_spec)];
    simpl; rewrite Hin.
  - by destruct (cy_contains sm topic) as [[]|].
  - by destruct (cy_contains t topic) as [[]|].
Qed.

(** The rows the search aggregates. *)
Lemma search_rows_spec topic start_year g p a k :
  (p, a, k) ∈ (r ← (p ← filter
                          (λ p, holds (cy_and (cy_ge (prop g p "year") start_year)
                                         (cy_or (cy_contains (prop g p "title") topic)
                                                (cy_contains (prop g p "summary") topic))))
                          (match_nodes Label.Paper [] g);
                    a ← sources_of g Label.Author AUTHORED p; [(p, a)]);
               k ← targets_of g r.1 HAS_KEYWORD; [(r.1, r.2, k)])
  ↔ holds (cy_and (cy_ge (prop g p "year") start_year)
             (cy_or (cy_contains (prop g p "title") topic)
                    (cy_contains (prop g p "summary") topic)))
    ∧ joined g (paper_key g p) p a k.
Proof.
  rewrite elem_of_keyword_rows, list_elem_of_bind. unfold joined. split.
  - intros ((p' & Hin & Hp') & Hrel & Hk).
    apply list_elem_of_bind in Hin as (a' & Hin & Ha').
    apply list_elem_of_singleton in Hin. simplify_eq.
    apply list_elem_of_filter in Hp' as [HP Hp'].
    apply elem_of_match_nodes, matches_at_alt in Hp' as [Hl _].
    apply elem_of_sources_of in Ha' as [? ?]. done.
  - intros (HP & Hl & _ & Ha & Hla & Hrel & Hk). split; [|done].
    exists p. split.
    + apply list_elem_of_bind. exists a.
      split; [by apply list_elem_of_singleton|]. by apply elem_of_sources_of.
    + apply list_elem_of_filter. split; [done|].
      apply elem_of_match_nodes, matches_at_alt. split; [done|constructor].
Qed.

Lemma length_aggregate g (rows : list (nat * nat * nat)) :
  (∀ row, row ∈ rows → row_p row < length (g_nodes g)) →
  length (aggregate g rows) ≤ length (g_nodes g).
Proof.
  intros Hvalid. unfold aggregate. rewrite length_fmap.
  trans (length (paper_key g <$> node_ids g)).
  - apply submseteq_length, NoDup_submseteq; [apply NoDup_distinct|].
    intros key Hkey. rewrite elem_of_distinct in Hkey.
    apply list_elem_of_fmap in Hkey as (row & -> & Hrow).
    apply list_elem_of_fmap. exists (row_p row). split; [done|].
    apply elem_of_node_ids. auto.
  - rewrite length_fmap. unfold node_ids. by rewrite length_seq.
Qed.

Lemma query_papers_query_complete topic start_year limit g out :
  DBAgent.query_papers_query topic start_year limit g = Ret out →
  NoDup (key_of <$> out)
  ∧ ((Z.of_nat (length (g_nodes g)) ≤ limit)%Z →
     ∀ key, key ∈ key_of <$> out ↔ search_hit g topic start_year key).
Proof.
  unfold DBAgent.query_papers_query, limit_rows.
  destruct (decide (limit < 0)%Z) as [|Hlim]; [done|]. intros [= <-].
  set (rows := _ ≫= (λ r, _ ≫= (λ k, [(r.1, r.2, k)]))).
  pose proof (search_rows_spec topic start_year g) as Hrows. fold rows in Hrows.
  split.
  - rewrite fmap_take. eapply sublist_NoDup; [|apply sublist_take].
    rewrite merge_sort_Permutation. apply NoDup_keys_of_aggregate.
  - intros Hbig key. rewrite take_ge.
    2: { rewrite merge_sort_Permutation.
         etrans; [apply length_aggregate|lia].
         intros [[p a] k] [_ Hj]%Hrows. destruct Hj as (Hl & _).
         by apply node_label_valid in Hl. }
    rewrite merge_sort_Permutation, keys_of_aggregate, elem_of_distinct,
      list_elem_of_fmap.
    unfold search_hit. split.
    + intros ([[p a] k] & -> & [HP Hj]%Hrows). simpl.
      apply holds_search in HP as (y & Hy & Hle & Hts).
      exists p, a, k, y. done.
    + intros (p & a & k & y & Hj & Hy & Hle & Hts).
      exists (p, a, k). simpl. destruct Hj as (Hl & <- & Hj).
      split; [done|]. apply Hrows. split.
      * by eapply holds_search_intro.
      * done.
Qed.

(** Property X14. The search is complete when the limit does not cut. If the
    limit is not below the number of nodes of the database, the records
    [_query_papers_tx] returns stand for exactly the papers that have an
    author and a keyword, a year not below the minimum year, and the topic
    inside their title or their summary. A paper without an author or
    without a keyword is never found. *)
Theorem query_papers_complete srv topic start_year limit s out s' :
  DBAgent._query_papers_tx srv topic start_year limit s = (Ret out, s') →
  (Z.of_nat (length (g_nodes (graph_of s))) ≤ limit)%Z →
  ∀ key, key ∈ key_of <$> out ↔ search_hit (graph_of s) topic start_year key.
Proof.
  intros [Hq _]%query_papers_tx_inv Hbig.
  apply query_papers_query_complete in Hq as [_ Hq]. by apply Hq.
Qed.

Lemma query_papers_complete_witness :
  (Some (VStr "2401.00002"), Some (VStr "Annealing"),
   Some (VStr "Quantum annealing."), Some (VInt 2023),
   Some (VStr "http://x/2.pdf")) ∈ key_of <$> Fixtures.quantum_since_2020
  ↔ search_hit (graph_of Fixtures.library) "Quantum" 2020
      (Some (VStr "2401.00002"), Some (VStr "Annealing"),
       Some (VStr "Quantum annealing."), Some (VInt 2023),
       Some (VStr "http://x/2.pdf")).
Proof.
  apply (query_papers_complete (healthy 0) "Quantum" 2020 10 Fixtures.library
           Fixtures.quantum_since_2020 Fixtures.library).
  - vm_compute. reflexivity.
  - vm_compute. discriminate.
Defined.

Lemma related_keys rank pid limit g out :
  DBAgent.related_papers_query rank pid limit g = Ret out →
  NoDup (key_of <$> out).
Proof.
  unfold DBAgent.related_papers_query, limit_rows.
  destruct (decide (limit < 0)%Z) as [|Hlim]; [done|].
  unfold mbind at 1, outcome_bind. intros [= <-].
  rewrite emitted_Permutation. apply NoDup_keys_of_aggregate.
Qed.

(** Property X15. Neither read query of [DBAgent] returns two records with
    the same id, title, summary, year and url. *)
Theorem read_queries_list_each_record_once srv s :
  (∀ topic start_year limit out s',
     DBAgent._query_papers_tx srv topic start_year limit s = (Ret out, s') →
     NoDup (key_of <$> out))
  ∧ (∀ paper_id limit out s',
       DBAgent._get_related_papers_tx srv paper_id limit s = (Ret out, s') →
       NoDup (key_of <$> out)).
Proof.
  split.
  - intros topic start_year limit out s' [Hq _]%query_papers_tx_inv.
    by apply query_papers_query_complete in Hq as [Hq _].
  - intros paper_id limit out s' [Hq _]%get_related_papers_tx_inv.
    by eapply related_keys.
Qed.

Lemma read_queries_list_each_record_once_witness :
  NoDup (key_of <$> Fixtures.quantum_since_2020)
  ∧ NoDup (key_of <$> Fixtures.related_to_quantum_a).
Proof.
  split.
  - apply (proj1 (read_queries_list_each_record_once (healthy 0)
                    Fixtures.library) "Quantum" 2020%Z 10%Z _ Fixtures.library).
    vm_compute. reflexivity.
  - apply (proj2 (read_queries_list_each_record_once (healthy 0)
                    Fixtures.library) "2401.00001" 5%Z _ Fixtures.library).
    vm_compute. reflexivity.
Defined.

Lemma related_rows_nil pid g :
  (∀ p k, p ∈ papers_with_id g pid → (p, HAS_KEYWORD, k) ∈ g_rels g →
          node_label g k ≠ Some Label.Keyword) →
  DBAgent.related_rows pid g = [].
Proof.
  intros Hno. destruct (DBAgent.related_rows pid g) as [|[[p k] r] rows] eqn:E;
    [done|]. exfalso.
  assert (Hin : (p, k, r) ∈ DBAgent.related_rows pid g) by (rewrite E; left).
  apply elem_of_related_rows in Hin as (Hp & Hk & _).
  apply elem_of_targets_with_label in Hk as [Hrel Hl].
  by apply (Hno p k).
Qed.

(** Property X16. On a server that answers, and with a limit that is not
    negative, [get_related_papers] returns the empty list when no paper with
    the id has a keyword, and an id the database does not hold is one such
    case. The database and the log are left as they were. *)
Theorem related_papers_of_untagged srv paper_id limit s :
  (∀ c, fault srv c = None) → (0 ≤ limit)%Z →
  (∀ p k, p ∈ papers_with_id (graph_of s) paper_id →
          (p, HAS_KEYWORD, k) ∈ g_rels (graph_of s) →
          node_label (graph_of s) k ≠ Some Label.Keyword) →
  DBAgent.get_related_papers srv paper_id limit s = (Ret [], s).
Proof.
  intros Hok Hlim Hno.
  unfold DBAgent.get_related_papers, DBAgent._get_related_papers_tx,
    with_session, execute, try_finally, reach, run, try_except, mbind, M_bind.
  rewrite !Hok.
  unfold DBAgent.related_papers_query, limit_rows.
  rewrite related_rows_nil by done. rewrite decide_False by lia.
  change (merge_sort DBAgent.by_count_desc (DBAgent.count_common []))
    with (@nil (nat * nat)).
  rewrite take_nil. simpl. by destruct s.
Qed.

Lemma related_papers_of_untagged_witness :
  DBAgent.get_related_papers (healthy 0) "2401.99999" 5 Fixtures.library
  = (Ret [], Fixtures.library).
Proof.
  apply (related_papers_of_untagged (healthy 0) "2401.99999" 5 Fixtures.library).
  - reflexivity.
  - lia.
  - intros p k Hp. vm_compute in Hp. exfalso. exact (proj1 (elem_of_nil p) Hp).
Defined.

(** Property X17. Whatever the order the server emits the groups in: when
    the ids of the papers are distinct, the records [_get_related_papers_tx]
    returns never include the paper asked about, there are at most [limit] of
    them, and each shares one keyword or more with that paper. *)
Theorem related_papers_sound srv paper_id limit s out s' :
  unique_paper_ids (graph_of s) →
  DBAgent._get_related_papers_tx srv paper_id limit s = (Ret out, s') →
  Forall (λ r, rec_id r ≠ Some (VStr paper_id)) out
  ∧ (Z.of_nat (length out) ≤ limit)%Z
  ∧ Forall (λ r, 1 ≤ shared_keywords (graph_of s) (Some (VStr paper_id))
                       (rec_id r)) out.
Proof.
  intros Hu [Hq _]%get_related_papers_tx_inv.
  by eapply related_papers_query_sound.
Qed.

Lemma related_papers_sound_witness :
  Forall (λ r, rec_id r ≠ Some (VStr "2401.00001")) Fixtures.related_to_quantum_a
  ∧ (Z.of_nat (length Fixtures.related_to_quantum_a) ≤ 5)%Z
  ∧ Forall (λ r, 1 ≤ shared_keywords (graph_of Fixtures.library)
                       (Some (VStr "2401.00001")) (rec_id r))
      Fixtures.related_to_quantum_a.
Proof.
  apply (related_papers_sound (healthy 0) "2401.00001" 5 Fixtures.library
           Fixtures.related_to_quantum_a Fixtures.library).
  - apply (bool_decide_unpack (unique_paper_ids (graph_of Fixtures.library))).
    vm_compute. exact I.
  - vm_compute. reflexivity.
Defined.

End Read_queries.

(* ===================================================================== *)
(** * What a store leaves alone *)
(* ===================================================================== *)

Section Store_frame.
Import Cypher Driver Statements.
Implicit Types (g : graph) (i j p : nat) (l : label) (s : db).

(** The head of both store queries only touches the papers with the id:
    every other node of the graph is left as it was, no relationship is
    removed, the nodes it adds are papers and authors and the relationships
    it adds are authorships. *)
Lemma upsert_authors_frame pid kvs authors g gA ps0 gB ps g1 rows1 g2 rows2 :
  merge_node Label.Paper [("id", VStr pid)] g = (gA, ps0) →
  for_rows (λ p g, (set_props p kvs g, [p])) ps0 gA = (gB, ps) →
  for_rows (merge_by_name Label.Author) (unwind ps authors) gB = (g1, rows1) →
  for_rows (λ '(p, a) g, (merge_rel a AUTHORED p g, [(p, a)])) rows1 g1
  = (g2, rows2) →
  length (g_nodes g) ≤ length (g_nodes g2)
  ∧ g_rels g ⊆ g_rels g2
  ∧ (∀ i, i < length (g_nodes g) →
          i ∉ match_nodes Label.Paper [("id", VStr pid)] g →
          g_nodes g2 !! i = g_nodes g !! i)
  ∧ (∀ i, i < length (g_nodes g) → node_label g2 i = node_label g i)
  ∧ (∀ i l, length (g_nodes g) ≤ i → node_label g2 i = Some l →
            l = Label.Paper ∨ l = Label.Author)
  ∧ (∀ x, x ∈ g_rels g2 → x ∈ g_rels g ∨ x.1.2 = AUTHORED).
Proof.
  intros HA HB H1 H2.
  pose proof (merge_paper_spec pid g) as HmA. rewrite HA in HmA. simpl in HmA.
  destruct HmA as (HmA & Hne & Hnew & Hold).
  pose proof (merge_node_grows Label.Paper [("id", VStr pid)] g) as HgA.
  rewrite HA in HgA. simpl in HgA.
  assert (HnA : g_nodes gA = g_nodes g
                ∨ g_nodes gA = g_nodes g ++ [{| n_label := Label.Paper;
                                                n_props := list_to_map [("id", VStr pid)] |}]).
  { unfold merge_node in HA.
    destruct (match_nodes Label.Paper [("id", VStr pid)] g); simplify_eq; auto. }
  assert (HrA : g_rels gA = g_rels g).
  { unfold merge_node in HA.
    destruct (match_nodes Label.Paper [("id", VStr pid)] g); by simplify_eq. }
  pose proof (set_rows_spec kvs ps0 gA) as HsB. rewrite HB in HsB. simpl in HsB.
  destruct HsB as (-> & Hlen & HrB & Hlab & _ & _ & _).
  pose proof (set_rows_lookup kvs ps0 gA) as HlB. rewrite HB in HlB. simpl in HlB.
  pose proof (for_rows_merge_by_name_nodes Label.Author (unwind ps0 authors) gB)
    as (e1 & He1 & Hl1 & Hr1).
  rewrite H1 in He1, Hr1. simpl in *.
  rewrite authored_rows in H2.
  pose proof (for_rows_merge_rel (λ r : nat * nat, (r.2, AUTHORED, r.1)) rows1 g1)
    as (_ & Hn2 & Hr2).
  rewrite H2 in Hn2, Hr2. simpl in *.
  assert (HlenA : length (g_nodes g) ≤ length (g_nodes gA)) by by apply grows_length.
  split_and!.
  - rewrite Hn2, He1, length_app, Hlen. lia.
  - intros x Hx. apply Hr2. left. rewrite Hr1, HrB, HrA. done.
  - intros i Hi Hnot. rewrite Hn2, He1, lookup_app_l by (rewrite Hlen; lia).
    rewrite HlB.
    + by apply grows_lookup.
    + destruct (decide (match_nodes Label.Paper [("id", VStr pid)] g = []))
        as [He|He].
      * rewrite (Hnew He). intros ->%list_elem_of_singleton. lia.
      * destruct (Hold He) as [_ ->]. done.
  - intros i Hi. unfold node_label at 1. rewrite Hn2, He1.
    rewrite lookup_app_l by (rewrite Hlen; lia).
    fold (node_label gB i). rewrite Hlab. by apply grows_label_eq.
  - intros i l Hi Hl. unfold node_label in Hl. rewrite Hn2, He1 in Hl.
    destruct (decide (i < length (g_nodes gB))) as [HiB|HiB].
    + rewrite lookup_app_l in Hl by done. fold (node_label gB i) in Hl.
      rewrite Hlab in Hl. left. unfold node_label in Hl.
      destruct HnA as [HnA|HnA]; rewrite HnA in Hl.
      * rewrite lookup_ge_None_2 in Hl by lia. done.
      * rewrite lookup_app_r in Hl by lia.
        destruct (i - length (g_nodes g)) as [|k]; simpl in Hl; [by simplify_eq|].
        by destruct k.
    + rewrite lookup_app_r in Hl by lia. right.
      destruct (e1 !! (i - length (g_nodes gB))) as [n|] eqn:En; [|done].
      simpl in Hl. apply list_elem_of_lookup_2 in En.
      eapply Forall_forall in Hl1; [|done]. congruence.
  - intros x [Hx|(row & _ & ->)]%Hr2; [|by right].
    left. by rewrite Hr1, HrB, HrA in Hx.
Qed.

(** The same for the tail of the query of [DBAgent]: the nodes it adds are
    keywords. *)
Lemma keywords_frame keywords g2 (rows2 : list (nat * nat)) g3 rows3 g4 rows4 :
  for_rows (merge_by_name Label.Keyword) (unwind rows2.*1 keywords) g2
  = (g3, rows3) →
  for_rows (λ '(p, k) g, (merge_rel p HAS_KEYWORD k g, [(p, k)])) rows3 g3
  = (g4, rows4) →
  grows g2 g4.
Proof.
  intros H3 H4. by destruct (keywords_post keywords g2 rows2 g3 rows3 g4 rows4).
Qed.

Lemma dbagent_create_paper_query_frame
    pid title summary year url authors keywords now g i :
  let r := DBAgent.create_paper_query pid title summary year url authors
             keywords now g in
  i < length (g_nodes g) →
  i ∉ match_nodes Label.Paper [("id", VStr pid)] g →
  g_nodes r.1 !! i = g_nodes g !! i ∧ g_rels g ⊆ g_rels r.1.
Proof.
  unfold DBAgent.create_paper_query.
  destruct (merge_node Label.Paper [("id", VStr pid)] g) as [gA ps0] eqn:HA.
  destruct (for_rows _ ps0 gA) as [gB ps] eqn:HB.
  destruct (for_rows (merge_by_name Label.Author) (unwind ps authors) gB)
    as [g1 rows1] eqn:H1.
  destruct (for_rows _ rows1 g1) as [g2 rows2] eqn:H2.
  destruct (for_rows (merge_by_name Label.Keyword) (unwind rows2.*1 keywords) g2)
    as [g3 rows3] eqn:H3.
  destruct (for_rows _ rows3 g3) as [g4 rows4] eqn:H4.
  simpl. intros Hi Hnot.
  destruct (upsert_authors_frame pid _ authors g gA ps0 gB ps g1 rows1 g2 rows2
              HA HB H1 H2) as (Hlen & Hrel & Hsame & _).
  pose proof (keywords_frame keywords g2 rows2 g3 rows3 g4 rows4 H3 H4) as Hg4.
  split.
  - rewrite (grows_lookup g2 g4) by (done || lia). by apply Hsame.
  - intros x Hx. eapply grows_rel; [done|]. by apply Hrel.
Qed.

Lemma handler_create_paper_query_frame
    pid title abstract year url full_text authors images now g :
  ∃ g', Neo4jHandler.create_paper_query pid title abstract year url full_text
          authors [] images now g = Ret (g', [])
    ∧ g_rels g ⊆ g_rels g'
    ∧ (∀ i, i < length (g_nodes g) →
            i ∉ match_nodes Label.Paper [("id", VStr pid)] g →
            g_nodes g' !! i = g_nodes g !! i)
    ∧ (∀ i, i < length (g_nodes g) → node_label g' i = node_label g i)
    ∧ (∀ i l, length (g_nodes g) ≤ i → node_label g' i = Some l →
              l = Label.Paper ∨ l = Label.Author)
    ∧ (∀ x, x ∈ g_rels g' → x ∈ g_rels g ∨ x.1.2 = AUTHORED).
Proof.
  unfold Neo4jHandler.create_paper_query.
  destruct (merge_node Label.Paper [("id", VStr pid)] g) as [gA ps0] eqn:HA.
  destruct (for_rows _ ps0 gA) as [gB ps] eqn:HB.
  destruct (for_rows (merge_by_name Label.Author) (unwind ps authors) gB)
    as [g1 rows1] eqn:H1.
  destruct (for_rows _ rows1 g1) as [g2 rows2] eqn:H2.
  rewrite unwind_nil. simpl. exists g2. split; [done|].
  destruct (upsert_authors_frame pid _ authors g gA ps0 gB ps g1 rows1 g2 rows2
              HA HB H1 H2) as (_ & Hrel & Hsame & Hlab & Hnew & Hrels).
  done.
Qed.

End Store_frame.

(* ===================================================================== *)
(** * More on the two stores *)
(* ===================================================================== *)

Section Store_results.
Import Cypher Driver Statements.
Implicit Types (g : graph) (i j p : nat) (l : label) (s : db).

(** Property X18. On a server that answers, [DBAgent.store_paper] always
    writes the paper, and it returns [True] exactly when the paper has an
    author and a keyword: a paper without authors or without keywords is
    written and reported as not stored. *)
Theorem dbagent_store_paper_result srv paper s :
  (∀ c, fault srv c = None) →
  result_of (DBAgent.store_paper srv paper s)
  = Ret (bool_decide (DBAgent.authors paper ≠ []
                      ∧ default [] (DBAgent.keywords paper) ≠ []))
  ∧ papers_with_id (graph_of (state_of (DBAgent.store_paper srv paper s)))
      (DBAgent.id paper) ≠ [].
Proof.
  intros Hok. rewrite (dbagent_store_paper_healthy srv paper s Hok).
  unfold result_of, state_of, papers_with_id. simpl.
  destruct (dbagent_create_paper_query_post (DBAgent.id paper)
              (DBAgent.title paper) (DBAgent.summary paper)
              (DBAgent.year paper) (DBAgent.url paper) (DBAgent.authors paper)
              (default [] (DBAgent.keywords paper)) (clock srv) (graph_of s))
    as (Hne & Hrows & _).
  split; [|done]. f_equal. by apply bool_decide_ext.
Qed.

Lemma dbagent_store_paper_result_witness :
  result_of (DBAgent.store_paper (healthy 0) Fixtures.untagged Fixtures.fresh)
  = Ret (bool_decide (DBAgent.authors Fixtures.untagged ≠ []
                      ∧ default [] (DBAgent.keywords Fixtures.untagged) ≠ []))
  ∧ papers_with_id
      (graph_of (state_of (DBAgent.store_paper (healthy 0) Fixtures.untagged
                             Fixtures.fresh)))
      (DBAgent.id Fixtures.untagged) ≠ [].
Proof.
  apply (dbagent_store_paper_result (healthy 0) Fixtures.untagged Fixtures.fresh).
  reflexivity.
Defined.

(** A paper without keywords is written, and reported as not stored. *)
Example untagged_paper_is_reported_lost :
  result_of (DBAgent.store_paper (healthy 0) Fixtures.untagged Fixtures.fresh)
  = Ret false
  ∧ papers_with_id
      (graph_of (state_of (DBAgent.store_paper (healthy 0) Fixtures.untagged
                             Fixtures.fresh))) "2401.00004" = [0].
Proof. split; vm_compute; reflexivity. Qed.

(** Property X19. The failure policy of [DBAgent]. When a call of the driver
    fails, [store_paper] returns [False] and the two read methods return the
    empty list; each of them logs exactly one error and raises nothing. The
    reads leave the graph as it was, and so does the store, unless the call
    that fails is the closing of the session, which comes after the commit. *)
Theorem dbagent_failure_policy srv c e s :
  fault srv c = Some e →
  (∀ paper, ∃ msg s',
     DBAgent.store_paper srv paper s = (Ret false, s')
     ∧ log_of s' = log_of s ++ [ERROR msg]
     ∧ (c ≠ CloseSession → graph_of s' = graph_of s))
  ∧ (∀ topic start_year limit, ∃ msg s',
       DBAgent.query_papers srv topic start_year limit s = (Ret [], s')
       ∧ log_of s' = log_of s ++ [ERROR msg]
       ∧ graph_of s' = graph_of s)
  ∧ (∀ paper_id limit, ∃ msg s',
       DBAgent.get_related_papers srv paper_id limit s = (Ret [], s')
       ∧ log_of s' = log_of s ++ [ERROR msg]
       ∧ graph_of s' = graph_of s).
Proof.
  intros He. split_and!.
  - intros paper.
    unfold DBAgent.store_paper, DBAgent._create_paper_tx, with_session, execute,
      try_finally, reach, run, log.
    generalize (DBAgent.create_paper_query (DBAgent.id paper)
                  (DBAgent.title paper) (DBAgent.summary paper)
                  (DBAgent.year paper) (DBAgent.url paper)
                  (DBAgent.authors paper)
                  (default [] (DBAgent.keywords paper)) (clock srv) (graph_of s)).
    intros [g rows]. run_M.
    destruct c; rewrite ?He; repeat case_match; simplify_eq; simpl;
      eexists _, _; (split; [reflexivity|]); simpl; split; done.
  - intros topic start_year limit.
    unfold DBAgent.query_papers, DBAgent._query_papers_tx, with_session, execute,
      try_finally, reach, run, log.
    generalize (DBAgent.query_papers_query topic start_year limit (graph_of s)).
    intros qr. run_M. unfold fmap, outcome_fmap.
    destruct c; rewrite ?He; repeat case_match; simplify_eq; simpl;
      eexists _, _; (split; [reflexivity|]); simpl; split; done.
  - intros paper_id limit.
    unfold DBAgent.get_related_papers, DBAgent._get_related_papers_tx,
      with_session, execute, try_finally, reach, run, log.
    generalize (DBAgent.related_papers_query (group_rank srv) paper_id limit
                  (graph_of s)).
    intros qr. run_M. unfold fmap, outcome_fmap.
    destruct c; rewrite ?He; repeat case_match; simplify_eq; simpl;
      eexists _, _; (split; [reflexivity|]); simpl; split; done.
Qed.

Lemma dbagent_failure_policy_witness :
  (∀ paper, ∃ msg s',
     DBAgent.store_paper Fixtures.no_commit paper Fixtures.fresh = (Ret false, s')
     ∧ log_of s' = log_of Fixtures.fresh ++ [ERROR msg]
     ∧ (Commit ≠ CloseSession → graph_of s' = graph_of Fixtures.fresh))
  ∧ (∀ topic start_year limit, ∃ msg s',
       DBAgent.query_papers Fixtures.no_commit topic start_year limit
         Fixtures.fresh = (Ret [], s')
       ∧ log_of s' = log_of Fixtures.fresh ++ [ERROR msg]
       ∧ graph_of s' = graph_of Fixtures.fresh)
  ∧ (∀ paper_id limit, ∃ msg s',
       DBAgent.get_related_papers Fixtures.no_commit paper_id limit
         Fixtures.fresh = (Ret [], s')
       ∧ log_of s' = log_of Fixtures.fresh ++ [ERROR msg]
       ∧ graph_of s' = graph_of Fixtures.fresh).
Proof.
  apply (dbagent_failure_policy Fixtures.no_commit Commit
           (LibraryError "ServiceUnavailable" "connection lost") Fixtures.fresh).
  reflexivity.
Defined.

End Store_results.

(* ===================================================================== *)
(** * Invariants of the databases the stores build *)
(* ===================================================================== *)

Section Invariants.
Import Cypher Driver Statements.
Implicit Types (g : graph) (i j p : nat) (l : label) (s : db).

Lemma unique_names_alt l g :
  unique_names l g ↔ ∀ v, length (match_nodes l [("name", v)] g) ≤ 1.
Proof.
  unfold unique_names. split.
  - intros Hu v.
    pose proof (NoDup_match_nodes l [("name", v)] g) as Hnd.
    destruct (match_nodes l [("name", v)] g) as [|a [|b k]] eqn:E;
      simpl; [lia|lia|]. exfalso.
    assert (Ha : a ∈ match_nodes l [("name", v)] g) by (rewrite E; left).
    assert (Hb : b ∈ match_nodes l [("name", v)] g)
      by (rewrite E; right; left).
    rewrite elem_of_match_nodes, matches_at_alt, Forall_singleton in Ha, Hb.
    destruct Ha as [Hla Hpa], Hb as [Hlb Hpb]. simpl in *.
    assert (a = b) as ->.
    { eapply (NoDup_omap_inj _ _ a b v Hu).
      - apply elem_of_node_ids. by eapply node_label_valid.
      - apply elem_of_node_ids. by eapply node_label_valid.
      - by rewrite decide_True.
      - by rewrite decide_True. }
    apply NoDup_cons in Hnd as [Hab _]. apply Hab. left.
  - intros Hone. apply NoDup_omap_2; [apply NoDup_node_ids|].
    intros x y v _ _ Hx Hy.
    destruct (decide (node_label g x = Some l)); [|done].
    destruct (decide (node_label g y = Some l)); [|done].
    assert (Hx' : x ∈ match_nodes l [("name", v)] g).
    { by rewrite elem_of_match_nodes, matches_at_alt, Forall_singleton. }
    assert (Hy' : y ∈ match_nodes l [("name", v)] g).
    { by rewrite elem_of_match_nodes, matches_at_alt, Forall_singleton. }
    specialize (Hone v).
    destruct (match_nodes l [("name", v)] g) as [|a [|b k]];
      simpl in Hone; [by apply elem_of_nil in Hx'| |lia].
    apply list_elem_of_singleton in Hx', Hy'. congruence.
Qed.

Lemma match_nodes_same_nodes l pat g g' :
  g_nodes g' = g_nodes g → match_nodes l pat g' = match_nodes l pat g.
Proof.
  intros Hn. unfold match_nodes, node_ids. rewrite Hn.
  apply filter_ext_in. intros i _. unfold matches_at. by rewrite Hn.
Qed.

Lemma for_rows_inv {R R'} (P : graph → Prop)
    (step : R → graph → graph * list R') rows g :
  (∀ r g, P g → P (step r g).1) → P g → P (for_rows step rows g).1.
Proof.
  intros Hstep. revert g. induction rows as [|r rows IH]; intros g Hg; simpl;
    [done|].
  specialize (Hstep r g Hg). destruct (step r g) as [g1 out1]. simpl in *.
  specialize (IH g1 Hstep). by destruct (for_rows step rows g1) as [g2 out2].
Qed.

(** [MERGE] of a node keeps the names of the label [l] distinct: it adds a
    node only when none matches. *)
Lemma merge_node_names l l' pat g :
  (l' = l → ∃ x, pat = [("name", x)]) →
  (∀ v, length (match_nodes l [("name", v)] g) ≤ 1) →
  ∀ v, length (match_nodes l [("name", v)] (merge_node l' pat g).1) ≤ 1.
Proof.
  intros Hpat Hu v. unfold merge_node.
  destruct (match_nodes l' pat g) as [|m ms] eqn:E; simpl; [|done].
  rewrite match_nodes_add_node.
  destruct (decide (node_matches l [("name", v)] _)) as [[Hl Hp]|];
    [|by rewrite app_nil_r].
  simpl in Hl. destruct (Hpat Hl) as [x ->]. subst l'.
  apply Forall_inv in Hp. simpl in Hp.
  rewrite lookup_insert_eq in Hp. injection Hp as ->.
  by rewrite E.
Qed.

Lemma merge_by_name_names l l' row g :
  (∀ v, length (match_nodes l [("name", v)] g) ≤ 1) →
  ∀ v, length (match_nodes l [("name", v)] (merge_by_name l' row g).1) ≤ 1.
Proof.
  intros Hu v. unfold merge_by_name.
  pose proof (merge_node_names l l' [("name", VStr row.2)] g) as Hm.
  destruct (merge_node l' _ g) as [g' ns]. simpl in *. apply Hm; [eauto|done].
Qed.

(** The head of both store queries keeps the names distinct. *)
Lemma upsert_authors_names l pid kvs authors g gA ps0 gB ps g1 rows1 g2 rows2 :
  merge_node Label.Paper [("id", VStr pid)] g = (gA, ps0) →
  for_rows (λ p g, (set_props p kvs g, [p])) ps0 gA = (gB, ps) →
  for_rows (merge_by_name Label.Author) (unwind ps authors) gB = (g1, rows1) →
  for_rows (λ '(p, a) g, (merge_rel a AUTHORED p g, [(p, a)])) rows1 g1
  = (g2, rows2) →
  Forall (λ kv, kv.1 ≠ "name") kvs →
  l ≠ Label.Paper →
  (∀ v, length (match_nodes l [("name", v)] g) ≤ 1) →
  ∀ v, length (match_nodes l [("name", v)] g2) ≤ 1.
Proof.
  intros HA HB H1 H2 Hkvs Hl Hu.
  pose proof (merge_node_names l Label.Paper [("id", VStr pid)] g) as HuA.
  rewrite HA in HuA. simpl in HuA.
  assert (HuA' : ∀ v, length (match_nodes l [("name", v)] gA) ≤ 1).
  { apply HuA; [|done]. intros <-. done. }
  pose proof (set_rows_spec kvs ps0 gA) as HsB. rewrite HB in HsB. simpl in HsB.
  destruct HsB as (_ & Hlen & _ & Hlab & Hother & _ & _).
  assert (HuB : ∀ v, length (match_nodes l [("name", v)] gB) ≤ 1).
  { intros v.
    assert (match_nodes l [("name", v)] gB = match_nodes l [("name", v)] gA)
      as ->; [|done].
    unfold match_nodes, node_ids. rewrite Hlen.
    apply filter_ext_in. intros i _. rewrite !matches_at_alt.
    rewrite Hlab, !Forall_singleton. simpl. by rewrite Hother. }
  pose proof (for_rows_inv (λ g, ∀ v, length (match_nodes l [("name", v)] g) ≤ 1)
                (merge_by_name Label.Author) (unwind ps authors) gB) as Hu1.
  rewrite H1 in Hu1. simpl in Hu1.
  rewrite authored_rows in H2.
  pose proof (for_rows_merge_rel (λ r : nat * nat, (r.2, AUTHORED, r.1)) rows1 g1)
    as (_ & Hn2 & _).
  rewrite H2 in Hn2. simpl in Hn2.
  intros v. rewrite (match_nodes_same_nodes l _ g1 g2) by done.
  apply Hu1; [|done]. intros r g' Hg'. by apply merge_by_name_names.
Qed.

Lemma dbagent_create_paper_query_names
    l pid title summary year url authors keywords now g :
  l ≠ Label.Paper →
  unique_names l g →
  unique_names l (DBAgent.create_paper_query pid title summary year url
                    authors keywords now g).1.
Proof.
  rewrite !unique_names_alt. intros Hl Hu.
  unfold DBAgent.create_paper_query.
  destruct (merge_node Label.Paper [("id", VStr pid)] g) as [gA ps0] eqn:HA.
  destruct (for_rows _ ps0 gA) as [gB ps] eqn:HB.
  destruct (for_rows (merge_by_name Label.Author) (unwind ps authors) gB)
    as [g1 rows1] eqn:H1.
  destruct (for_rows _ rows1 g1) as [g2 rows2] eqn:H2.
  destruct (for_rows (merge_by_name Label.Keyword) (unwind rows2.*1 keywords) g2)
    as [g3 rows3] eqn:H3.
  destruct (for_rows _ rows3 g3) as [g4 rows4] eqn:H4.
  simpl.
  assert (Hu2 : ∀ v, length (match_nodes l [("name", v)] g2) ≤ 1).
  { eapply (upsert_authors_names l pid); [exact HA|exact HB|exact H1|exact H2| | |];
      [by repeat constructor|done|done]. }
  pose proof (for_rows_inv (λ g, ∀ v, length (match_nodes l [("name", v)] g) ≤ 1)
                (merge_by_name Label.Keyword) (unwind rows2.*1 keywords) g2)
    as Hu3.
  rewrite H3 in Hu3. simpl in Hu3.
  rewrite has_keyword_rows in H4.
  pose proof (for_rows_merge_rel (λ r : nat * nat, (r.1, HAS_KEYWORD, r.2))
                rows3 g3) as (_ & Hn4 & _).
  rewrite H4 in Hn4. simpl in Hn4.
  intros v. rewrite (match_nodes_same_nodes l _ g3 g4) by done.
  apply Hu3; [|done]. intros r g' Hg'. by apply merge_by_name_names.
Qed.

Lemma handler_create_paper_query_names
    l pid title abstract year url full_text authors images now g g' rows :
  l ≠ Label.Paper →
  Neo4jHandler.create_paper_query pid title abstract year url full_text
    authors [] images now g = Ret (g', rows) →
  unique_names l g → unique_names l g'.
Proof.
  rewrite !unique_names_alt. intros Hl Hq Hu.
  unfold Neo4jHandler.create_paper_query in Hq.
  destruct (merge_node Label.Paper [("id", VStr pid)] g) as [gA ps0] eqn:HA.
  destruct (for_rows _ ps0 gA) as [gB ps] eqn:HB.
  destruct (for_rows (merge_by_name Label.Author) (unwind ps authors) gB)
    as [g1 rows1] eqn:H1.
  destruct (for_rows _ rows1 g1) as [g2 rows2] eqn:H2.
  rewrite unwind_nil in Hq. simpl in Hq. injection Hq as <- _.
  eapply (upsert_authors_names l pid); [exact HA|exact HB|exact H1|exact H2| | |];
    [by repeat constructor|done|done].
Qed.

Lemma unique_names_empty l : unique_names l Cypher.empty.
Proof. constructor. Qed.

(** Property X20. Every database the two stores build from an empty one, in
    any order, on any servers and whatever fails in between, holds no two
    Paper nodes with the same id, no two Author nodes with the same name and
    no two Keyword nodes with the same name. *)
Theorem reachable_graph_has_no_duplicates s :
  reachable s →
  unique_paper_ids (graph_of s)
  ∧ unique_names Label.Author (graph_of s)
  ∧ unique_names Label.Keyword (graph_of s).
Proof.
  induction 1 as [lg|srv paper s Hs (Hid & Ha & Hk)|srv paper s Hs (Hid & Ha & Hk)].
  - split; [apply unique_paper_ids_empty|]. split; apply unique_names_empty.
  - split; [by apply dbagent_store_paper_keeps_unique|].
    destruct (dbagent_store_paper_graph srv paper s) as [->| ->]; [done|].
    split; by apply dbagent_create_paper_query_names.
  - split; [by apply handler_store_paper_keeps_unique|].
    destruct (handler_store_paper_graph srv paper s) as [->|(g' & Hq & ->)];
      [done|].
    split; by eapply handler_create_paper_query_names.
Qed.

Lemma reachable_graph_has_no_duplicates_witness :
  unique_paper_ids (graph_of Fixtures.library)
  ∧ unique_names Label.Author (graph_of Fixtures.library)
  ∧ unique_names Label.Keyword (graph_of Fixtures.library).
Proof.
  apply (reachable_graph_has_no_duplicates Fixtures.library).
  unfold Fixtures.library. do 3 apply reachable_dbagent. apply reachable_empty.
Defined.

End Invariants.

(* ===================================================================== *)
(** * What the stores add and what they report *)
(* ===================================================================== *)

Section Store_effects.
Import Cypher Driver Statements.
Implicit Types (g : graph) (i j p : nat) (l : label) (s : db).

(** Property X21. A store leaves the rest of the graph alone. A node that is
    not a Paper node with the id of the stored paper keeps its label and its
    properties, and no relationship is removed. This holds for the store of
    [DBAgent] and for the one of [Neo4jHandler], on any server. *)
Theorem store_paper_frame srv s i :
  i < length (g_nodes (graph_of s)) →
  (∀ paper : DBAgent.Paper,
     i ∉ papers_with_id (graph_of s) (DBAgent.id paper) →
     g_nodes (graph_of (state_of (DBAgent.store_paper srv paper s))) !! i
     = g_nodes (graph_of s) !! i
     ∧ g_rels (graph_of s)
       ⊆ g_rels (graph_of (state_of (DBAgent.store_paper srv paper s))))
  ∧ (∀ paper : Schemas.Paper,
       i ∉ papers_with_id (graph_of s) (Schemas.id paper) →
       g_nodes (graph_of (state_of (Neo4jHandler.store_paper srv paper s))) !! i
       = g_nodes (graph_of s) !! i
       ∧ g_rels (graph_of s)
         ⊆ g_rels (graph_of (state_of (Neo4jHandler.store_paper srv paper s)))).
Proof.
  intros Hi. unfold papers_with_id. split.
  - intros paper Hnot.
    destruct (dbagent_store_paper_graph srv paper s) as [->| ->]; [done|].
    by apply dbagent_create_paper_query_frame.
  - intros paper Hnot.
    destruct (handler_store_paper_graph srv paper s) as [->|(g' & Hq & ->)];
      [done|].
    destruct (handler_create_paper_query_frame (Schemas.id paper)
                (Schemas.title paper) (Schemas.abstract paper)
                (Schemas.year paper) (Schemas.url paper)
                (Schemas.full_text paper) (Schemas.authors paper)
                (Schemas.images paper) (clock srv) (graph_of s))
      as (g'' & Hq' & Hrel & Hsame & _).
    rewrite Hq in Hq'. injection Hq' as <-. split; [by apply Hsame|done].
Qed.

Lemma store_paper_frame_witness :
  g_nodes (graph_of (state_of (DBAgent.store_paper (healthy 0)
                                 Fixtures.quantum_a_revised Fixtures.library)))
    !! 1
  = g_nodes (graph_of Fixtures.library) !! 1
  ∧ g_rels (graph_of Fixtures.library)
    ⊆ g_rels (graph_of (state_of (DBAgent.store_paper (healthy 0)
                                    Fixtures.quantum_a_revised
                                    Fixtures.library))).
Proof.
  refine (proj1 (store_paper_frame (healthy 0) Fixtures.library 1 _)
            Fixtures.quantum_a_revised _).
  - vm_compute. lia.
  - intros H. vm_compute in H. apply list_elem_of_singleton in H. discriminate.
Defined.

(** Property X22. [Neo4jHandler.store_paper] never adds a Keyword node or an
    Image node, and never a HAS_KEYWORD or HAS_IMAGE relationship: the
    [Paper] model has no [keywords], so [UNWIND] runs over an empty list and
    the clauses after it, those of the images included, run on no row. *)
Theorem handler_store_adds_no_keyword_or_image srv paper s :
  (∀ i l, node_label (graph_of (state_of (Neo4jHandler.store_paper srv paper s)))
            i = Some l →
          l = Label.Keyword ∨ l = Label.Image →
          node_label (graph_of s) i = Some l)
  ∧ (∀ a t b,
       (a, t, b) ∈ g_rels (graph_of (state_of (Neo4jHandler.store_paper srv
                                                 paper s))) →
       t = HAS_KEYWORD ∨ t = HAS_IMAGE →
       (a, t, b) ∈ g_rels (graph_of s)).
Proof.
  destruct (handler_store_paper_graph srv paper s) as [->|(g' & Hq & ->)];
    [done|].
  destruct (handler_create_paper_query_frame (Schemas.id paper)
              (Schemas.title paper) (Schemas.abstract paper)
              (Schemas.year paper) (Schemas.url paper)
              (Schemas.full_text paper) (Schemas.authors paper)
              (Schemas.images paper) (clock srv) (graph_of s))
    as (g'' & Hq' & _ & _ & Hlab & Hnew & Hrels).
  rewrite Hq in Hq'. injection Hq' as <-. split.
  - intros i l Hl Hkind.
    destruct (decide (i < length (g_nodes (graph_of s)))) as [Hi|Hi].
    + by rewrite <- Hlab.
    + destruct (Hnew i l) as [->| ->]; [lia|done|..];
        by destruct Hkind.
  - intros a t b Hx Hkind. destruct (Hrels _ Hx) as [?|Ht]; [done|].
    simpl in Ht. subst t. by destruct Hkind.
Qed.

(** Property X23. [Neo4jHandler.store_paper] returns [False] on every server
    and for every paper, also when the paper was written: on a server that
    answers, a Paper node with the id of the paper is in the graph
    afterwards. *)
Theorem handler_store_paper_reports_failure srv paper s :
  result_of (Neo4jHandler.store_paper srv paper s) = Ret false
  ∧ ((∀ c, fault srv c = None) →
     papers_with_id (graph_of (state_of (Neo4jHandler.store_paper srv paper s)))
       (Schemas.id paper) ≠ []).
Proof.
  destruct (handler_create_paper_query_post (Schemas.id paper)
              (Schemas.title paper) (Schemas.abstract paper)
              (Schemas.year paper) (Schemas.url paper)
              (Schemas.full_text paper) (Schemas.authors paper)
              (Schemas.images paper) (clock srv) (graph_of s))
    as (g' & Hq & Hne & _).
  split.
  - unfold Neo4jHandler.store_paper, Neo4jHandler._sync_store_paper,
      Neo4jHandler._create_paper_tx, with_session, execute,
      try_finally, reach, run, log, try_except, modify, mbind, M_bind, mret,
      M_ret, result_of.
    destruct (fault srv OpenSession); simpl; [done|].
    destruct (fault srv BeginTransaction); simpl;
      [by destruct (fault srv CloseSession)|].
    destruct (fault srv RunQuery); simpl;
      [by destruct (fault srv Commit), (fault srv CloseSession)|].
    rewrite Hq. simpl.
    by destruct (fault srv Commit), (fault srv CloseSession).
  - intros Hok.
    destruct (handler_store_paper_healthy srv paper s Hok) as (g'' & Hq' & ->).
    rewrite Hq in Hq'. injection Hq' as <-. done.
Qed.

End Store_effects.

(* ===================================================================== *)
(** * Reading a paper back *)
(* ===================================================================== *)

Section Lookup.
Import Cypher Driver Statements.
Implicit Types (g : graph) (i j p : nat) (l : label) (s : db).

(** [_sync_get_paper_by_id] on a server that answers. *)
Lemma sync_get_paper_by_id_healthy srv paper_id s :
  (∀ c, fault srv c = None) →
  Neo4jHandler._sync_get_paper_by_id srv paper_id s
  = match Neo4jHandler.get_full_paper_query paper_id (graph_of s) with
    | [] => (Ret None, s)
    | (p, authors, keywords, images) :: _ =>
        ((id ← Neo4jHandler.getitem (graph_of s) p "id";
          title ← Neo4jHandler.getitem (graph_of s) p "title";
          abstract ← Neo4jHandler.getitem (graph_of s) p "abstract";
          year ← Neo4jHandler.getitem (graph_of s) p "year";
          url ← Neo4jHandler.getitem (graph_of s) p "url";
          mret (Some {| Neo4jHandler.pr_id := id;
                        Neo4jHandler.pr_title := title;
                        Neo4jHandler.pr_abstract := abstract;
                        Neo4jHandler.pr_year := year;
                        Neo4jHandler.pr_url := url;
                        Neo4jHandler.pr_full_text := prop (graph_of s) p "full_text";
                        Neo4jHandler.pr_authors := authors;
                        Neo4jHandler.pr_keywords := keywords;
                        Neo4jHandler.pr_images :=
                          omap (λ i, n_props <$> g_nodes (graph_of s) !! i)
                            images |})) : M db _) s
    end.
Proof.
  intros Hok. unfold Neo4jHandler._sync_get_paper_by_id, with_session,
    try_finally, reach, run, get_state.
  unfold mbind at 1 2 3, M_bind. rewrite !Hok. destruct s as [g lg]. simpl.
  destruct (Neo4jHandler.get_full_paper_query paper_id g)
    as [|[[[p authors] keywords] images] rest]; [done|].
  unfold Neo4jHandler.getitem, mbind, M_bind, mret, M_ret, raise.
  by repeat case_match.
Qed.

(** Property X24. On servers that answer, a paper stored by
    [Neo4jHandler.store_paper] is read back by [_sync_get_paper_by_id]: the
    id, title, abstract, year, url and full text are those of the paper,
    every author of the paper is among the authors, and the lookup changes
    nothing. *)
Theorem handler_store_then_get srv1 srv2 paper s :
  (∀ c, fault srv1 c = None) → (∀ c, fault srv2 c = None) →
  ∃ r,
    Neo4jHandler._sync_get_paper_by_id srv2 (Schemas.id paper)
      (state_of (Neo4jHandler.store_paper srv1 paper s))
    = (Ret (Some r), state_of (Neo4jHandler.store_paper srv1 paper s))
    ∧ Neo4jHandler.pr_id r = VStr (Schemas.id paper)
    ∧ Neo4jHandler.pr_title r = VStr (Schemas.title paper)
    ∧ Neo4jHandler.pr_abstract r = VStr (Schemas.abstract paper)
    ∧ Neo4jHandler.pr_year r = VInt (Schemas.year paper)
    ∧ Neo4jHandler.pr_url r = VStr (Schemas.url paper)
    ∧ Neo4jHandler.pr_full_text r = VStr <$> Schemas.full_text paper
    ∧ ∀ a, a ∈ Schemas.authors paper → VStr a ∈ Neo4jHandler.pr_authors r.
Proof.
  intros Hok1 Hok2.
  destruct (handler_store_paper_healthy srv1 paper s Hok1) as (g' & Hq & ->).
  destruct (handler_create_paper_query_post (Schemas.id paper)
              (Schemas.title paper) (Schemas.abstract paper)
              (Schemas.year paper) (Schemas.url paper)
              (Schemas.full_text paper) (Schemas.authors paper)
              (Schemas.images paper) (clock srv1) (graph_of s))
    as (g'' & Hq' & Hne & Hpost).
  rewrite Hq in Hq'. injection Hq' as <-.
  unfold state_of. simpl.
  rewrite (sync_get_paper_by_id_healthy srv2 _ _ Hok2). simpl.
  unfold Neo4jHandler.get_full_paper_query.
  destruct (match_nodes Label.Paper [("id", VStr (Schemas.id paper))] g')
    as [|p0 ps] eqn:Hm; [done|].
  destruct (Hpost p0) as (Hid & Htitle & Habs & Hyear & Hurl & Hfull & Hauth);
    [left|].
  rewrite fmap_cons.
  unfold Neo4jHandler.getitem, mbind, M_bind, mret, M_ret.
  rewrite Hid, Htitle, Habs, Hyear, Hurl, Hfull.
  eexists. split; [reflexivity|]. simpl. split_and!; try done.
  intros a Ha. destruct (Hauth a Ha) as (n & Hl & Hn & Hrel).
  apply elem_of_distinct, list_elem_of_omap. exists n.
  split; [|done]. by apply elem_of_sources_of.
Qed.

Lemma handler_store_then_get_witness :
  ∃ r,
    Neo4jHandler._sync_get_paper_by_id (healthy 1) (Schemas.id Fixtures.extracted)
      (state_of (Neo4jHandler.store_paper (healthy 0) Fixtures.extracted
                   Fixtures.fresh))
    = (Ret (Some r),
       state_of (Neo4jHandler.store_paper (healthy 0) Fixtures.extracted
                   Fixtures.fresh))
    ∧ Neo4jHandler.pr_id r = VStr (Schemas.id Fixtures.extracted)
    ∧ Neo4jHandler.pr_title r = VStr (Schemas.title Fixtures.extracted)
    ∧ Neo4jHandler.pr_abstract r = VStr (Schemas.abstract Fixtures.extracted)
    ∧ Neo4jHandler.pr_year r = VInt (Schemas.year Fixtures.extracted)
    ∧ Neo4jHandler.pr_url r = VStr (Schemas.url Fixtures.extracted)
    ∧ Neo4jHandler.pr_full_text r = VStr <$> Schemas.full_text Fixtures.extracted
    ∧ ∀ a, a ∈ Schemas.authors Fixtures.extracted →
           VStr a ∈ Neo4jHandler.pr_authors r.
Proof.
  apply (handler_store_then_get (healthy 0) (healthy 1) Fixtures.extracted
           Fixtures.fresh); reflexivity.
Defined.

(** Property X25. On a server that answers, [_sync_get_paper_by_id] returns
    [None] for an id that no Paper node carries, and changes nothing. *)
Theorem sync_get_paper_by_id_unknown srv paper_id s :
  (∀ c, fault srv c = None) →
  papers_with_id (graph_of s) paper_id = [] →
  Neo4jHandler._sync_get_paper_by_id srv paper_id s = (Ret None, s).
Proof.
  intros Hok Hno. rewrite (sync_get_paper_by_id_healthy srv _ _ Hok).
  unfold Neo4jHandler.get_full_paper_query. unfold papers_with_id in Hno.
  by rewrite Hno.
Qed.

Lemma sync_get_paper_by_id_unknown_witness :
  Neo4jHandler._sync_get_paper_by_id (healthy 0) "2401.99999" Fixtures.fresh
  = (Ret None, Fixtures.fresh).
Proof.
  apply (sync_get_paper_by_id_unknown (healthy 0) "2401.99999" Fixtures.fresh);
    reflexivity.
Defined.

(** Property X26. [_sync_get_paper_by_id] has no handler: when opening the
    session, running the query or closing the session fails, the method
    raises, and the database and the log are as before. *)
Theorem sync_get_paper_by_id_propagates srv paper_id s c e :
  fault srv c = Some e →
  c = OpenSession ∨ c = RunQuery ∨ c = CloseSession →
  ∃ e', Neo4jHandler._sync_get_paper_by_id srv paper_id s = (Raise e', s).
Proof.
  intros He Hc. unfold Neo4jHandler._sync_get_paper_by_id, with_session,
    try_finally, reach, run, get_state.
  unfold mbind at 1 2 3, M_bind. destruct s as [g lg]. simpl.
  destruct (Neo4jHandler.get_full_paper_query paper_id g)
    as [|[[[p authors] keywords] images] rest];
    unfold Neo4jHandler.getitem, mbind, M_bind, mret, M_ret, raise;
    destruct Hc as [->|[->| ->]]; rewrite ?He;
    repeat case_match; simplify_eq; eauto.
Qed.

Lemma sync_get_paper_by_id_propagates_witness :
  ∃ e', Neo4jHandler._sync_get_paper_by_id Fixtures.closed "2401.00001"
          Fixtures.fresh = (Raise e', Fixtures.fresh).
Proof.
  apply (sync_get_paper_by_id_propagates Fixtures.closed "2401.00001"
           Fixtures.fresh OpenSession
           (LibraryError "DriverError" "Driver closed")).
  - reflexivity.
  - left. reflexivity.
Defined.


End Lookup.

(* ===================================================================== *)
(** * Storing a paper and reading it back *)
(* ===================================================================== *)

Section Round_trips.
Import Cypher Driver Statements.
Implicit Types (g : graph) (i j p : nat) (l : label) (s : db).

(** A paper [DBAgent] creates has no [abstract]. *)
Lemma dbagent_create_paper_query_new
    pid title summary year url authors keywords now g :
  match_nodes Label.Paper [("id", VStr pid)] g = [] →
  let r := DBAgent.create_paper_query pid title summary year url authors
             keywords now g in
  match_nodes Label.Paper [("id", VStr pid)] r.1 = [length (g_nodes g)]
  ∧ prop r.1 (length (g_nodes g)) "abstract" = None.
Proof.
  intros Hnone.
  pose proof (dbagent_create_paper_query_spec pid title summary year url authors
                keywords now g) as (Hm & _ & _).
  rewrite decide_True in Hm by done. simpl. split; [done|].
  revert Hm. unfold DBAgent.create_paper_query.
  destruct (merge_node Label.Paper [("id", VStr pid)] g) as [gA ps0] eqn:HA.
  destruct (for_rows _ ps0 gA) as [gB ps] eqn:HB.
  destruct (for_rows (merge_by_name Label.Author) (unwind ps authors) gB)
    as [g1 rows1] eqn:H1.
  destruct (for_rows _ rows1 g1) as [g2 rows2] eqn:H2.
  destruct (for_rows (merge_by_name Label.Keyword) (unwind rows2.*1 keywords) g2)
    as [g3 rows3] eqn:H3.
  destruct (for_rows _ rows3 g3) as [g4 rows4] eqn:H4.
  simpl. intros _.
  pose proof (set_rows_spec
                [("title", Some (VStr title)); ("summary", Some (VStr summary));
                 ("year", Some (VInt year)); ("url", Some (VStr url));
                 ("updated_at", Some (VDateTime now))] ps0 gA) as HsB.
  rewrite HB in HsB. simpl in HsB.
  destruct HsB as (-> & Hlen & _ & _ & Hother & _ & _).
  unfold merge_node in HA. rewrite Hnone in HA. injection HA as <- <-.
  assert (Hg4 : grows gB g4).
  { etrans.
    - pose proof (for_rows_merge_by_name Label.Author
                    (unwind [length (g_nodes g)] authors) gB) as (Hg & _).
      rewrite H1 in Hg. exact Hg.
    - etrans.
      + pose proof (for_rows_grows
                      (λ '(p, a) g, (merge_rel a AUTHORED p g, [(p, a)]))
                      rows1 g1) as Hg.
        rewrite H2 in Hg. apply Hg. intros [p a] g'. apply merge_rel_grows.
      + by eapply keywords_frame. }
  rewrite (grows_prop_eq gB g4); [|done|].
  - rewrite Hother by (by repeat constructor).
    unfold prop, add_node. simpl. rewrite lookup_app_r by lia.
    by rewrite Nat.sub_diag.
  - rewrite Hlen. simpl. rewrite length_app. simpl. lia.
Qed.

(** Property X28. The two stores do not agree on the name of a property: a
    paper [DBAgent.store_paper] has created has a [summary] and no
    [abstract], so [_sync_get_paper_by_id] of [Neo4jHandler] raises a
    [KeyError] for [abstract] on it, on servers that answer. *)
Theorem dbagent_paper_is_unreadable_by_handler srv1 srv2 paper s :
  (∀ c, fault srv1 c = None) → (∀ c, fault srv2 c = None) →
  papers_with_id (graph_of s) (DBAgent.id paper) = [] →
  Neo4jHandler._sync_get_paper_by_id srv2 (DBAgent.id paper)
    (state_of (DBAgent.store_paper srv1 paper s))
  = (Raise (LibraryError "KeyError" "'abstract'"),
     state_of (DBAgent.store_paper srv1 paper s)).
Proof.
  intros Hok1 Hok2 Hnone. unfold papers_with_id in Hnone.
  rewrite (dbagent_store_paper_healthy srv1 paper s Hok1).
  unfold state_of. simpl.
  rewrite (sync_get_paper_by_id_healthy srv2 _ _ Hok2). simpl.
  pose proof (dbagent_create_paper_query_new (DBAgent.id paper)
                (DBAgent.title paper) (DBAgent.summary paper)
                (DBAgent.year paper) (DBAgent.url paper) (DBAgent.authors paper)
                (default [] (DBAgent.keywords paper)) (clock srv1) (graph_of s)
                Hnone) as [Hm Habs].
  pose proof (dbagent_create_paper_query_post (DBAgent.id paper)
                (DBAgent.title paper) (DBAgent.summary paper)
                (DBAgent.year paper) (DBAgent.url paper) (DBAgent.authors paper)
                (default [] (DBAgent.keywords paper)) (clock srv1) (graph_of s))
    as (_ & _ & Hpost).
  simpl in Hm, Habs, Hpost.
  destruct (Hpost (length (g_nodes (graph_of s)))) as (Htitle & _);
    [rewrite Hm; left|].
  assert (Hid : prop (DBAgent.create_paper_query (DBAgent.id paper)
                        (DBAgent.title paper) (DBAgent.summary paper)
                        (DBAgent.year paper) (DBAgent.url paper)
                        (DBAgent.authors paper)
                        (default [] (DBAgent.keywords paper)) (clock srv1)
                        (graph_of s)).1
                  (length (g_nodes (graph_of s))) "id"
                = Some (VStr (DBAgent.id paper))).
  { assert (Hin : length (g_nodes (graph_of s))
                  ∈ match_nodes Label.Paper [("id", VStr (DBAgent.id paper))]
                      (DBAgent.create_paper_query (DBAgent.id paper)
                         (DBAgent.title paper) (DBAgent.summary paper)
                         (DBAgent.year paper) (DBAgent.url paper)
                         (DBAgent.authors paper)
                         (default [] (DBAgent.keywords paper)) (clock srv1)
                         (graph_of s)).1) by (rewrite Hm; left).
    by apply elem_of_paper_id_match in Hin as [_ ?]. }
  unfold Neo4jHandler.get_full_paper_query. rewrite Hm. rewrite fmap_cons.
  unfold Neo4jHandler.getitem, mbind, M_bind, mret, M_ret, raise.
  rewrite Hid, Htitle, Habs. reflexivity.
Qed.

Lemma dbagent_paper_is_unreadable_by_handler_witness :
  Neo4jHandler._sync_get_paper_by_id (healthy 1) (DBAgent.id Fixtures.quantum_a)
    (state_of (DBAgent.store_paper (healthy 0) Fixtures.quantum_a Fixtures.fresh))
  = (Raise (LibraryError "KeyError" "'abstract'"),
     state_of (DBAgent.store_paper (healthy 0) Fixtures.quantum_a Fixtures.fresh)).
Proof.
  apply (dbagent_paper_is_unreadable_by_handler (healthy 0) (healthy 1)
           Fixtures.quantum_a Fixtures.fresh); reflexivity.
Defined.

(** Property X29. A stored paper is found. On servers that answer, after
    [DBAgent.store_paper] stored a paper that has an author and a keyword,
    [query_papers] with a topic inside its title or its summary, a minimum
    year not above its year and a limit that does not cut returns a record
    with the id, title, summary, year and url of the paper, all its authors
    and all its keywords, and changes nothing. *)
Theorem stored_paper_is_found srv1 srv2 paper s ks topic start_year limit :
  (∀ c, fault srv1 c = None) → (∀ c, fault srv2 c = None) →
  DBAgent.authors paper ≠ [] →
  DBAgent.keywords paper = Some ks → ks ≠ [] →
  (start_year ≤ DBAgent.year paper)%Z →
  occurs_in topic (DBAgent.title paper)
  ∨ occurs_in topic (DBAgent.summary paper) →
  (Z.of_nat (length (g_nodes (graph_of (state_of (DBAgent.store_paper srv1
                                                    paper s)))))
   ≤ limit)%Z →
  ∃ out r,
    DBAgent.query_papers srv2 topic start_year limit
      (state_of (DBAgent.store_paper srv1 paper s))
    = (Ret out, state_of (DBAgent.store_paper srv1 paper s))
    ∧ r ∈ out
    ∧ rec_id r = Some (VStr (DBAgent.id paper))
    ∧ rec_title r = Some (VStr (DBAgent.title paper))
    ∧ rec_summary r = Some (VStr (DBAgent.summary paper))
    ∧ rec_year r = Some (VInt (DBAgent.year paper))
    ∧ rec_url r = Some (VStr (DBAgent.url paper))
    ∧ (∀ a, a ∈ DBAgent.authors paper → VStr a ∈ rec_authors r)
    ∧ (∀ k, k ∈ ks → VStr k ∈ rec_keywords r).
Proof.
  intros Hok1 Hok2 Hauthors Hks Hksne Hyear Htopic.
  rewrite (dbagent_store_paper_healthy srv1 paper s Hok1). rewrite Hks.
  unfold state_of. simpl.
  pose proof (dbagent_create_paper_query_post (DBAgent.id paper)
                (DBAgent.title paper) (DBAgent.summary paper)
                (DBAgent.year paper) (DBAgent.url paper) (DBAgent.authors paper)
                ks (clock srv1) (graph_of s)) as (Hne & _ & Hpost).
  simpl in Hne, Hpost.
  set (g' := (DBAgent.create_paper_query (DBAgent.id paper)
                (DBAgent.title paper) (DBAgent.summary paper)
                (DBAgent.year paper) (DBAgent.url paper) (DBAgent.authors paper)
                ks (clock srv1) (graph_of s)).1) in *.
  intros Hbig.
  destruct (match_nodes Label.Paper [("id", VStr (DBAgent.id paper))] g')
    as [|p ps] eqn:Hm; [done|].
  assert (Hp : p ∈ match_nodes Label.Paper [("id", VStr (DBAgent.id paper))] g')
    by (rewrite Hm; left).
  apply elem_of_paper_id_match in Hp as [Hlp Hidp].
  destruct (Hpost p) as (Htitle & Hsum & Hy & Hurl & Hauth & Hkw); [left|].
  specialize (Hkw Hauthors).
  assert (Hjoin : ∀ a k, a ∈ DBAgent.authors paper → k ∈ ks →
            ∃ n m, joined g' (paper_key g' p) p n m
                   ∧ prop g' n "name" = Some (VStr a)
                   ∧ prop g' m "name" = Some (VStr k)).
  { intros a k Ha Hk.
    destruct (Hauth a Ha) as (n & Hln & Hn & Hrn).
    destruct (Hkw k Hk) as (m & Hlm & Hmn & Hrm).
    exists n, m. split; [|done]. unfold joined.
    split_and!; try done. by eapply node_label_valid. }
  assert (Hlim : (0 ≤ limit)%Z) by lia.
  destruct (query_papers_tx_returns srv2 topic start_year limit
              {| graph_of := g'; log_of := log_of s |} (Hok2 _) Hlim)
    as [out Htx].
  pose proof Htx as [Hq _]%query_papers_tx_inv. simpl in Hq.
  pose proof Hq as (_ & _ & _ & Hnames)%query_papers_query_sound.
  pose proof Hq as [_ Hcomplete]%query_papers_query_complete.
  specialize (Hcomplete Hbig (paper_key g' p)).
  destruct (DBAgent.authors paper) as [|a0 authors] eqn:Ea; [done|].
  destruct ks as [|k0 ks']; [done|].
  destruct (Hjoin a0 k0) as (n0 & m0 & Hj0 & _); [left|left|].
  assert (Hhit : search_hit g' topic start_year (paper_key g' p)).
  { exists p, n0, m0, (DBAgent.year paper). split; [done|]. split; [done|].
    split; [done|]. destruct Htopic as [Ht|Ht]; [left|right]; eauto. }
  apply Hcomplete in Hhit. apply list_elem_of_fmap in Hhit as (r & Hkey & Hr).
  exists out, r. split.
  { unfold DBAgent.query_papers, with_session, execute, try_finally, reach,
      try_except, mbind, M_bind. rewrite !Hok2. rewrite Htx. done. }
  split; [done|].
  pose proof Hkey as Hkey'. unfold paper_key in Hkey'.
  rewrite Hidp, Htitle, Hsum, Hy, Hurl in Hkey'.
  unfold key_of in Hkey'. injection Hkey' as <- <- <- <- <-.
  split_and!; try done.
  - intros a Ha. eapply Forall_forall in Hnames; [|exact Hr].
    destruct Hnames as (_ & _ & Hra & _). apply Hra.
    destruct (Hjoin a k0 Ha) as (n & m & Hj & Hn & _); [left|].
    exists p, n, m. split; [|done]. by rewrite <- Hkey.
  - intros k Hk. eapply Forall_forall in Hnames; [|exact Hr].
    destruct Hnames as (_ & _ & _ & Hrk). apply Hrk.
    destruct (Hjoin a0 k) as (n & m & Hj & _ & Hmn); [left|done|].
    exists p, n, m. split; [|done]. by rewrite <- Hkey.
Qed.

Lemma stored_paper_is_found_witness :
  ∃ out r,
    DBAgent.query_papers (healthy 1) "walks" 2020 10
      (state_of (DBAgent.store_paper (healthy 0) Fixtures.quantum_a Fixtures.fresh))
    = (Ret out,
       state_of (DBAgent.store_paper (healthy 0) Fixtures.quantum_a Fixtures.fresh))
    ∧ r ∈ out
    ∧ rec_id r = Some (VStr (DBAgent.id Fixtures.quantum_a))
    ∧ rec_title r = Some (VStr (DBAgent.title Fixtures.quantum_a))
    ∧ rec_summary r = Some (VStr (DBAgent.summary Fixtures.quantum_a))
    ∧ rec_year r = Some (VInt (DBAgent.year Fixtures.quantum_a))
    ∧ rec_url r = Some (VStr (DBAgent.url Fixtures.quantum_a))
    ∧ (∀ a, a ∈ DBAgent.authors Fixtures.quantum_a → VStr a ∈ rec_authors r)
    ∧ (∀ k, k ∈ ["quantum"; "graphs"] → VStr k ∈ rec_keywords r).
Proof.
  apply (stored_paper_is_found (healthy 0) (healthy 1) Fixtures.quantum_a
           Fixtures.fresh ["quantum"; "graphs"] "walks" 2020 10).
  - reflexivity.
  - reflexivity.
  - discriminate.
  - reflexivity.
  - discriminate.
  - vm_compute. discriminate.
  - left. apply str_in_spec. reflexivity.
  - vm_compute. discriminate.
Defined.

End Round_trips.
